(** * Template retrieval and response composition of the e-mail assistant

    A shallow embedding of [src/services/templateRetriever.ts]
    ([TemplateRetriever]) and of the [ZhipuAIService] class that selects,
    personalises and falls back on templates, together with the properties
    the specification states about them.

    Conventions.
    - A JavaScript string is the list of its UTF-16 code units, so that
      [length], [includes] and the regular-expression character classes mean
      what they mean in the source (a CJK character is one unit).
    - A JavaScript number that holds a score is a rational: scores are sums
      of 2, 1 and 0.5, which binary floating point adds without rounding.
    - [String.prototype.toLowerCase], [JSON.parse] and the string-to-number
      coercions are host functions; the development is parametric in them. *)

From Stdlib Require Import String Ascii DecimalString.
From Stdlib Require Import List Bool Arith ZArith NArith QArith Lia Lqa.
From Stdlib Require Import Sorted.
Import ListNotations.

Set Implicit Arguments.
Set Warnings "-register-all".
Local Open Scope list_scope.

(** ** JavaScript strings and arrays *)

Module JS.

Definition jsstring := list N.

(** Decoding of the UTF-8 literals of this file into UTF-16 code units. *)
Definition cont (b : N) : N := N.land b 63.

Definition utf16_of_codepoint (cp : N) : list N :=
  if N.ltb cp 65536 then [cp]
  else let v := (cp - 65536)%N in
       [(55296 + N.shiftr v 10)%N; (56320 + N.land v 1023)%N].

Fixpoint utf16_of_utf8 (bs : list N) : jsstring :=
  match bs with
  | [] => []
  | b :: r1 =>
    if N.ltb b 128 then b :: utf16_of_utf8 r1
    else match r1 with
    | [] => []
    | b1 :: r2 =>
      if N.ltb b 224 then
        (N.shiftl (N.land b 31) 6 + cont b1)%N :: utf16_of_utf8 r2
      else match r2 with
      | [] => []
      | b2 :: r3 =>
        if N.ltb b 240 then
          (N.shiftl (N.land b 15) 12 + N.shiftl (cont b1) 6 + cont b2)%N
            :: utf16_of_utf8 r3
        else match r3 with
        | [] => []
        | b3 :: r4 =>
          utf16_of_codepoint
            (N.shiftl (N.land b 7) 18 + N.shiftl (cont b1) 12
             + N.shiftl (cont b2) 6 + cont b3)%N
            ++ utf16_of_utf8 r4
        end
      end
    end
  end.

Definition js (s : string) : jsstring :=
  utf16_of_utf8 (map N_of_ascii (list_ascii_of_string s)).
Arguments js s%_string.

Definition dquote : jsstring := [34%N].
Definition newline : jsstring := [10%N].

(** [===] on strings. *)
Fixpoint str_eqb (a b : jsstring) : bool :=
  match a, b with
  | [], [] => true
  | x :: a', y :: b' => N.eqb x y && str_eqb a' b'
  | _, _ => false
  end.

(** [String.prototype.startsWith]. *)
Fixpoint startsWith (s p : jsstring) : bool :=
  match p, s with
  | [], _ => true
  | x :: p', y :: s' => N.eqb x y && startsWith s' p'
  | _ :: _, [] => false
  end.

(** [String.prototype.includes]. *)
Fixpoint includes (s sub : jsstring) : bool :=
  startsWith s sub ||
  match s with
  | [] => false
  | _ :: s' => includes s' sub
  end.

(** [Array.prototype.includes] on an array of strings. *)
Definition array_includes (l : list jsstring) (x : jsstring) : bool :=
  existsb (fun y => str_eqb y x) l.

(** The class [\s] of a regular expression without the [u] flag, which is
    also the set [String.prototype.trim] strips. *)
Definition isWhiteSpace (c : N) : bool :=
  (N.leb 9 c && N.leb c 13) || N.eqb c 32 || N.eqb c 160 || N.eqb c 5760
  || (N.leb 8192 c && N.leb c 8202) || N.eqb c 8232 || N.eqb c 8233
  || N.eqb c 8239 || N.eqb c 8287 || N.eqb c 12288 || N.eqb c 65279.

(** The class [\w]. *)
Definition isWordChar (c : N) : bool :=
  (N.leb 48 c && N.leb c 57) || (N.leb 65 c && N.leb c 90)
  || N.eqb c 95 || (N.leb 97 c && N.leb c 122).

(** [s.split(/[sep]+/)]: the pieces between maximal runs of separators; a
    run at either end of the string leaves an empty piece there. *)
Fixpoint split (sep : N -> bool) (s : jsstring) : list jsstring :=
  match s with
  | [] => [[]]
  | c :: s' =>
    if sep c then
      match s' with
      | c' :: _ => if sep c' then split sep s' else [] :: split sep s'
      | [] => [] :: split sep s'
      end
    else
      match split sep s' with
      | w :: ws => (c :: w) :: ws
      | [] => [[c]]
      end
  end.

Fixpoint trimStart (s : jsstring) : jsstring :=
  match s with
  | c :: s' => if isWhiteSpace c then trimStart s' else s
  | [] => []
  end.

Definition trimEnd (s : jsstring) : jsstring := rev (trimStart (rev s)).

(** [String.prototype.trim]. *)
Definition trim (s : jsstring) : jsstring := trimEnd (trimStart s).

(** [Array.prototype.join]. *)
Fixpoint join (sep : jsstring) (l : list jsstring) : jsstring :=
  match l with
  | [] => []
  | [x] => x
  | x :: l' => x ++ sep ++ join sep l'
  end.

(** [Array.from(new Set(words))]: first occurrences, in insertion order. *)
Definition dedupe (words : list jsstring) : list jsstring :=
  fold_left (fun seen w => if array_includes seen w then seen else seen ++ [w])
            words [].

(** [arr.slice(0, end)] for an integer [end]: a negative [end] counts from
    the end of the array. *)
Definition slice0 {A} (l : list A) (stop : Z) : list A :=
  if (stop <? 0)%Z
  then firstn (Z.to_nat (Z.of_nat (length l) + stop)) l
  else firstn (Z.to_nat stop) l.

(** [Array.prototype.sort] with a comparator. The language requires the
    sort to be stable: [x] moves behind [y] only when [cmp x y > 0]. For a
    comparator that compares keys a stable sort has a single result
    ([sort_unique] below), so the algorithm chosen here does not matter. *)
Section Sort.
Variable A : Type.
Variable cmp : A -> A -> Q.

Fixpoint insert (x : A) (l : list A) : list A :=
  match l with
  | [] => [x]
  | y :: l' =>
    if (0 <? Qnum (cmp x y))%Z then y :: insert x l' else x :: l
  end.

Fixpoint sort (l : list A) : list A :=
  match l with
  | [] => []
  | x :: l' => insert x (sort l')
  end.
End Sort.

(** An insertion-ordered [Map] with string keys. *)
Section JSMap.
Variable V : Type.
Definition Map := list (jsstring * V).

Fixpoint map_get (m : Map) (k : jsstring) : option V :=
  match m with
  | [] => None
  | (k', v) :: m' => if str_eqb k' k then Some v else map_get m' k
  end.

Definition map_has (m : Map) (k : jsstring) : bool :=
  match map_get m k with Some _ => true | None => false end.

(** [Map.prototype.set]: an existing key keeps its place. *)
Fixpoint map_set (m : Map) (k : jsstring) (v : V) : Map :=
  match m with
  | [] => [(k, v)]
  | (k', v') :: m' =>
    if str_eqb k' k then (k', v) :: m' else (k', v') :: map_set m' k v
  end.

Definition map_keys (m : Map) : list jsstring := map fst m.
End JSMap.

(** ASCII lower-casing: what [toLowerCase] does on strings of ASCII
    letters, digits, punctuation and CJK characters. *)
Definition asciiLower (s : jsstring) : jsstring :=
  map (fun c => if N.leb 65 c && N.leb c 90 then (c + 32)%N else c) s.

(** [s.split(sep)] for a separator of one code unit: every occurrence
    separates, so two separators in a row leave an empty piece. *)
Fixpoint splitOn (sep : N) (s : jsstring) : list jsstring :=
  match s with
  | [] => [[]]
  | c :: s' =>
    if N.eqb c sep then [] :: splitOn sep s'
    else match splitOn sep s' with
         | w :: ws => (c :: w) :: ws
         | [] => [[c]]
         end
  end.

(** [/[a-b...]/.test(s)] for a class given by ranges of code units. *)
Definition inRanges (ranges : list (N * N)) (c : N) : bool :=
  existsb (fun r => N.leb (fst r) c && N.leb c (snd r)) ranges.

Definition testClass (ranges : list (N * N)) (s : jsstring) : bool :=
  existsb (inRanges ranges) s.

(** The assertion [\b] between two neighbouring positions; [None] is an
    end of the string. *)
Definition isWordOpt (c : option N) : bool :=
  match c with Some c => isWordChar c | None => false end.

Definition boundary (before after : option N) : bool :=
  xorb (isWordOpt before) (isWordOpt after).

(** A match of [\b(w)\b] that starts at the head of [s]; [prev] is the
    code unit before [s]. *)
Definition wholeWordHere (prev : option N) (s w : jsstring) : bool :=
  startsWith s w
  && boundary prev (hd_error s)
  && boundary (match rev w with c :: _ => Some c | [] => prev end)
              (hd_error (skipn (length w) s)).

(** [/\b(w1|w2|...)\b/.test(s)]: a match of some alternative at some
    position. *)
Fixpoint testWords (prev : option N) (s : jsstring) (words : list jsstring)
    : bool :=
  existsb (wholeWordHere prev s) words
  || match s with
     | [] => false
     | c :: s' => testWords (Some c) s' words
     end.

End JS.
Import JS.

(** ** The data model *)

Record Template := {
  id : jsstring;
  category : jsstring;
  scenario : jsstring;
  keywords : list jsstring;
  languages : Map jsstring;
}.

Record ProcessedEmail := {
  uid : N;
  from_address : jsstring;
  subject : jsstring;
  text : jsstring;
  deviceInfo : option jsstring;
  appVersion : option jsstring;
  orderId : option jsstring;
  userId : option jsstring;
}.

(** What indexing [template.languages] yields besides [undefined]: a text
    of the object itself, or a member that every plain object inherits from
    [Object.prototype]. *)
Inductive Content :=
| Text (s : jsstring)
| Inherited (member : jsstring).

(** The names of the members of [Object.prototype]. *)
Definition objectPrototypeMembers : list jsstring :=
  [js "constructor"; js "__defineGetter__"; js "__defineSetter__";
   js "hasOwnProperty"; js "__lookupGetter__"; js "__lookupSetter__";
   js "isPrototypeOf"; js "propertyIsEnumerable"; js "toString";
   js "valueOf"; js "__proto__"; js "toLocaleString"].

(** [languages[key]] on the plain object that [JSON.parse] made: a field of
    its own comes first, then the inherited members. *)
Definition objectMember (languages : Map jsstring) (key : jsstring)
    : option Content :=
  match map_get languages key with
  | Some s => Some (Text s)
  | None =>
    if array_includes objectPrototypeMembers key then Some (Inherited key)
    else None
  end.

Record TemplateMatch := {
  template : Template;
  score : Q;
  matchedKeywords : list jsstring;
}.

(** ** [TemplateRetriever] *)

Module TemplateRetriever.

Record t := {
  templates : list Template;
  categoryIndex : Map (list Template);
  keywordIndex : Map (list Template);
}.

(** [index.get(key)!.push(template)], after [index.set(key, [])] when the
    key is new. *)
Definition index_push (index : Map (list Template)) (key : jsstring)
    (tpl : Template) : Map (list Template) :=
  let index := if map_has index key then index else map_set index key [] in
  match map_get index key with
  | Some arr => map_set index key (arr ++ [tpl])
  | None => index
  end.

Section WithLowerCase.

(** [String.prototype.toLowerCase]. *)
Variable toLowerCase : jsstring -> jsstring.

Definition buildIndexes (tpls : list Template)
    : Map (list Template) * Map (list Template) :=
  fold_left
    (fun '(cidx, kidx) tpl =>
       (index_push cidx (category tpl) tpl,
        fold_left (fun kidx keyword => index_push kidx (toLowerCase keyword) tpl)
                  (keywords tpl) kidx))
    tpls ([], []).

(** The constructor, after the corpus file has been read and parsed. *)
Definition new (tpls : list Template) : t :=
  let '(cidx, kidx) := buildIndexes tpls in
  {| templates := tpls; categoryIndex := cidx; keywordIndex := kidx |}.

Definition getCategories (r : t) : list jsstring := map_keys (categoryIndex r).

Definition getTemplatesByCategory (r : t) (cat : jsstring) : list Template :=
  match map_get (categoryIndex r) cat with Some l => l | None => [] end.

Definition searchByKeyword (r : t) (keyword : jsstring) : list Template :=
  match map_get (keywordIndex r) (toLowerCase keyword) with
  | Some l => l
  | None => []
  end.

Definition getTemplateById (r : t) (i : jsstring) : option Template :=
  find (fun tpl => str_eqb (id tpl) i) (templates r).

(** [template.languages[language] || template.languages['en'] || '']. *)
Definition getTemplateContent (tpl : Template) (language : jsstring) : Content :=
  match objectMember (languages tpl) language with
  | Some (Text ((_ :: _) as s)) => Text s
  | Some (Inherited member) => Inherited member
  | _ => match objectMember (languages tpl) (js "en") with
         | Some (Text ((_ :: _) as s)) => Text s
         | Some (Inherited member) => Inherited member
         | _ => Text []
         end
  end.

(** The loop of [getCandidates] over [categoryIndex.entries()]. *)
Definition similarCategory (normalizedCategory : jsstring)
    (entry : jsstring * list Template) : bool :=
  includes (toLowerCase (fst entry)) normalizedCategory
  || includes normalizedCategory (toLowerCase (fst entry)).

Definition getCandidates (r : t) (cat : jsstring) : list Template :=
  match map_get (categoryIndex r) cat with
  | Some ((_ :: _) as exactMatch) => exactMatch
  | _ =>
    let normalizedCategory := toLowerCase cat in
    match find (similarCategory normalizedCategory) (categoryIndex r) with
    | Some (_, tpls) => tpls
    | None => templates r
    end
  end.

(** [/[^\w\s一-龥]/g] replaced by a space. *)
Definition isSpecial (c : N) : bool :=
  negb (isWordChar c || isWhiteSpace c || (N.leb 19968 c && N.leb c 40869)).

Definition extractKeywords (txt : jsstring) : list jsstring :=
  let words :=
    filter (fun word => (2 <? length word)%nat)
      (split isWhiteSpace
         (map (fun c => if isSpecial c then 32%N else c) (toLowerCase txt))) in
  dedupe words.

(** The body of [template.keywords.forEach]. *)
Definition keywordStep (emailKeywords : list jsstring) (emailText : jsstring)
    (st : Q * list jsstring) (keyword : jsstring) : Q * list jsstring :=
  let normalizedKeyword := toLowerCase keyword in
  let st :=
    if array_includes emailKeywords normalizedKeyword
    then (fst st + 2, snd st ++ [keyword])
    else st in
  if includes emailText normalizedKeyword
  then (fst st + 1,
        if array_includes (snd st) keyword then snd st else snd st ++ [keyword])
  else st.

(** [/[\s,，、]+/]. *)
Definition isScenarioSep (c : N) : bool :=
  isWhiteSpace c || N.eqb c 44 || N.eqb c 65292 || N.eqb c 12289.

(** The body of [scenarioWords.forEach]. *)
Definition scenarioStep (emailText : jsstring) (sc : Q) (word : jsstring) : Q :=
  if (2 <? length word)%nat && includes emailText word
  then sc + (1 # 2)
  else sc.

Definition calculateScore (tpl : Template) (emailKeywords : list jsstring)
    (emailText : jsstring) : Q * list jsstring :=
  let st := fold_left (keywordStep emailKeywords emailText) (keywords tpl) (0, []) in
  let scenarioWords := split isScenarioSep (toLowerCase (scenario tpl)) in
  (fold_left (scenarioStep emailText) scenarioWords (fst st), snd st).

(** [`${email.subject} ${email.text}`.toLowerCase()]. *)
Definition emailTextOf (email : ProcessedEmail) : jsstring :=
  toLowerCase (subject email ++ [32%N] ++ text email).

Definition scoreTemplate (email : ProcessedEmail) (tpl : Template) : TemplateMatch :=
  let emailText := emailTextOf email in
  let emailWords := extractKeywords emailText in
  let r := calculateScore tpl emailWords emailText in
  {| template := tpl; score := fst r; matchedKeywords := snd r |}.

(** [(a, b) => b.score - a.score]. *)
Definition byScoreDesc (a b : TemplateMatch) : Q := score b - score a.

Definition findBestMatches (r : t) (email : ProcessedEmail) (cat : jsstring)
    (limit : Z) : list TemplateMatch :=
  let candidates := getCandidates r cat in
  let matches := map (scoreTemplate email) candidates in
  slice0 (sort byScoreDesc (filter (fun m => (0 <? Qnum (score m))%Z) matches))
         limit.

(** The stop-words of the rules for European languages, in the order of
    the rules. *)
Definition germanWords : list jsstring :=
  [js "de"; js "der"; js "die"; js "das"; js "und"; js "ist"; js "nicht"].
Definition frenchWords : list jsstring :=
  [js "le"; js "la"; js "les"; js "un"; js "une"; js "est"; js "pas"; js "de"].
Definition spanishWords : list jsstring :=
  [js "el"; js "la"; js "los"; js "las"; js "un"; js "una"; js "es"; js "no";
   js "de"].
Definition portugueseWords : list jsstring :=
  [js "o"; js "a"; js "os"; js "as"; js "um"; js "uma"; js "não"; js "de"].
Definition italianWords : list jsstring :=
  [js "il"; js "lo"; js "la"; js "un"; js "una"; js "non"; js "di"].
Definition dutchWords : list jsstring :=
  [js "de"; js "het"; js "een"; js "is"; js "niet"; js "van"].

(** [detectLanguage]: scripts first, then stop-words, then English. *)
Definition detectLanguage (email : ProcessedEmail) : jsstring :=
  let txt := subject email ++ [32%N] ++ text email in
  if testClass [(19968, 40869)%N] txt then js "zh"
  else if testClass [(1536, 1791)%N] txt then js "ar"
  else if testClass [(3584, 3711)%N] txt then js "th"
  else if testClass [(12352, 12447)%N; (12448, 12543)%N] txt then js "ja"
  else if testClass [(44032, 55215)%N] txt then js "ko"
  else
    let lowerText := toLowerCase txt in
    if testWords None lowerText germanWords then js "de"
    else if testWords None lowerText frenchWords then js "fr"
    else if testWords None lowerText spanishWords then js "es"
    else if testWords None lowerText portugueseWords then js "pt"
    else if testWords None lowerText italianWords then js "it"
    else if testWords None lowerText dutchWords then js "nl"
    else js "en".

End WithLowerCase.
End TemplateRetriever.

(** ** Values produced by [JSON.parse] and the coercions applied to them *)

Inductive JSNumber :=
| NaN
| Finite (q : Q)
| Infinity (negative : bool).

Inductive JSON :=
| JNull
| JBool (b : bool)
| JNum (n : JSNumber)
| JStr (s : jsstring)
| JArr (items : list JSON)
| JObj (fields : list (jsstring * JSON)).

(** A JavaScript value that is either [undefined] ([None]) or came out of
    [JSON.parse]. *)
Definition JSValue := option JSON.

Record JSError := { name : jsstring; message : jsstring }.

Inductive Result (A : Type) :=
| Ok (a : A)
| Throw (e : JSError).
Arguments Ok {A} a.
Arguments Throw {A} e.

Definition TypeError (msg : jsstring) : JSError :=
  {| name := js "TypeError"; message := msg |}.
Definition SyntaxError (msg : jsstring) : JSError :=
  {| name := js "SyntaxError"; message := msg |}.
Definition Error (msg : jsstring) : JSError :=
  {| name := js "Error"; message := msg |}.

(** What the language and its standard library supply. *)
Record Host := {
  toLowerCase : jsstring -> jsstring;
  (** [JSON.parse]; [None] stands for the [SyntaxError] it throws. *)
  JSON_parse : jsstring -> option JSON;
  (** The conversion of a string to a number. *)
  StringToNumber : jsstring -> JSNumber;
  (** The conversion of a number to a string. *)
  NumberToString : JSNumber -> jsstring;
}.

Module Coerce.

(** [v.name] for a property name that no prototype defines: reading a
    property of [null] throws, a primitive or an array has no such
    property. *)
Definition getProp (v : JSON) (prop : jsstring) : Result JSValue :=
  match v with
  | JNull => Throw (TypeError (js "Cannot read properties of null"))
  | JObj fields => Ok (map_get fields prop)
  | _ => Ok None
  end.

(** The error of [OrdinaryToPrimitive] when neither [toString] nor
    [valueOf] gives a primitive. *)
Definition notPrimitive : JSError :=
  TypeError (js "Cannot convert object to primitive value").

(** [ToString] on a parsed value. An object that [JSON.parse] made has the
    [toString] of [Object.prototype] unless a field of its own hides it; such
    a field is never callable, [valueOf] gives back the object, and the
    conversion throws. An array is joined with commas, [null] items left
    empty. *)
Fixpoint ToStringJSON (h : Host) (v : JSON) {struct v} : Result jsstring :=
  match v with
  | JNull => Ok (js "null")
  | JBool b => Ok (if b then js "true" else js "false")
  | JNum n => Ok (NumberToString h n)
  | JStr s => Ok s
  | JArr items =>
    (fix joinItems (l : list JSON) : Result jsstring :=
       match l with
       | [] => Ok []
       | x :: l' =>
         match match x with JNull => Ok [] | _ => ToStringJSON h x end with
         | Throw e => Throw e
         | Ok s =>
           match l' with
           | [] => Ok s
           | _ :: _ =>
             match joinItems l' with
             | Ok r => Ok (s ++ js "," ++ r)
             | Throw e => Throw e
             end
           end
         end
       end) items
  | JObj fields =>
    if map_has fields (js "toString") then Throw notPrimitive
    else Ok (js "[object Object]")
  end.

(** [ToString], as a template literal applies it. *)
Definition ToString (h : Host) (v : JSValue) : Result jsstring :=
  match v with
  | None => Ok (js "undefined")
  | Some j => ToStringJSON h j
  end.

(** [ToNumber], as a comparison with a number applies it: an array goes
    through its string, an object without a [toString] of its own through
    [[object Object]], which is no number. *)
Definition ToNumber (h : Host) (v : JSValue) : Result JSNumber :=
  match v with
  | None => Ok NaN
  | Some JNull => Ok (Finite 0)
  | Some (JBool b) => Ok (Finite (if b then 1 else 0))
  | Some (JNum n) => Ok n
  | Some (JStr s) => Ok (StringToNumber h s)
  | Some (JArr items) =>
    match ToStringJSON h (JArr items) with
    | Ok s => Ok (StringToNumber h s)
    | Throw e => Throw e
    end
  | Some (JObj fields) =>
    if map_has fields (js "toString") then Throw notPrimitive else Ok NaN
  end.

(** [v !== null]. *)
Definition notNull (v : JSValue) : bool :=
  match v with Some JNull => false | _ => true end.

(** [x >= 0] on numbers. *)
Definition ge0 (x : JSNumber) : bool :=
  match x with
  | NaN => false
  | Finite q => Qle_bool 0 q
  | Infinity negative => negb negative
  end.

(** [x < n] for an array length [n]. *)
Definition ltLength (x : JSNumber) (n : nat) : bool :=
  match x with
  | NaN => false
  | Finite q => negb (Qle_bool (inject_Z (Z.of_nat n)) q)
  | Infinity negative => negative
  end.

(** [x] is a negative number. *)
Definition negative (x : JSNumber) : Prop :=
  match x with
  | NaN => False
  | Finite q => q < 0
  | Infinity neg => neg = true
  end.


Definition digit (c : N) : option nat :=
  if N.leb 48 c && N.leb c 57 then Some (N.to_nat (c - 48)) else None.

Fixpoint digits (acc : nat) (s : jsstring) : option nat :=
  match s with
  | [] => Some acc
  | c :: s' =>
    match digit c with
    | Some d => digits (10 * acc + d) s'
    | None => None
    end
  end.

(** A property key that is the canonical decimal form of an index. *)
Definition canonicalIndex (s : jsstring) : option nat :=
  match s with
  | [] => None
  | [48%N] => Some 0%nat
  | 48%N :: _ => None
  | _ => digits 0 s
  end.

(** The array index, if any, that the property key of [v] names; the
    conversion of [v] to a property key can throw. *)
Definition arrayIndex (h : Host) (v : JSValue) : Result (option nat) :=
  match v with
  | Some (JNum (Finite q)) =>
    let r := Qred q in
    Ok (if Pos.eqb (Qden r) 1 && (0 <=? Qnum r)%Z
        then Some (Z.to_nat (Qnum r)) else None)
  | Some (JStr s) => Ok (canonicalIndex s)
  | Some (JArr items) =>
    match ToStringJSON h (JArr items) with
    | Ok s => Ok (canonicalIndex s)
    | Throw e => Throw e
    end
  | Some (JObj fields) =>
    if map_has fields (js "toString") then Throw notPrimitive else Ok None
  | _ => Ok None
  end.

(** [arr[v]]; [None] is [undefined]. *)
Definition at_ {A} (h : Host) (arr : list A) (v : JSValue)
    : Result (option A) :=
  match arrayIndex h v with
  | Ok (Some i) => Ok (nth_error arr i)
  | Ok None => Ok None
  | Throw e => Throw e
  end.

End Coerce.

(** ** The chat-completion request and the network *)

Inductive Role := system | user | assistant.

Record ZhipuMessage := { role : Role; content : jsstring }.

Record ZhipuRequest := {
  model : jsstring;
  messages : list ZhipuMessage;
  temperature : Q;
  stream : bool;
}.

Record ZhipuResponse := {
  (** [message.content] of each choice; [None] when the field is missing. *)
  choices : option (list jsstring);
  usage : option (N * N * N);
}.

Record Response := {
  ok : bool;
  status : N;
  (** [await response.text()] *)
  body_text : Result jsstring;
  (** [await response.json()] *)
  body_json : Result ZhipuResponse;
}.

Inductive FetchOutcome :=
| Rejects (e : JSError)
| Resolves (r : Response).

(** The [n]-th call of [fetch] of a run, with its request. *)
Definition Network := nat -> ZhipuRequest -> FetchOutcome.

(** What a run does besides computing: [setTimeout(() => controller.abort(),
    ms)], [fetch] with the signal of a controller, [clearTimeout] of the
    timer of a controller, and a pause. *)
Inductive Event :=
| EvAbortTimer (controller : nat) (ms : N)
| EvFetch (authorization : jsstring) (req : ZhipuRequest) (signal : nat)
| EvClearTimer (controller : nat)
| EvSleep (ms : N).

Record World := { fetches : nat; trace : list Event }.

(** Computations that read the network, leave a trace and may throw. *)
Definition M (A : Type) := World -> Result A * World.

Definition ret {A} (a : A) : M A := fun w => (Ok a, w).
Definition throw {A} (e : JSError) : M A := fun w => (Throw e, w).
Definition bind {A B} (m : M A) (k : A -> M B) : M B :=
  fun w => match m w with
           | (Ok a, w') => k a w'
           | (Throw e, w') => (Throw e, w')
           end.
Definition try_catch {A} (body : M A) (handler : JSError -> M A) : M A :=
  fun w => match body w with
           | (Ok a, w') => (Ok a, w')
           | (Throw e, w') => handler e w'
           end.
Definition emit (ev : Event) : M unit :=
  fun w => (Ok tt, {| fetches := fetches w; trace := trace w ++ [ev] |}).
Definition lift {A} (r : Result A) : M A := fun w => (r, w).

Notation "x <- m ;; k" := (bind m (fun x => k))
  (at level 61, m at next level, right associativity).
Notation "m ;;; k" := (bind m (fun _ => k))
  (at level 61, right associativity).

(** ** [ZhipuAIService] *)

(** The [analysisResult] argument of [generateResponse]. *)
Module Analysis.
Record t := {
  category : option jsstring;
  intent : option jsstring;
  keywords : option (list jsstring);
  suggestedTemplate : option jsstring;
  language : option jsstring;
}.
End Analysis.

Record MatchedTemplate := {
  mt_id : jsstring;
  mt_scenario : jsstring;
  mt_score : Q;
}.

Record ResponseResult := {
  response : jsstring;
  language : jsstring;
  matchedTemplates : option (list MatchedTemplate);
}.

(** The result of [selectTemplateWithReasoning] when it is not [null]. *)
Record Selection := {
  sel_template : Template;
  sel_scenario : jsstring;
  sel_score : Q;
  sel_reasoning : JSValue;
}.

(** The wording of the prompts: template literals over their arguments. The
    oracle is free to answer anything, whatever the wording. *)
Record Prompts := {
  analysisPrompt : ProcessedEmail -> list jsstring -> jsstring;
  selectionPrompt :
    ProcessedEmail -> jsstring -> option jsstring -> option (list jsstring) ->
    option jsstring -> list TemplateMatch -> jsstring;
  personalizePrompt :
    Content -> ProcessedEmail -> jsstring -> option jsstring ->
    option (list jsstring) -> jsstring;
  systemPrompt : jsstring;
  userPrompt : ProcessedEmail -> jsstring -> jsstring;
}.

Module ZhipuAIService.

Record t := {
  apiKey : jsstring;
  templateRetriever : option TemplateRetriever.t;
}.

(** The categories offered to the oracle when no corpus is configured. *)
Definition defaultCategories : list jsstring :=
  [ js "充值与订阅"; js "退款相关"; js "技术问题"; js "账户与登录";
    js "内容与功能"; js "信息收集与跟进"; js "功能与活动";
    js "查询与状态确认"; js "问题解决与关闭" ].

(** The object [analyzeEmail] returns when the reply cannot be parsed. *)
Definition defaultAnalysis : JSON :=
  JObj [ (js "language", JStr (js "en"));
         (js "category", JStr (js "信息收集与跟进"));
         (js "intent", JStr (js "UNKNOWN"));
         (js "keywords", JArr []);
         (js "sentiment", JStr (js "neutral"));
         (js "priority", JStr (js "medium"));
         (js "isImportant", JBool true);
         (js "suggestedActions", JArr [JStr (js "Review manually")]);
         (js "reasoning", JStr (js "Failed to parse AI response")) ].

Definition fallbackReasoning : jsstring :=
  js "Fallback to highest scoring template due to selection error".

Definition fence : jsstring := js "```".
Definition fenceJson : jsstring := js "```json".

(** [s.replace(/\s*```$/, '')]. *)
Definition stripClosingFence (s : jsstring) : jsstring :=
  let r := rev s in
  if startsWith r fence then rev (trimStart (skipn 3 r)) else s.

(** The removal of a markdown code fence around the reply. *)
Definition stripCodeFence (cleanedResponse : jsstring) : jsstring :=
  if startsWith cleanedResponse fenceJson
  then stripClosingFence (trimStart (skipn 7 cleanedResponse))
  else if startsWith cleanedResponse fence
  then stripClosingFence (trimStart (skipn 3 cleanedResponse))
  else cleanedResponse.

Definition decimal (n : N) : jsstring :=
  js (DecimalString.NilZero.string_of_uint (N.to_uint n)).

(** [error.name === 'AbortError' || error.name === 'TimeoutError']. *)
Definition isTimeout (error : JSError) : bool :=
  str_eqb (name error) (js "AbortError")
  || str_eqb (name error) (js "TimeoutError").

(** The message the manual-review outcome returns. *)
Definition manualReviewMessage (email : ProcessedEmail) (cat : jsstring)
    (intent : option jsstring) (keywords : option (list jsstring)) : jsstring :=
  js "📝 需要人工审核" ++ newline ++ newline
  ++ js "该邮件已被分析为" ++ dquote ++ cat ++ dquote
  ++ js "类别，意图为" ++ dquote
  ++ match intent with Some i => i | None => js "undefined" end
  ++ dquote ++ js "，但未找到合适的预设模板。" ++ newline ++ newline
  ++ js "邮件信息：" ++ newline
  ++ js "- 发件人: " ++ from_address email ++ newline
  ++ js "- 主题: " ++ subject email ++ newline
  ++ js "- 关键问题: "
  ++ match keywords with
     | Some ks => match join (js ", ") ks with [] => js "无" | s => s end
     | None => js "无"
     end
  ++ newline ++ newline ++ js "请人工审核并提供适当的回复。".

Section WithHost.

Variable host : Host.
Variable prompts : Prompts.
Variable net : Network.

Definition fetch (authorization : jsstring) (req : ZhipuRequest)
    (signal : nat) : M Response :=
  fun w =>
    let w' := {| fetches := S (fetches w);
                 trace := trace w ++ [EvFetch authorization req signal] |} in
    match net (fetches w) req with
    | Rejects e => (Throw e, w')
    | Resolves r => (Ok r, w')
    end.

(** [new AbortController()]: every attempt makes its own, named here by the
    number of the request it guards. *)
Definition newAbortController : M nat := fun w => (Ok (fetches w), w).

(** The body of the [try] block of [chat]: one request under an abort
    timer. *)
Definition attemptOnce (svc : t) (request : ZhipuRequest) : M jsstring :=
  controller <- newAbortController ;;
  emit (EvAbortTimer controller 90000) ;;;
  response <- fetch (js "Bearer " ++ apiKey svc) request controller ;;
  emit (EvClearTimer controller) ;;;
  if negb (ok response) then
    error <- lift (body_text response) ;;
    throw (Error (js "Zhipu AI API error: " ++ decimal (status response)
                  ++ js " - " ++ error))
  else
    data <- lift (body_json response) ;;
    match choices data with
    | Some (first :: _) => ret first
    | _ => throw (Error (js "No response from Zhipu AI"))
    end.

(** The [for] loop of [chat]; [remaining] counts the iterations that
    [attempt <= retries] still allows. *)
Fixpoint chatLoop (svc : t) (request : ZhipuRequest) (retries attempt : nat)
    (remaining : nat) : M jsstring :=
  match remaining with
  | O => throw (Error (js "Failed after all retries"))
  | S remaining' =>
    try_catch (attemptOnce svc request)
      (fun error =>
         if (attempt <? retries)%nat && isTimeout error then
           emit (EvSleep 2000) ;;;
           chatLoop svc request retries (S attempt) remaining'
         else throw error)
  end.

Definition chat (svc : t) (msgs : list ZhipuMessage) (temp : Q)
    (retries : nat) : M jsstring :=
  let request :=
    {| model := js "glm-4.6"; messages := msgs; temperature := temp;
       stream := false |} in
  chatLoop svc request retries 0 (S retries).

Definition defaultTemperature : Q := 7 # 10.
Definition defaultRetries : nat := 2.

Definition parseJSON (s : jsstring) : M JSON :=
  match JSON_parse host s with
  | Some v => ret v
  | None => throw (SyntaxError (js "Unexpected token"))
  end.

(** The outcome and the events of the attempt that makes the [i]-th call of
    [fetch]. *)
Definition attemptResult (svc : t) (request : ZhipuRequest) (i : nat)
    : Result jsstring :=
  fst (attemptOnce svc request {| fetches := i; trace := [] |}).

Definition attemptTrace (svc : t) (request : ZhipuRequest) (i : nat)
    : list Event :=
  trace (snd (attemptOnce svc request {| fetches := i; trace := [] |})).

(** The events of [k] successive attempts from fetch [i] on, with the pause
    before each retry. *)
Fixpoint retryTrace (svc : t) (request : ZhipuRequest) (i k : nat)
    : list Event :=
  match k with
  | O => []
  | S O => attemptTrace svc request i
  | S k' =>
    attemptTrace svc request i ++ [EvSleep 2000]
    ++ retryTrace svc request (S i) k'
  end.

(** The single message [analyzeEmail] sends. *)
Definition analysisMessages (svc : t) (email : ProcessedEmail)
    : list ZhipuMessage :=
  let availableCategories :=
    match templateRetriever svc with
    | Some r => TemplateRetriever.getCategories r
    | None => defaultCategories
    end in
  let prompt := analysisPrompt prompts email availableCategories in
  [{| role := user; content := prompt |}].

Definition analyzeEmail (svc : t) (email : ProcessedEmail) : M JSON :=
  response <- chat svc (analysisMessages svc email)
                   defaultTemperature defaultRetries ;;
  try_catch
    (let cleanedResponse := stripCodeFence (trim response) in
     parseJSON cleanedResponse)
    (fun _ => ret defaultAnalysis).

(** The three conjuncts that guard [allMatches[decision.selectedIndex]],
    evaluated from the left; each comparison converts the index to a
    number, which can throw. *)
Definition indexInRange (selectedIndex : JSValue) (len : nat) : Result bool :=
  if Coerce.notNull selectedIndex then
    match Coerce.ToNumber host selectedIndex with
    | Throw e => Throw e
    | Ok x =>
      if Coerce.ge0 x then
        match Coerce.ToNumber host selectedIndex with
        | Throw e => Throw e
        | Ok y => Ok (Coerce.ltLength y len)
        end
      else Ok false
    end
  else Ok false.

(** The single message [selectTemplateWithReasoning] sends. *)
Definition selectionMessages (email : ProcessedEmail) (cat : jsstring)
    (intent : option jsstring) (keywords : option (list jsstring))
    (suggestedTemplate : option jsstring) (allMatches : list TemplateMatch)
    : list ZhipuMessage :=
  let prompt :=
    selectionPrompt prompts email cat intent keywords suggestedTemplate
                    allMatches in
  [{| role := user; content := prompt |}].

Definition selectTemplateWithReasoning (svc : t) (r : TemplateRetriever.t)
    (email : ProcessedEmail) (cat : jsstring) (intent : option jsstring)
    (keywords : option (list jsstring)) (suggestedTemplate : option jsstring)
    : M (option Selection) :=
  let allMatches :=
    TemplateRetriever.findBestMatches (toLowerCase host) r email cat 10 in
  match allMatches with
  | [] => ret None
  | first :: _ =>
    try_catch
      (response <- chat svc
                     (selectionMessages email cat intent keywords
                                        suggestedTemplate allMatches)
                     (3 # 10) defaultRetries ;;
       let cleanedResponse := stripCodeFence (trim response) in
       decision <- parseJSON cleanedResponse ;;
       selectedIndex <- lift (Coerce.getProp decision (js "selectedIndex")) ;;
       inRange <- lift (indexInRange selectedIndex (length allMatches)) ;;
       if inRange then
         selected <- lift (Coerce.at_ host allMatches selectedIndex) ;;
         match selected with
         | Some selected =>
           reasoning <- lift (Coerce.getProp decision (js "reasoning")) ;;
           ret (Some {| sel_template := template selected;
                        sel_scenario := scenario (template selected);
                        sel_score := score selected;
                        sel_reasoning := reasoning |})
         | None =>
           throw (TypeError (js "Cannot read properties of undefined"))
         end
       else
         reasoning <- lift (Coerce.getProp decision (js "reasoning")) ;;
         (* the log line converts the reasoning to a string *)
         lift (Coerce.ToString host reasoning) ;;;
         ret None)
      (fun _ =>
         let fallback := first in
         ret (Some {| sel_template := template fallback;
                      sel_scenario := scenario (template fallback);
                      sel_score := score fallback;
                      sel_reasoning := Some (JStr fallbackReasoning) |}))
  end.

Definition personalizeTemplate (svc : t) (templateContent : Content)
    (email : ProcessedEmail) (lang : jsstring) (intent : option jsstring)
    (keywords : option (list jsstring)) : M jsstring :=
  let prompt := personalizePrompt prompts templateContent email lang intent
                                  keywords in
  response <- chat svc [{| role := user; content := prompt |}] (3 # 10)
                   defaultRetries ;;
  ret (trim response).

(** [language || 'en']. *)
Definition detectedLanguageOf (analysisResult : Analysis.t) : jsstring :=
  match Analysis.language analysisResult with
  | Some ((_ :: _) as l) => l
  | _ => js "en"
  end.

Definition generateResponse (svc : t) (email : ProcessedEmail)
    (analysisResult : Analysis.t) (useTemplates : bool) : M ResponseResult :=
  let matchedTemplates : list MatchedTemplate := [] in
  let detectedLanguage := detectedLanguageOf analysisResult in
  let freeForm :=
    response <- chat svc
                  [ {| role := system; content := systemPrompt prompts |};
                    {| role := user;
                       content := userPrompt prompts email detectedLanguage |} ]
                  defaultTemperature defaultRetries ;;
    ret {| response := response; language := detectedLanguage;
           matchedTemplates :=
             match matchedTemplates with
             | [] => None
             | _ => Some matchedTemplates
             end |} in
  match useTemplates, templateRetriever svc, Analysis.category analysisResult with
  | true, Some r, Some ((_ :: _) as cat) =>
    selectedTemplate <-
      selectTemplateWithReasoning svc r email cat
        (Analysis.intent analysisResult) (Analysis.keywords analysisResult)
        (Analysis.suggestedTemplate analysisResult) ;;
    match selectedTemplate with
    | Some selected =>
      (* the log line converts the reasoning to a string *)
      lift (Coerce.ToString host (sel_reasoning selected)) ;;;
      let templateContent :=
        TemplateRetriever.getTemplateContent (sel_template selected)
                                             detectedLanguage in
      let matchedTemplates :=
        matchedTemplates
          ++ [{| mt_id := id (sel_template selected);
                 mt_scenario := scenario (sel_template selected);
                 mt_score := sel_score selected |}] in
      personalizedResponse <-
        personalizeTemplate svc templateContent email detectedLanguage
          (Analysis.intent analysisResult) (Analysis.keywords analysisResult) ;;
      ret {| response := personalizedResponse; language := detectedLanguage;
             matchedTemplates := Some matchedTemplates |}
    | None =>
      ret {| response :=
               manualReviewMessage email cat (Analysis.intent analysisResult)
                                   (Analysis.keywords analysisResult);
             language := detectedLanguage;
             matchedTemplates := None |}
    end
  | _, _, _ => freeForm
  end.

(** The single message [translateToChinese] sends. *)
Definition translationMessages (txt : jsstring) : list ZhipuMessage :=
  [{| role := user;
      content :=
        js "Translate the following customer support email to Chinese. Keep the translation natural and professional. Only output the translation, no explanations."
        ++ newline ++ newline ++ js "Text to translate:" ++ newline ++ txt |}].

Definition translateToChinese (svc : t) (txt : jsstring) : M jsstring :=
  try_catch (chat svc (translationMessages txt) (3 # 10) defaultRetries)
            (fun _ => ret (js "[Translation failed]")).

(** The single message the oracle-based [detectLanguage] sends. *)
Definition languageMessages (email : ProcessedEmail) : list ZhipuMessage :=
  [{| role := user;
      content :=
        js "Detect the primary language of this email. Reply with ONLY the two-letter ISO 639-1 language code (e.g., "
        ++ dquote ++ js "en" ++ dquote ++ js ", "
        ++ dquote ++ js "zh" ++ dquote ++ js ", "
        ++ dquote ++ js "es" ++ dquote ++ js ", "
        ++ dquote ++ js "pt" ++ dquote ++ js ", "
        ++ dquote ++ js "fr" ++ dquote ++ js ", etc.)."
        ++ newline ++ newline
        ++ js "Subject: " ++ subject email ++ newline
        ++ js "Content: " ++ firstn 500 (text email) ++ newline ++ newline
        ++ js "Language code:" |}].

(** [response.trim().toLowerCase().match(/^[a-z]{2}/)?.[0] || 'en']. *)
Definition languageCodeOf (response : jsstring) : jsstring :=
  match toLowerCase host (trim response) with
  | a :: b :: _ =>
    if inRanges [(97, 122)%N] a && inRanges [(97, 122)%N] b
    then [a; b] else js "en"
  | _ => js "en"
  end.

Definition detectLanguage (svc : t) (email : ProcessedEmail) : M jsstring :=
  response <- chat svc (languageMessages email) (1 # 10) defaultRetries ;;
  ret (languageCodeOf response).

End WithHost.
End ZhipuAIService.

(** ** The batch driver

    The parts of [main] that decide what is sent and what is marked: the
    masking of addresses in the log, the subject and the references of a
    reply, the batches the emails are processed in and the final tally. *)

Module Driver.

Section WithLowerCase.
Variable toLowerCase : jsstring -> jsstring.

(** [senderBlacklist.includes(email.from.address.toLowerCase())]. *)
Definition senderBlacklist : list jsstring :=
  [js "feedback@dailymotion.com"; js "noreply@dailymotion.com"].

Definition isBlacklisted (email : ProcessedEmail) : bool :=
  array_includes senderBlacklist (toLowerCase (from_address email)).

(** [maskEmail]. *)
Definition maskEmail (redactPII : bool) (addr : jsstring) : jsstring :=
  if negb redactPII then addr
  else
    match splitOn 64 addr with
    | localPart :: ((_ :: _) as domain) :: _ =>
      firstn 2 localPart ++ js "***@" ++ domain
    | _ => js "***"
    end.

(** The subject of the reply. *)
Definition replySubject (subj : jsstring) : jsstring :=
  if startsWith (toLowerCase subj) (js "re:") then subj
  else js "Re: " ++ subj.

(** The value of a header: one string or an array of strings. *)
Inductive HeaderValue :=
| One (v : jsstring)
| Many (vs : list jsstring).

(** The [References] of the reply, from the headers and the message id of
    the email. *)
Definition replyReferences (headers : list (jsstring * HeaderValue))
    (messageId : jsstring) : list jsstring :=
  let referencesHeaderEntry :=
    find (fun entry => str_eqb (toLowerCase (fst entry)) (js "references"))
         headers in
  let references :=
    match referencesHeaderEntry with
    | Some (_, Many vs) => vs
    | Some (_, One ((_ :: _) as v)) => [v]
    | _ => []
    end in
  match messageId with
  | _ :: _ =>
    if array_includes references messageId then references
    else references ++ [messageId]
  | [] => references
  end.

End WithLowerCase.

Definition CONCURRENCY_LIMIT : nat := 3.

(** [arr.slice(i, j)] for indices within the usual range. *)
Definition slice {A} (l : list A) (i j : nat) : list A :=
  firstn (j - i) (skipn i l).

(** The loop over the batches: each round takes the next
    [CONCURRENCY_LIMIT] emails and, when more remain, waits. [rounds] bounds
    the number of iterations. *)
Fixpoint batchLoop {A} (rounds : nat) (i : nat) (emails : list A)
    : list (list A * bool) :=
  match rounds with
  | O => []
  | S rounds' =>
    if (i <? length emails)%nat then
      (slice emails i (i + CONCURRENCY_LIMIT),
       (i + CONCURRENCY_LIMIT <? length emails)%nat)
        :: batchLoop rounds' (i + CONCURRENCY_LIMIT) emails
    else []
  end.

(** The loop of [main], which needs at most one round per email. *)
Definition batches {A} (emails : list A) : list (list A * bool) :=
  batchLoop (length emails) 0 emails.

(** What [processEmail] returns. *)
Inductive Outcome :=
| skipped (uid : N)
| processed (uid : N) (messageId : option jsstring)
| error (uid : N).

Record Tally := {
  processedCount : nat;
  draftsSaved : nat;
  skippedCount : nat;
  uidsToMarkAsRead : list N;
}.

(** The body of the loop that collects the statistics. *)
Definition tallyStep (tl : Tally) (result : Outcome) : Tally :=
  match result with
  | skipped u =>
    {| processedCount := processedCount tl;
       draftsSaved := draftsSaved tl;
       skippedCount := S (skippedCount tl);
       uidsToMarkAsRead := uidsToMarkAsRead tl ++ [u] |}
  | processed u messageId =>
    {| processedCount := S (processedCount tl);
       draftsSaved :=
         match messageId with
         | Some (_ :: _) => S (draftsSaved tl)
         | _ => draftsSaved tl
         end;
       skippedCount := skippedCount tl;
       uidsToMarkAsRead := uidsToMarkAsRead tl ++ [u] |}
  | error _ => tl
  end.

Definition tally (results : list Outcome) : Tally :=
  fold_left tallyStep results
    {| processedCount := 0; draftsSaved := 0; skippedCount := 0;
       uidsToMarkAsRead := [] |}.

Definition uidOf (result : Outcome) : N :=
  match result with
  | skipped u => u
  | processed u _ => u
  | error u => u
  end.

End Driver.

(** ** A small corpus, an email and a scripted oracle, for examples *)

Module Demo.

Definition refundTemplate : Template :=
  {| id := js "T1"; category := js "退款相关"; scenario := js "用户申请退款";
     keywords := [js "refund"; js "退款"];
     languages := [(js "en", js "We have received your refund request.")] |}.

Definition playbackTemplate : Template :=
  {| id := js "T2"; category := js "技术问题"; scenario := js "无法播放";
     keywords := [js "crash"; js "播放"];
     languages := [(js "en", js "Please update the app.")] |}.

Definition orderTemplate : Template :=
  {| id := js "T3"; category := js "退款相关"; scenario := js "order status";
     keywords := [js "Order"];
     languages := [(js "en", js "Your order is on its way.")] |}.

Definition corpus : list Template :=
  [refundTemplate; playbackTemplate; orderTemplate].

Definition email : ProcessedEmail :=
  {| uid := 1; from_address := js "user@example.com"; subject := js "Help";
     text := js "I want a refund for my order";
     deviceInfo := None; appVersion := None; orderId := None; userId := None |}.

Definition analysis : Analysis.t :=
  {| Analysis.category := Some (js "退款相关");
     Analysis.intent := Some (js "REFUND_REQUEST");
     Analysis.keywords := Some [js "refund"];
     Analysis.suggestedTemplate := None;
     Analysis.language := Some (js "en") |}.

Definition replyNull : jsstring :=
  js "{" ++ dquote ++ js "selectedIndex" ++ dquote ++ js ": null}".
Definition replyMinusOne : jsstring :=
  js "{" ++ dquote ++ js "selectedIndex" ++ dquote ++ js ": -1}".
Definition replyGarbage : jsstring := js "Sorry, I cannot decide.".

(** A parser that knows the replies above and rejects everything else. *)
Definition parse (s : jsstring) : option JSON :=
  if str_eqb s replyNull then Some (JObj [(js "selectedIndex", JNull)])
  else if str_eqb s replyMinusOne
  then Some (JObj [(js "selectedIndex", JNum (Finite (-1)))])
  else None.

(** The decimal form of a whole number; the examples convert no other
    number to a string. *)
Definition numberText (n : JSNumber) : jsstring :=
  match n with
  | NaN => js "NaN"
  | Infinity negative => if negative then js "-Infinity" else js "Infinity"
  | Finite q =>
    if (Qnum q <? 0)%Z then js "-" ++ ZhipuAIService.decimal (Z.to_N (- Qnum q))
    else ZhipuAIService.decimal (Z.to_N (Qnum q))
  end.

Definition host : Host :=
  {| toLowerCase := asciiLower;
     JSON_parse := parse;
     StringToNumber := fun _ => NaN;
     NumberToString := numberText |}.

(** The text a template literal makes of a template content. *)
Definition contentText (content : Content) : jsstring :=
  match content with
  | Text s => s
  | Inherited member =>
    if str_eqb member (js "__proto__") then js "[object Object]"
    else js "function " ++ member ++ js "() { [native code] }"
  end.

Definition prompts : Prompts :=
  {| analysisPrompt := fun e _ => text e;
     selectionPrompt := fun e _ _ _ _ _ => text e;
     personalizePrompt := fun content _ _ _ _ => contentText content;
     systemPrompt := js "You are a helpful customer support assistant";
     userPrompt := fun e _ => text e |}.

(** A network on which the [i]-th request is answered by the [i]-th of the
    given replies, and fails once they are used up. *)
Definition scripted (replies : list jsstring) : Network :=
  fun i _ =>
    match nth_error replies i with
    | Some reply =>
      Resolves {| ok := true; status := 200; body_text := Ok reply;
                  body_json := Ok {| choices := Some [reply];
                                     usage := None |} |}
    | None => Rejects (TypeError (js "fetch failed"))
    end.

Definition abortError : JSError :=
  {| name := js "AbortError"; message := js "This operation was aborted" |}.

(** A network that times out [failures] times before it answers. *)
Definition flaky (failures : nat) (reply : jsstring) : Network :=
  fun i req => if (i <? failures)%nat then Rejects abortError
               else scripted [reply] 0%nat req.

(** A network that answers every request with status 500. *)
Definition failing : Network :=
  fun _ _ =>
    Resolves {| ok := false; status := 500; body_text := Ok (js "busy");
                body_json := Throw (SyntaxError (js "Unexpected token")) |}.

(** A second template with the keywords of the first. *)
Definition refundTwin : Template :=
  {| id := js "T4"; category := js "退款相关"; scenario := js "重复扣款";
     keywords := [js "refund"];
     languages := [(js "en", js "We are checking the duplicate charge.")] |}.

(** A template whose scenario is written with capitals. *)
Definition capitalTemplate : Template :=
  {| id := js "T5"; category := js "退款相关"; scenario := js "Refund Request";
     keywords := []; languages := [] |}.

Definition replyJsonNull : jsstring := js "null".

(** [parse], which also reads the literal [null]. *)
Definition parseWithNull (s : jsstring) : option JSON :=
  if str_eqb s replyJsonNull then Some JNull else parse s.

Definition retriever : TemplateRetriever.t :=
  TemplateRetriever.new asciiLower corpus.

Definition service : ZhipuAIService.t :=
  {| ZhipuAIService.apiKey := js "key";
     ZhipuAIService.templateRetriever := Some retriever |}.

Definition start : World := {| fetches := 0; trace := [] |}.

(** The two candidates the retriever finds for the email, best first. *)
Definition best : TemplateMatch :=
  Eval vm_compute in TemplateRetriever.scoreTemplate asciiLower email orderTemplate.
Definition runnerUp : TemplateMatch :=
  Eval vm_compute in TemplateRetriever.scoreTemplate asciiLower email refundTemplate.

(** Replies that select by a whole and by a fractional index, with the
    parser that reads them. *)
Definition replyOne : jsstring :=
  js "{" ++ dquote ++ js "selectedIndex" ++ dquote ++ js ": 1, "
  ++ dquote ++ js "reasoning" ++ dquote ++ js ": "
  ++ dquote ++ js "asks for a refund" ++ dquote ++ js "}".
Definition replyHalf : jsstring :=
  js "{" ++ dquote ++ js "selectedIndex" ++ dquote ++ js ": 0.5}".

Definition parseIndex (s : jsstring) : option JSON :=
  if str_eqb s replyOne
  then Some (JObj [(js "selectedIndex", JNum (Finite 1));
                   (js "reasoning", JStr (js "asks for a refund"))])
  else if str_eqb s replyHalf
  then Some (JObj [(js "selectedIndex", JNum (Finite (1 # 2)))])
  else parse s.

Definition hostIndex : Host :=
  {| toLowerCase := asciiLower;
     JSON_parse := parseIndex;
     StringToNumber := fun _ => NaN;
     NumberToString := numberText |}.




(** A service whose corpus has nothing for [email]. *)
Definition playbackService : ZhipuAIService.t :=
  {| ZhipuAIService.apiKey := js "key";
     ZhipuAIService.templateRetriever :=
       Some (TemplateRetriever.new asciiLower [playbackTemplate]) |}.

End Demo.

(** ** Notions used in the statements and proofs *)

(** A piece of a split string: it occurs in the string and holds no
    separator. *)
Definition piece_ok (sep : N -> bool) (s v : jsstring) : Prop :=
  includes s v = true /\ Forall (fun c => sep c = false) v.

(** The comparator [(a, b) => key(b) - key(a)]. *)
Definition byKeyDesc {A} (key : A -> Q) (a b : A) : Q := key b - key a.
Arguments byKeyDesc : simpl never.

Definition descending {A} (key : A -> Q) (a b : A) : Prop := key b <= key a.

(** Stability: entries with equal keys keep the order of the input. *)
Definition onTies {A} (key : A -> Q) (R : A -> A -> Prop) (x y : A) : Prop :=
  key x == key y -> R x y.

(** The entries whose key equals [c]. *)
Definition withKey {A} (key : A -> Q) (c : Q) (l : list A) : list A :=
  filter (fun x => Qeq_bool (key x) c) l.

Definition inCategory (k : jsstring) (tpl : Template) : bool :=
  str_eqb (category tpl) k.

(** The category half of [buildIndexes]. *)
Definition categoryFold (index : Map (list Template)) (tpls : list Template)
    : Map (list Template) :=
  fold_left
    (fun cidx tpl => TemplateRetriever.index_push cidx (category tpl) tpl)
    tpls index.

(** The index after the templates [done] have been visited: every key is
    listed once and maps to the visited templates of that category, in the
    order of the visit. *)
Definition indexed (index : Map (list Template)) (done : list Template) : Prop :=
  NoDup (map_keys index)
  /\ forall k, map_get index k =
               match filter (inCategory k) done with
               | [] => None
               | l => Some l
               end.

(** What one keyword adds to the score. *)
Definition keywordBonus (lower : jsstring -> jsstring)
    (emailKeywords : list jsstring) (emailText : jsstring)
    (keyword : jsstring) : Q :=
  (if array_includes emailKeywords (lower keyword) then 2 else 0)
  + (if includes emailText (lower keyword) then 1 else 0).

(** The replacement [extractKeywords] applies to each code unit. *)
Definition blank (c : N) : N :=
  if TemplateRetriever.isSpecial c then 32%N else c.

(** A list with the positions of its entries, counted from [start]. *)
Fixpoint tagFrom {A} (start : nat) (l : list A) : list (nat * A) :=
  match l with
  | [] => []
  | a :: l' => (start, a) :: tagFrom (S start) l'
  end.

Definition hasScore (m : TemplateMatch) : bool := (0 <? Qnum (score m))%Z.

(** The pipeline of [findBestMatches] after the choice of candidates, and
    the same pipeline on candidates that carry their corpus position. *)
Definition rank (lower : jsstring -> jsstring) (email : ProcessedEmail)
    (n : nat) (candidates : list Template) : list TemplateMatch :=
  firstn n
    (sort TemplateRetriever.byScoreDesc
       (filter hasScore
          (map (TemplateRetriever.scoreTemplate lower email) candidates))).

Definition rankTagged (lower : jsstring -> jsstring) (email : ProcessedEmail)
    (n : nat) (p : Template -> bool) (tagged : list (nat * Template))
    : list (nat * TemplateMatch) :=
  firstn n
    (sort (byKeyDesc (fun x => score (snd x)))
       (filter (fun x => hasScore (snd x))
          (map (fun x => (fst x, TemplateRetriever.scoreTemplate lower email (snd x)))
             (filter (fun x => p (snd x)) tagged)))).

(** [Some l] for a non-empty array, as an entry of an index. *)
Definition optNonEmpty {A} (l : list A) : option (list A) :=
  match l with
  | [] => None
  | _ => Some l
  end.

(** The pushes a template makes to the entry [k] of the keyword index: one
    for each of its keywords that lower-cases to [k]. *)
Definition keywordHits (lower : jsstring -> jsstring) (k : jsstring)
    (tpl : Template) : list Template :=
  map (fun _ => tpl) (filter (fun kw => str_eqb (lower kw) k) (keywords tpl)).

(** The keyword half of [buildIndexes]. *)
Definition keywordFold (lower : jsstring -> jsstring)
    (index : Map (list Template)) (tpls : list Template)
    : Map (list Template) :=
  fold_left
    (fun kidx tpl =>
       fold_left
         (fun kidx keyword =>
            TemplateRetriever.index_push kidx (lower keyword) tpl)
         (keywords tpl) kidx)
    tpls index.

(** A code unit [extractKeywords] keeps inside a token: a word character or
    a CJK ideograph. *)
Definition isTokenChar (c : N) : bool :=
  isWordChar c || (N.leb 19968 c && N.leb c 40869).

(** The outcomes whose email is marked as read, and the outcomes that
    count as processed, as skipped and as a saved draft. *)
Definition isMarked (result : Driver.Outcome) : bool :=
  match result with Driver.error _ => false | _ => true end.

Definition isProcessed (result : Driver.Outcome) : bool :=
  match result with Driver.processed _ _ => true | _ => false end.

Definition isSkipped (result : Driver.Outcome) : bool :=
  match result with Driver.skipped _ => true | _ => false end.

Definition hasDraft (result : Driver.Outcome) : bool :=
  match result with Driver.processed _ (Some (_ :: _)) => true | _ => false end.

(** * Properties *)

(** ** Strings, arrays and maps *)

Lemma str_eqb_eq (a b : jsstring) : str_eqb a b = true <-> a = b.
Proof.
  revert b; induction a as [|x a IH]; intros [|y b]; simpl; split;
    try congruence; try reflexivity.
  - intros H. apply andb_true_iff in H as [Hx Hab].
    apply N.eqb_eq in Hx. apply IH in Hab. congruence.
  - intros H. injection H as -> ->.
    rewrite N.eqb_refl. simpl. now apply IH.
Qed.

Lemma str_eqb_refl (a : jsstring) : str_eqb a a = true.
Proof. now apply str_eqb_eq. Qed.

Lemma str_eqb_neq (a b : jsstring) : str_eqb a b = false <-> a <> b.
Proof.
  split.
  - intros H E. apply str_eqb_eq in E. congruence.
  - intros H. destruct (str_eqb a b) eqn:E; [|reflexivity].
    apply str_eqb_eq in E. contradiction.
Qed.

Lemma array_includes_In (l : list jsstring) (x : jsstring) :
  array_includes l x = true <-> In x l.
Proof.
  unfold array_includes. rewrite existsb_exists. split.
  - intros (y & Hy & E). apply str_eqb_eq in E. now subst.
  - intros H. exists x. split; [assumption | apply str_eqb_refl].
Qed.

Lemma array_includes_false (l : list jsstring) (x : jsstring) :
  ~ In x l -> array_includes l x = false.
Proof.
  intros H. destruct (array_includes l x) eqn:E; [|reflexivity].
  apply array_includes_In in E. contradiction.
Qed.

Lemma startsWith_app (s p : jsstring) :
  startsWith s p = true <-> exists post, s = p ++ post.
Proof.
  revert s; induction p as [|x p IH]; intros s; simpl.
  - split; [intros _; now exists s | intros _; now destruct s].
  - destruct s as [|y s].
    + split; [discriminate | intros (post & H); discriminate].
    + simpl. rewrite andb_true_iff, N.eqb_eq, IH. split.
      * intros (-> & post & ->). now exists post.
      * intros (post & H). injection H as -> ->. split; [reflexivity|now exists post].
Qed.

Lemma includes_unfold (s sub : jsstring) :
  includes s sub =
  startsWith s sub || match s with [] => false | _ :: s' => includes s' sub end.
Proof. now destruct s. Qed.

Lemma includes_app (s sub : jsstring) :
  includes s sub = true <-> exists pre post, s = pre ++ sub ++ post.
Proof.
  induction s as [|c s IH]; rewrite includes_unfold.
  - rewrite orb_false_r, startsWith_app. split.
    + intros (post & H). now exists [], post.
    + intros (pre & post & H). symmetry in H.
      apply app_eq_nil in H as [-> H]. now exists post.
  - rewrite orb_true_iff, startsWith_app, IH. split.
    + intros [(post & H) | (pre & post & H)].
      * now exists [], post.
      * exists (c :: pre), post. simpl. now rewrite H.
    + intros (pre & post & H). destruct pre as [|c' pre].
      * left. now exists post.
      * right. injection H as _ H. now exists pre, post.
Qed.

Lemma includes_empty (s : jsstring) : includes s [] = true.
Proof. apply includes_app. now exists [], s. Qed.

(** Every piece of [split] lies in the string and holds no separator. *)
Lemma split_unfold (sep : N -> bool) (c : N) (s : jsstring) :
  split sep (c :: s) =
  if sep c then
    match s with
    | c' :: _ => if sep c' then split sep s else [] :: split sep s
    | [] => [] :: split sep s
    end
  else
    match split sep s with
    | w :: ws => (c :: w) :: ws
    | [] => [[c]]
    end.
Proof. reflexivity. Qed.

Lemma split_sep_head (sep : N -> bool) (s : jsstring) (c : N) :
  sep c = true -> exists ws, split sep (c :: s) = [] :: ws.
Proof.
  revert c; induction s as [|c' s IH]; intros c Hc; rewrite split_unfold, Hc.
  - now eexists.
  - destruct (sep c') eqn:Hc'; [now apply IH | now eexists].
Qed.

Lemma piece_ok_cons (sep : N -> bool) (c : N) (s v : jsstring) :
  piece_ok sep s v -> piece_ok sep (c :: s) v.
Proof.
  intros [Hv Hv']. split; [|assumption].
  apply includes_app in Hv as (pre & post & Hv).
  apply includes_app. exists (c :: pre), post. simpl. now rewrite Hv.
Qed.

Lemma split_pieces (sep : N -> bool) (s : jsstring) :
  exists w ws, split sep s = w :: ws
    /\ (exists post, s = w ++ post) /\ Forall (fun c => sep c = false) w
    /\ Forall (piece_ok sep s) ws.
Proof.
  induction s as [|c s IH].
  - exists [], []. repeat split; [now exists [] | constructor | constructor].
  - destruct IH as (w & ws & E & (post & Hs) & Hw & Hws).
    assert (Htail : Forall (piece_ok sep (c :: s)) (w :: ws)).
    { constructor.
      - split; [|assumption]. apply includes_app. exists [c], post.
        simpl. now rewrite Hs at 1.
      - eapply Forall_impl; [|exact Hws]. intros v. apply piece_ok_cons. }
    rewrite split_unfold. destruct (sep c) eqn:Hc.
    + destruct s as [|c' s'].
      * exists [], (w :: ws). rewrite E.
        repeat split; [now exists [c] | constructor | assumption].
      * destruct (sep c') eqn:Hc'.
        -- destruct (split_sep_head sep s' c' Hc') as (ws' & E').
           rewrite E' in E. injection E as <- <-.
           exists [], ws'. rewrite E'. repeat split.
           ++ now exists (c :: c' :: s').
           ++ constructor.
           ++ now inversion Htail.
        -- exists [], (w :: ws). rewrite E.
           repeat split; [now exists (c :: c' :: s') | constructor | assumption].
    + rewrite E. exists (c :: w), ws. repeat split.
      * exists post. simpl. now rewrite Hs at 1.
      * now constructor.
      * now inversion Htail.
Qed.

Lemma split_In (sep : N -> bool) (s w : jsstring) :
  In w (split sep s) -> piece_ok sep s w.
Proof.
  intros H. destruct (split_pieces sep s) as (w0 & ws & E & (post & Hs) & Hw & Hws).
  rewrite E in H. destruct H as [<- | H].
  - split; [|assumption]. apply includes_app. now exists [], post.
  - rewrite Forall_forall in Hws. now apply Hws.
Qed.

Lemma dedupe_In (words : list jsstring) (w : jsstring) :
  In w (dedupe words) <-> In w words.
Proof.
  unfold dedupe.
  enough (G : forall seen, In w (fold_left
             (fun seen w => if array_includes seen w then seen else seen ++ [w])
             words seen) <-> In w seen \/ In w words).
  { rewrite G. simpl. tauto. }
  induction words as [|x words IH]; intros seen; simpl; [tauto|].
  rewrite IH. destruct (array_includes seen x) eqn:E.
  - apply array_includes_In in E. split; [tauto|].
    intros [H | [<- | H]]; tauto.
  - rewrite in_app_iff. simpl. tauto.
Qed.

Lemma Qnum_pos (q : Q) : (0 <? Qnum q)%Z = true <-> 0 < q.
Proof.
  rewrite Z.ltb_lt. unfold Qlt. simpl. now rewrite Z.mul_1_r.
Qed.

Lemma Qnum_pos_false (q : Q) : (0 <? Qnum q)%Z = false <-> q <= 0.
Proof.
  rewrite Z.ltb_ge. unfold Qle. simpl. now rewrite Z.mul_1_r.
Qed.

Lemma slice0_of_nat {A} (l : list A) (n : nat) :
  slice0 l (Z.of_nat n) = firstn n l.
Proof.
  unfold slice0. destruct (Z.of_nat n <? 0)%Z eqn:E.
  - apply Z.ltb_lt in E. lia.
  - now rewrite Nat2Z.id.
Qed.

Lemma slice0_firstn {A} (l : list A) (stop : Z) :
  exists k, slice0 l stop = firstn k l.
Proof. unfold slice0. destruct (stop <? 0)%Z; now eexists. Qed.

Lemma In_firstn {A} (l : list A) (k : nat) (x : A) :
  In x (firstn k l) -> In x l.
Proof.
  revert k; induction l as [|a l IH]; intros [|k]; simpl; try tauto.
  intros [-> | H]; [now left | right; eauto].
Qed.

Lemma ForallOrdPairs_firstn {A} (R : A -> A -> Prop) (l : list A) (k : nat) :
  ForallOrdPairs R l -> ForallOrdPairs R (firstn k l).
Proof.
  intros H. revert k. induction H as [|a l Ha H IH]; intros [|k]; simpl;
    try constructor.
  - rewrite Forall_forall in *. intros x Hx. apply Ha.
    eapply In_firstn; eassumption.
  - apply IH.
Qed.

Lemma StronglySorted_firstn {A} (R : A -> A -> Prop) (l : list A) (k : nat) :
  StronglySorted R l -> StronglySorted R (firstn k l).
Proof.
  intros H. revert k. induction H as [|a l H IH Ha]; intros [|k]; simpl;
    try constructor.
  - apply IH.
  - rewrite Forall_forall in *. intros x Hx. apply Ha.
    eapply In_firstn; eassumption.
Qed.

Lemma Forall_firstn' {A} (P : A -> Prop) (l : list A) (k : nat) :
  Forall P l -> Forall P (firstn k l).
Proof.
  rewrite !Forall_forall. intros H x Hx. apply H. eapply In_firstn; eassumption.
Qed.

Lemma ForallOrdPairs_filter {A} (R : A -> A -> Prop) (p : A -> bool) (l : list A) :
  ForallOrdPairs R l -> ForallOrdPairs R (filter p l).
Proof.
  induction 1 as [|a l Ha H IH]; simpl; [constructor|].
  destruct (p a); [|assumption]. constructor; [|assumption].
  rewrite Forall_forall in *. intros x Hx. apply Ha.
  now apply filter_In in Hx.
Qed.

Lemma ForallOrdPairs_map {A B} (R : B -> B -> Prop) (f : A -> B) (l : list A) :
  ForallOrdPairs (fun x y => R (f x) (f y)) l -> ForallOrdPairs R (map f l).
Proof.
  induction 1 as [|a l Ha H IH]; simpl; constructor; [|assumption].
  rewrite Forall_forall in *. intros y Hy.
  apply in_map_iff in Hy as (x & <- & Hx). now apply Ha.
Qed.

Lemma ForallOrdPairs_nth {A} (R : A -> A -> Prop) (l : list A) :
  ForallOrdPairs R l ->
  forall i j x y, (i < j)%nat -> nth_error l i = Some x ->
    nth_error l j = Some y -> R x y.
Proof.
  induction 1 as [|a l Ha H IH]; intros i j x y Hij Hi Hj.
  - destruct i; discriminate.
  - destruct j as [|j]; [lia|]. simpl in Hj. destruct i as [|i]; simpl in Hi.
    + injection Hi as <-. rewrite Forall_forall in Ha. apply Ha.
      eapply nth_error_In; eassumption.
    + apply (IH i j); [lia | assumption | assumption].
Qed.

Lemma ForallOrdPairs_NoDup {A} (l : list A) :
  ForallOrdPairs (fun x y => x <> y) l -> NoDup l.
Proof.
  induction 1 as [|a l Ha H IH]; constructor; [|assumption].
  rewrite Forall_forall in Ha. intros Hin. now apply (Ha a Hin).
Qed.

(** *** The stable sort by descending key *)

(** One step of [insert] and [sort], without unfolding the comparator. *)
Ltac unroll := cbn [insert sort In length map].

Section SortByKey.
Variable A : Type.
Variable key : A -> Q.
Local Abbreviation cmp := (byKeyDesc key).

Lemma cmp_pos (x y : A) : (0 <? Qnum (cmp x y))%Z = true <-> key x < key y.
Proof. rewrite Qnum_pos. unfold byKeyDesc. split; intros; lra. Qed.

Lemma cmp_not_pos (x y : A) :
  (0 <? Qnum (cmp x y))%Z = false <-> key y <= key x.
Proof. rewrite Qnum_pos_false. unfold byKeyDesc. split; intros; lra. Qed.

Lemma insert_In (x y : A) (l : list A) :
  In y (insert cmp x l) <-> y = x \/ In y l.
Proof.
  induction l as [|z l IH]; unroll; [intuition|].
  destruct (0 <? Qnum (cmp x z))%Z; unroll; [rewrite IH|]; intuition.
Qed.

Lemma sort_In (y : A) (l : list A) : In y (sort cmp l) <-> In y l.
Proof.
  induction l as [|x l IH]; unroll; [tauto|].
  rewrite insert_In, IH. intuition.
Qed.

Lemma sort_Forall (P : A -> Prop) (l : list A) :
  Forall P l -> Forall P (sort cmp l).
Proof.
  rewrite !Forall_forall. intros H y Hy. apply H. now apply sort_In.
Qed.

Lemma insert_length (x : A) (l : list A) :
  length (insert cmp x l) = S (length l).
Proof.
  induction l as [|z l IH]; unroll; [reflexivity|].
  destruct (0 <? Qnum (cmp x z))%Z; unroll; now rewrite ?IH.
Qed.

Lemma sort_length (l : list A) : length (sort cmp l) = length l.
Proof.
  induction l as [|x l IH]; unroll; [reflexivity|].
  now rewrite insert_length, IH.
Qed.

Lemma insert_sorted (x : A) (l : list A) :
  StronglySorted (descending key) l -> StronglySorted (descending key) (insert cmp x l).
Proof.
  induction 1 as [|z l H IH Hz]; unroll.
  - repeat constructor.
  - destruct (0 <? Qnum (cmp x z))%Z eqn:E.
    + apply cmp_pos in E. constructor; [assumption|].
      rewrite Forall_forall in *. intros y Hy.
      apply insert_In in Hy as [-> | Hy].
      * unfold descending. lra.
      * now apply Hz.
    + apply cmp_not_pos in E. constructor.
      * now constructor.
      * constructor; [exact E|].
        rewrite Forall_forall in *. intros y Hy. specialize (Hz y Hy).
        unfold descending in *. lra.
Qed.

Lemma sort_sorted (l : list A) : StronglySorted (descending key) (sort cmp l).
Proof.
  induction l as [|x l IH]; unroll; [constructor | now apply insert_sorted].
Qed.

Lemma insert_stable (R : A -> A -> Prop) (x : A) (l : list A) :
  Forall (R x) l -> ForallOrdPairs (onTies key R) l ->
  ForallOrdPairs (onTies key R) (insert cmp x l).
Proof.
  intros Hx H. induction H as [|z l Hz H IH]; unroll.
  - repeat constructor.
  - destruct (0 <? Qnum (cmp x z))%Z eqn:E.
    + apply cmp_pos in E. constructor.
      * rewrite Forall_forall in *. intros y Hy.
        apply insert_In in Hy as [-> | Hy]; [|now apply Hz].
        intros Heq. lra.
      * apply IH. now inversion Hx.
    + constructor; [|now constructor].
      eapply Forall_impl; [|exact Hx]. intros y Hy _. exact Hy.
Qed.

Lemma sort_stable (R : A -> A -> Prop) (l : list A) :
  ForallOrdPairs R l -> ForallOrdPairs (onTies key R) (sort cmp l).
Proof.
  induction 1 as [|x l Hx H IH]; unroll; [constructor|].
  apply insert_stable; [now apply sort_Forall | assumption].
Qed.

Lemma insert_symmetric (R : A -> A -> Prop) (x : A) (l : list A) :
  (forall a b, R a b -> R b a) ->
  Forall (R x) l -> ForallOrdPairs R l -> ForallOrdPairs R (insert cmp x l).
Proof.
  intros Hsym Hx H. induction H as [|z l Hz H IH]; unroll.
  - repeat constructor.
  - destruct (0 <? Qnum (cmp x z))%Z.
    + constructor.
      * rewrite Forall_forall in *. intros y Hy.
        apply insert_In in Hy as [-> | Hy]; [|now apply Hz].
        apply Hsym, Hx. now left.
      * apply IH. now inversion Hx.
    + constructor; [assumption | now constructor].
Qed.

Lemma sort_symmetric (R : A -> A -> Prop) (l : list A) :
  (forall a b, R a b -> R b a) ->
  ForallOrdPairs R l -> ForallOrdPairs R (sort cmp l).
Proof.
  intros Hsym. induction 1 as [|x l Hx H IH]; unroll; [constructor|].
  apply insert_symmetric; [assumption | now apply sort_Forall | assumption].
Qed.
(** Any rearrangement that is sorted and keeps the order of the entries of
    each key is the list [sort] computes: a stable sort has one result. *)
Lemma withKey_cons (c : Q) (x : A) (l : list A) :
  withKey key c (x :: l)
  = if Qeq_bool (key x) c then x :: withKey key c l else withKey key c l.
Proof. reflexivity. Qed.

Lemma withKey_insert (c : Q) (x : A) (l : list A) :
  withKey key c (insert cmp x l) = withKey key c (x :: l).
Proof.
  induction l as [|y l IH]; cbn [insert]; [reflexivity|].
  destruct (0 <? Qnum (cmp x y))%Z eqn:E; [|reflexivity].
  apply cmp_pos in E. rewrite !withKey_cons in *. rewrite IH.
  destruct (Qeq_bool (key x) c) eqn:Ex, (Qeq_bool (key y) c) eqn:Ey;
    try reflexivity.
  apply Qeq_bool_iff in Ex, Ey. lra.
Qed.

Lemma withKey_sort (c : Q) (l : list A) :
  withKey key c (sort cmp l) = withKey key c l.
Proof.
  induction l as [|x l IH]; cbn [sort]; [reflexivity|].
  now rewrite withKey_insert, !withKey_cons, IH.
Qed.

Lemma withKey_head_In (x : A) (l l' : list A) :
  (forall c, withKey key c (x :: l) = withKey key c l') -> In x l'.
Proof.
  intros H. specialize (H (key x)). rewrite withKey_cons in H.
  rewrite (proj2 (Qeq_bool_iff _ _) (Qeq_refl (key x))) in H.
  assert (Hin : In x (withKey key (key x) l')) by (rewrite <- H; now left).
  unfold withKey in Hin. now apply filter_In in Hin.
Qed.

Lemma sorted_determined (l1 : list A) :
  forall l2,
    StronglySorted (descending key) l1 -> StronglySorted (descending key) l2 ->
    (forall c, withKey key c l1 = withKey key c l2) -> l1 = l2.
Proof.
  induction l1 as [|x l1 IH]; intros l2 S1 S2 H.
  - destruct l2 as [|y l2]; [reflexivity|].
    symmetry in H. apply withKey_head_In in H. contradiction.
  - destruct l2 as [|y l2].
    { apply withKey_head_In in H. contradiction. }
    inversion S1 as [|? ? S1' F1]; inversion S2 as [|? ? S2' F2]; subst.
    assert (Hxy : key x == key y).
    { pose proof (withKey_head_In _ _ _ H) as [-> | Hx]; [reflexivity|].
      assert (H' : forall c, withKey key c (y :: l2) = withKey key c (x :: l1))
        by (intros c; symmetry; apply H).
      pose proof (withKey_head_In _ _ _ H') as [-> | Hy]; [reflexivity|].
      rewrite Forall_forall in F1, F2.
      specialize (F1 y Hy). specialize (F2 x Hx). unfold descending in *. lra. }
    assert (E : x = y).
    { specialize (H (key x)). rewrite !withKey_cons in H.
      rewrite (proj2 (Qeq_bool_iff _ _) (Qeq_refl (key x))) in H.
      rewrite (proj2 (Qeq_bool_iff _ _) (Qeq_sym _ _ Hxy)) in H. congruence. }
    subst y. f_equal. apply IH; [assumption | assumption |].
    intros c. specialize (H c). rewrite !withKey_cons in H.
    destruct (Qeq_bool (key x) c); congruence.
Qed.

Lemma sort_unique (l l' : list A) :
  StronglySorted (descending key) l' ->
  (forall c, withKey key c l' = withKey key c l) ->
  l' = sort cmp l.
Proof.
  intros S H. apply sorted_determined; [assumption | apply sort_sorted |].
  intros c. now rewrite withKey_sort.
Qed.
End SortByKey.

(** Sorting commutes with a projection the comparator factors through. *)
Lemma map_insert {A B} (f : A -> B) (cmp : B -> B -> Q) (x : A) (l : list A) :
  map f (insert (fun a b => cmp (f a) (f b)) x l) = insert cmp (f x) (map f l).
Proof.
  induction l as [|y l IH]; unroll; [reflexivity|].
  destruct (0 <? Qnum (cmp (f x) (f y)))%Z; unroll; now rewrite ?IH.
Qed.

Lemma map_sort {A B} (f : A -> B) (cmp : B -> B -> Q) (l : list A) :
  map f (sort (fun a b => cmp (f a) (f b)) l) = sort cmp (map f l).
Proof.
  induction l as [|x l IH]; unroll; [reflexivity|].
  now rewrite map_insert, IH.
Qed.

Lemma map_filter {A B} (f : A -> B) (p : B -> bool) (l : list A) :
  map f (filter (fun a => p (f a)) l) = filter p (map f l).
Proof.
  induction l as [|x l IH]; simpl; [reflexivity|].
  destruct (p (f x)); simpl; now rewrite IH.
Qed.

Lemma map_slice0 {A B} (f : A -> B) (l : list A) (stop : Z) :
  map f (slice0 l stop) = slice0 (map f l) stop.
Proof.
  unfold slice0. rewrite length_map.
  destruct (stop <? 0)%Z; now rewrite firstn_map.
Qed.

(** *** Insertion-ordered maps *)

Lemma map_get_set {V} (m : Map V) (k k' : jsstring) (v : V) :
  map_get (map_set m k v) k' = if str_eqb k k' then Some v else map_get m k'.
Proof.
  induction m as [|[k0 v0] m IH]; simpl.
  - destruct (str_eqb k k'); reflexivity.
  - destruct (str_eqb k0 k) eqn:E0; simpl.
    + apply str_eqb_eq in E0. subst k0. destruct (str_eqb k k'); reflexivity.
    + rewrite IH. destruct (str_eqb k0 k') eqn:E1; [|reflexivity].
      apply str_eqb_eq in E1. subst k0.
      destruct (str_eqb k k') eqn:E2; [|reflexivity].
      apply str_eqb_eq in E2. subst k. rewrite str_eqb_refl in E0. discriminate.
Qed.

Lemma map_keys_set {V} (m : Map V) (k : jsstring) (v : V) :
  map_keys (map_set m k v) =
  if map_has m k then map_keys m else map_keys m ++ [k].
Proof.
  unfold map_has, map_keys. induction m as [|[k0 v0] m IH]; simpl; [reflexivity|].
  destruct (str_eqb k0 k); simpl; [reflexivity|].
  rewrite IH. destruct (map_get m k); reflexivity.
Qed.

Lemma map_get_None {V} (m : Map V) (k : jsstring) :
  map_get m k = None <-> ~ In k (map_keys m).
Proof.
  unfold map_keys. induction m as [|[k0 v0] m IH]; simpl; [tauto|].
  destruct (str_eqb k0 k) eqn:E.
  - apply str_eqb_eq in E. split; [discriminate | tauto].
  - apply str_eqb_neq in E. rewrite IH. tauto.
Qed.

Lemma map_get_In {V} (m : Map V) (k : jsstring) (v : V) :
  NoDup (map_keys m) -> In (k, v) m -> map_get m k = Some v.
Proof.
  unfold map_keys. induction m as [|[k0 v0] m IH]; simpl; [tauto|].
  intros Hnd [H | H]; inversion Hnd as [|? ? Hk0 Hnd']; subst.
  - injection H as -> ->. now rewrite str_eqb_refl.
  - destruct (str_eqb k0 k) eqn:E; [|now apply IH].
    apply str_eqb_eq in E. subst k0. exfalso. apply Hk0.
    apply in_map_iff. now exists (k, v).
Qed.

(** *** The category index *)

Module IndexFacts.
Import TemplateRetriever.

Lemma index_push_get (index : Map (list Template)) (key k : jsstring)
    (tpl : Template) :
  map_get (index_push index key tpl) k =
  if str_eqb key k
  then Some (match map_get index key with Some arr => arr | None => [] end
             ++ [tpl])
  else map_get index k.
Proof.
  unfold index_push, map_has. destruct (map_get index key) as [arr|] eqn:E.
  - rewrite E. apply map_get_set.
  - rewrite map_get_set, str_eqb_refl, !map_get_set.
    destruct (str_eqb key k); reflexivity.
Qed.

Lemma index_push_keys (index : Map (list Template)) (key : jsstring)
    (tpl : Template) :
  map_keys (index_push index key tpl) =
  if map_has index key then map_keys index else map_keys index ++ [key].
Proof.
  unfold index_push. destruct (map_has index key) eqn:E.
  - unfold map_has in E. destruct (map_get index key) as [arr|] eqn:G; [|discriminate].
    rewrite map_keys_set. unfold map_has. now rewrite G.
  - rewrite map_get_set, str_eqb_refl. rewrite map_keys_set.
    assert (H : map_has (map_set index key []) key = true).
    { unfold map_has. now rewrite map_get_set, str_eqb_refl. }
    rewrite H, map_keys_set, E. reflexivity.
Qed.

Lemma NoDup_snoc {A} (l : list A) (x : A) :
  NoDup l -> ~ In x l -> NoDup (l ++ [x]).
Proof.
  induction 1 as [|a l Ha H IH]; simpl; intros Hx.
  - repeat constructor. tauto.
  - constructor.
    + rewrite in_app_iff. simpl. intros [? | [-> | []]]; tauto.
    + apply IH. tauto.
Qed.

Lemma indexed_push (index : Map (list Template)) (done : list Template)
    (tpl : Template) :
  indexed index done ->
  indexed (index_push index (category tpl) tpl) (done ++ [tpl]).
Proof.
  intros [Hnd Hget]. split.
  - rewrite index_push_keys. destruct (map_has index (category tpl)) eqn:E;
      [assumption|].
    apply NoDup_snoc; [assumption|]. apply map_get_None.
    unfold map_has in E. now destruct (map_get index (category tpl)).
  - intros k. rewrite index_push_get, filter_app. simpl. unfold inCategory at 2.
    destruct (str_eqb (category tpl) k) eqn:E.
    + apply str_eqb_eq in E. subst k. rewrite Hget.
      now destruct (filter (inCategory (category tpl)) done).
    + now rewrite app_nil_r.
Qed.

Lemma categoryFold_indexed (tpls : list Template) :
  forall index done, indexed index done ->
    indexed (categoryFold index tpls) (done ++ tpls).
Proof.
  induction tpls as [|tpl tpls IH]; intros index done H; simpl.
  - now rewrite app_nil_r.
  - replace (done ++ tpl :: tpls) with ((done ++ [tpl]) ++ tpls)
      by now rewrite <- app_assoc.
    apply IH. now apply indexed_push.
Qed.

Section WithLowerCase.
Variable lower : jsstring -> jsstring.

Lemma buildIndexes_fst (tpls : list Template) :
  fst (buildIndexes lower tpls) = categoryFold [] tpls.
Proof.
  unfold buildIndexes, categoryFold. generalize (@nil (jsstring * list Template)) at 1 3.
  generalize (@nil (jsstring * list Template)).
  induction tpls as [|tpl tpls IH]; intros kidx cidx; simpl; [reflexivity|].
  apply IH.
Qed.

Lemma new_templates (tpls : list Template) : templates (new lower tpls) = tpls.
Proof. unfold new. now destruct (buildIndexes lower tpls). Qed.

Lemma new_categoryIndex (tpls : list Template) :
  indexed (categoryIndex (new lower tpls)) tpls.
Proof.
  replace (categoryIndex (new lower tpls)) with (fst (buildIndexes lower tpls))
    by (unfold new; now destruct (buildIndexes lower tpls)).
  rewrite buildIndexes_fst. apply (@categoryFold_indexed tpls [] []).
  split; [constructor | reflexivity].
Qed.

Lemma categoryIndex_get (tpls : list Template) (k : jsstring) :
  map_get (categoryIndex (new lower tpls)) k =
  match filter (inCategory k) tpls with [] => None | l => Some l end.
Proof. apply new_categoryIndex. Qed.

Lemma categoryIndex_entry (tpls : list Template) (k : jsstring)
    (l : list Template) :
  In (k, l) (categoryIndex (new lower tpls)) -> l = filter (inCategory k) tpls.
Proof.
  intros H. destruct (new_categoryIndex tpls) as [Hnd Hget].
  apply (@map_get_In _ _ _ _ Hnd) in H. rewrite Hget in H.
  destruct (filter (inCategory k) tpls); congruence.
Qed.

(** The candidates are always the templates of the corpus that pass some
    test, in the order of the corpus. *)
Lemma getCandidates_filter (tpls : list Template) (cat : jsstring) :
  exists p, getCandidates lower (new lower tpls) cat = filter p tpls.
Proof.
  unfold getCandidates. rewrite categoryIndex_get.
  destruct (filter (inCategory cat) tpls) as [|t0 l0] eqn:E.
  - destruct (find _ _) as [[k l]|] eqn:F.
    + apply find_some in F as [F _]. apply categoryIndex_entry in F.
      now exists (inCategory k).
    + exists (fun _ => true). rewrite new_templates.
      clear. induction tpls; simpl; congruence.
  - exists (inCategory cat). now rewrite E.
Qed.

End WithLowerCase.
End IndexFacts.

(** *** Scoring *)

Module ScoreFacts.
Import TemplateRetriever.

Section WithLowerCase.
Variable lower : jsstring -> jsstring.

Lemma keywordBonus_nonneg ek et k : 0 <= keywordBonus lower ek et k.
Proof.
  unfold keywordBonus.
  destruct (array_includes ek (lower k)), (includes et (lower k)); lra.
Qed.

Lemma keywordStep_fst ek et st k :
  fst (keywordStep lower ek et st k) == fst st + keywordBonus lower ek et k.
Proof.
  unfold keywordStep, keywordBonus.
  destruct (array_includes ek (lower k)), (includes et (lower k)); simpl; lra.
Qed.


Lemma fold_keywordStep_ge ek et ks :
  forall st, fst st <= fst (fold_left (keywordStep lower ek et) ks st).
Proof.
  induction ks as [|k ks IH]; intros st; simpl; [lra|].
  specialize (IH (keywordStep lower ek et st k)).
  pose proof (keywordStep_fst ek et st k).
  pose proof (keywordBonus_nonneg ek et k). lra.
Qed.

Lemma fold_keywordStep_In ek et ks k :
  In k ks ->
  forall st, fst st + keywordBonus lower ek et k
             <= fst (fold_left (keywordStep lower ek et) ks st).
Proof.
  induction ks as [|k0 ks IH]; intros Hin st; simpl; [contradiction|].
  destruct Hin as [-> | Hin].
  - pose proof (fold_keywordStep_ge ek et ks (keywordStep lower ek et st k)).
    pose proof (keywordStep_fst ek et st k). lra.
  - specialize (IH Hin (keywordStep lower ek et st k0)).
    pose proof (keywordStep_fst ek et st k0).
    pose proof (keywordBonus_nonneg ek et k0). lra.
Qed.


Lemma scenarioStep_ge et sc w : sc <= scenarioStep et sc w.
Proof.
  unfold scenarioStep. destruct ((2 <? length w)%nat && includes et w); lra.
Qed.

Lemma fold_scenarioStep_ge et ws :
  forall sc, sc <= fold_left (scenarioStep et) ws sc.
Proof.
  induction ws as [|w ws IH]; intros sc; simpl; [lra|].
  specialize (IH (scenarioStep et sc w)).
  pose proof (scenarioStep_ge et sc w). lra.
Qed.


Lemma calculateScore_ge_keywords tpl ek et :
  fst (fold_left (keywordStep lower ek et) (keywords tpl) (0, []))
  <= fst (calculateScore lower tpl ek et).
Proof. unfold calculateScore. simpl. apply fold_scenarioStep_ge. Qed.


Lemma map_blank_id (l : jsstring) :
  Forall (fun c => isWhiteSpace c = false) (map blank l) -> map blank l = l.
Proof.
  induction l as [|c l IH]; simpl; intros H; [reflexivity|].
  inversion H as [|? ? Hc Hl]; subst. rewrite (IH Hl). f_equal.
  unfold blank in *. destruct (isSpecial c); [discriminate | reflexivity].
Qed.

Lemma includes_map_blank (s w : jsstring) :
  includes (map blank s) w = true ->
  Forall (fun c => isWhiteSpace c = false) w ->
  includes s w = true.
Proof.
  intros H Hw. apply includes_app in H as (pre & post & H).
  apply map_eq_app in H as (s1 & s' & -> & _ & H).
  apply map_eq_app in H as (s2 & s3 & -> & H & _).
  apply includes_app. exists s1, s3. subst w. now rewrite map_blank_id.
Qed.

(** A token of the email is a substring of its lower-cased text. *)
Lemma extractKeywords_includes (txt w : jsstring) :
  In w (extractKeywords lower txt) -> includes (lower txt) w = true.
Proof.
  unfold extractKeywords. rewrite dedupe_In, filter_In. intros [H _].
  apply split_In in H as [H Hw]. now apply includes_map_blank.
Qed.

End WithLowerCase.
End ScoreFacts.

(** *** Ranking with corpus positions *)

Module RankFacts.
Import TemplateRetriever.

Lemma tagFrom_snd {A} (l : list A) : forall start, map snd (tagFrom start l) = l.
Proof. induction l as [|a l IH]; intros start; simpl; now rewrite ?IH. Qed.

Lemma tagFrom_nth {A} (l : list A) :
  forall start, Forall (fun x => (start <= fst x)%nat
                        /\ nth_error l (fst x - start) = Some (snd x))
                       (tagFrom start l).
Proof.
  induction l as [|a l IH]; intros start; simpl; constructor.
  - simpl. split; [lia|]. now rewrite Nat.sub_diag.
  - eapply Forall_impl; [|apply (IH (S start))]. simpl. intros [p x] [Hle Hx].
    simpl in *. split; [lia|].
    replace (p - start)%nat with (S (p - S start)) by lia. exact Hx.
Qed.

Lemma tagFrom_increasing {A} (l : list A) :
  forall start, ForallOrdPairs (fun x y => (fst x < fst y)%nat) (tagFrom start l).
Proof.
  induction l as [|a l IH]; intros start; simpl; constructor; [|apply IH].
  eapply Forall_impl; [|apply (tagFrom_nth l (S start))].
  simpl. intros x [Hle _]. lia.
Qed.

Lemma ForallOrdPairs_impl {A} (R R' : A -> A -> Prop) (l : list A) :
  (forall x y, R x y -> R' x y) -> ForallOrdPairs R l -> ForallOrdPairs R' l.
Proof.
  intros HR. induction 1 as [|a l Ha H IH]; constructor; [|assumption].
  eapply Forall_impl; [|exact Ha]. apply HR.
Qed.

Lemma Forall_filter' {A} (P : A -> Prop) (p : A -> bool) (l : list A) :
  Forall P l -> Forall P (filter p l).
Proof.
  rewrite !Forall_forall. intros H x Hx. apply H. now apply filter_In in Hx.
Qed.

Section Pipeline.
Variable lower : jsstring -> jsstring.
Variable email : ProcessedEmail.

Lemma rankTagged_snd n p tagged :
  map snd (rankTagged lower email n p tagged) = rank lower email n (filter p (map snd tagged)).
Proof.
  unfold rankTagged, rank. rewrite <- firstn_map. f_equal.
  change (byKeyDesc (fun x : nat * TemplateMatch => score (snd x)))
    with (fun a b : nat * TemplateMatch => byScoreDesc (snd a) (snd b)).
  rewrite (map_sort snd byScoreDesc). f_equal.
  rewrite (map_filter snd hasScore). f_equal.
  rewrite map_map. simpl. rewrite <- (map_filter snd p), map_map. reflexivity.
Qed.

Lemma rankTagged_Forall (P : nat -> Template -> Prop) n p tagged :
  Forall (fun x => P (fst x) (snd x)) tagged ->
  Forall (fun x => P (fst x) (template (snd x))) (rankTagged lower email n p tagged).
Proof.
  intros H. unfold rankTagged.
  apply Forall_firstn', sort_Forall, Forall_filter'.
  rewrite Forall_map. simpl. now apply Forall_filter'.
Qed.

Lemma rankTagged_stable n p tagged :
  ForallOrdPairs (fun x y => (fst x < fst y)%nat) tagged ->
  ForallOrdPairs
    (fun x y => score (snd x) == score (snd y) -> (fst x < fst y)%nat)
    (rankTagged lower email n p tagged).
Proof.
  intros H. unfold rankTagged.
  apply ForallOrdPairs_firstn.
  apply (@sort_stable _ (fun x : nat * TemplateMatch => score (snd x))
            (fun x y => (fst x < fst y)%nat)).
  apply ForallOrdPairs_filter, ForallOrdPairs_map. simpl.
  now apply ForallOrdPairs_filter.
Qed.

Lemma rankTagged_NoDup n p tagged :
  ForallOrdPairs (fun x y => (fst x < fst y)%nat) tagged ->
  NoDup (map fst (rankTagged lower email n p tagged)).
Proof.
  intros H. apply ForallOrdPairs_NoDup, ForallOrdPairs_map.
  unfold rankTagged. apply ForallOrdPairs_firstn.
  apply sort_symmetric; [intros a b Hab; congruence|].
  apply ForallOrdPairs_filter, ForallOrdPairs_map. simpl.
  apply ForallOrdPairs_filter.
  eapply ForallOrdPairs_impl; [|exact H]. simpl. intros; lia.
Qed.

Lemma rank_sorted n candidates :
  StronglySorted (fun a b => score b <= score a) (rank lower email n candidates).
Proof.
  unfold rank. apply StronglySorted_firstn.
  apply (sort_sorted score).
Qed.

Lemma rank_positive n candidates :
  Forall (fun m => 0 < score m) (rank lower email n candidates).
Proof.
  unfold rank. apply Forall_firstn', (sort_Forall score).
  rewrite Forall_forall. intros m Hm. apply filter_In in Hm as [_ Hm].
  now apply Qnum_pos.
Qed.

Lemma rank_length n candidates : (length (rank lower email n candidates) <= n)%nat.
Proof. unfold rank. apply firstn_le_length. Qed.

Lemma findBestMatches_rank (tpls : list Template) (cat : jsstring) (n : nat) :
  exists p, findBestMatches lower (new lower tpls) email cat (Z.of_nat n)
            = rank lower email n (filter p tpls).
Proof.
  destruct (IndexFacts.getCandidates_filter lower tpls cat) as [p Hp].
  exists p. unfold findBestMatches. now rewrite Hp, slice0_of_nat.
Qed.

End Pipeline.
End RankFacts.

(** ** The retriever *)

Section Retriever.
Import TemplateRetriever.
Variable lower : jsstring -> jsstring.


(** C5. The token bonus and the substring bonus are tested separately and
    add up on one keyword: each step of the keyword loop adds 2 for a token
    match plus 1 for a substring match. When [refund] is a keyword of the
    template and a token of the email, that keyword raises the score by
    exactly 3, and the template scores at least 3 whatever its scenario. *)
Theorem refund_keyword_scores_three (tpl : Template) (email : ProcessedEmail) :
  (forall s, lower (lower s) = lower s) ->
  lower (js "refund") = js "refund" ->
  In (js "refund") (keywords tpl) ->
  In (js "refund") (extractKeywords lower (emailTextOf lower email)) ->
  let emailText := emailTextOf lower email in
  let emailWords := extractKeywords lower emailText in
  (forall st keyword,
     fst (keywordStep lower emailWords emailText st keyword)
     == fst st
        + (if array_includes emailWords (lower keyword) then 2 else 0)
        + (if includes emailText (lower keyword) then 1 else 0))
  /\ (forall st, fst (keywordStep lower emailWords emailText st (js "refund"))
                 == fst st + 3)
  /\ 3 <= score (scoreTemplate lower email tpl).
Proof.
  intros Hidem Hfix Hkw Htok emailText emailWords.
  assert (Hsub : includes emailText (js "refund") = true).
  { apply ScoreFacts.extractKeywords_includes in Htok.
    unfold emailTextOf in Htok. rewrite Hidem in Htok. exact Htok. }
  assert (Hbonus : keywordBonus lower emailWords emailText
                     (js "refund") == 3).
  { unfold keywordBonus. rewrite Hfix, Hsub.
    unfold emailWords, emailText.
    rewrite (proj2 (array_includes_In _ _) Htok). reflexivity. }
  split; [|split].
  - intros st keyword. rewrite ScoreFacts.keywordStep_fst.
    unfold keywordBonus. lra.
  - intros st. rewrite ScoreFacts.keywordStep_fst, Hbonus. reflexivity.
  - pose proof (ScoreFacts.calculateScore_ge_keywords lower tpl emailWords
                  emailText) as H1.
    pose proof (ScoreFacts.fold_keywordStep_In lower emailWords emailText
                  (keywords tpl) (js "refund") Hkw (0, [])) as H2.
    simpl in H2.
    change (3 <= fst (calculateScore lower tpl emailWords emailText)). lra.
Qed.

Lemma find_none_all {A} (p : A -> bool) (l : list A) :
  (forall x, In x l -> p x = false) -> find p l = None.
Proof.
  induction l as [|a l IH]; intros H; simpl; [reflexivity|].
  rewrite (H a (or_introl eq_refl)). apply IH. intros x Hx. apply H. now right.
Qed.

(** C7. A requested category that is a key of the category index selects
    exactly the templates of that category, in corpus order; the result does
    not depend on the lower-casing that only the substring fallback uses,
    so neither that fallback nor the whole-corpus one takes part. *)
Theorem exact_category_takes_precedence (tpls : list Template) (cat : jsstring) :
  In cat (getCategories (new lower tpls)) ->
  getCandidates lower (new lower tpls) cat
    = getTemplatesByCategory (new lower tpls) cat
  /\ getCandidates lower (new lower tpls) cat
    = filter (fun tpl => str_eqb (category tpl) cat) tpls
  /\ forall lower', getCandidates lower' (new lower tpls) cat
                    = getCandidates lower (new lower tpls) cat.
Proof.
  intros Hin. unfold getCandidates, getTemplatesByCategory.
  destruct (map_get (categoryIndex (new lower tpls)) cat) as [l|] eqn:E.
  - rewrite IndexFacts.categoryIndex_get in E.
    destruct (filter (inCategory cat) tpls) as [|t0 l0] eqn:F;
      [discriminate|].
    injection E as <-. repeat split; try reflexivity. symmetry. exact F.
  - apply map_get_None in E. contradiction.
Qed.

(** C8. A requested category that equals no indexed category and is in no
    substring relation, after lower-casing, with any of them makes the whole
    corpus the candidate set: [findBestMatches] ranks every template of the
    corpus, and the candidate set is empty only when the corpus is. *)
Theorem unmatched_category_uses_whole_corpus (tpls : list Template)
    (email : ProcessedEmail) (cat : jsstring) (limit : Z) :
  (forall k, In k (getCategories (new lower tpls)) ->
     k <> cat
     /\ includes (lower k) (lower cat) = false
     /\ includes (lower cat) (lower k) = false) ->
  getCandidates lower (new lower tpls) cat = tpls
  /\ findBestMatches lower (new lower tpls) email cat limit
     = slice0 (sort byScoreDesc
                 (filter (fun m => (0 <? Qnum (score m))%Z)
                    (map (scoreTemplate lower email) tpls))) limit
  /\ (tpls <> [] -> getCandidates lower (new lower tpls) cat <> [])
  /\ (tpls = [] -> findBestMatches lower (new lower tpls) email cat limit = []).
Proof.
  intros H.
  assert (Hc : getCandidates lower (new lower tpls) cat = tpls).
  { unfold getCandidates.
    assert (E : map_get (categoryIndex (new lower tpls)) cat = None).
    { apply map_get_None. intros Hin. now destruct (H cat Hin). }
    rewrite E, find_none_all; [apply IndexFacts.new_templates|].
    intros [k l] Hkl. unfold similarCategory. simpl.
    assert (Hk : In k (getCategories (new lower tpls))).
    { unfold getCategories, map_keys. apply in_map_iff. now exists (k, l). }
    destruct (H k Hk) as (_ & -> & ->). reflexivity. }
  repeat split.
  - exact Hc.
  - unfold findBestMatches. now rewrite Hc.
  - now rewrite Hc.
  - intros ->. unfold findBestMatches. rewrite Hc. simpl.
    destruct (slice0_firstn (@nil TemplateMatch) limit) as [k ->].
    apply firstn_nil.
Qed.

(** C1. For a limit [n], [findBestMatches] returns at most [n] entries, in
    non-increasing order of score, none of score 0; and its entries can be
    given pairwise distinct corpus positions holding their templates such
    that, of two entries with equal scores, the earlier one in the result
    has the earlier position in the corpus. *)
Theorem findBestMatches_ranked (tpls : list Template) (email : ProcessedEmail)
    (cat : jsstring) (n : nat) :
  let out := findBestMatches lower (new lower tpls) email cat (Z.of_nat n) in
  (length out <= n)%nat
  /\ StronglySorted (fun a b => score b <= score a) out
  /\ Forall (fun m => ~ score m == 0) out
  /\ exists positions : list nat,
       length positions = length out
       /\ NoDup positions
       /\ (forall i p m, nth_error positions i = Some p ->
              nth_error out i = Some m ->
              nth_error tpls p = Some (template m))
       /\ (forall i j p q a b, (i < j)%nat ->
              nth_error positions i = Some p -> nth_error positions j = Some q ->
              nth_error out i = Some a -> nth_error out j = Some b ->
              score a == score b -> (p < q)%nat).
Proof.
  intros out.
  destruct (RankFacts.findBestMatches_rank lower email tpls cat n) as [p Hp].
  fold out in Hp.
  set (tagged := rankTagged lower email n p (tagFrom 0 tpls)).
  assert (Hsnd : map snd tagged = out).
  { unfold tagged. now rewrite RankFacts.rankTagged_snd, RankFacts.tagFrom_snd. }
  assert (Hnth : forall i q m, nth_error (map fst tagged) i = Some q ->
            nth_error out i = Some m -> nth_error tagged i = Some (q, m)).
  { intros i q m Hq Hm. rewrite <- Hsnd in Hm. rewrite nth_error_map in Hq, Hm.
    destruct (nth_error tagged i) as [[q' m']|]; simpl in *; congruence. }
  rewrite Hp. split; [apply RankFacts.rank_length|].
  split; [apply RankFacts.rank_sorted|]. split.
  - eapply Forall_impl; [|apply RankFacts.rank_positive]. simpl. intros m Hm E. lra.
  - rewrite <- Hp. exists (map fst tagged). repeat split.
    + now rewrite <- Hsnd, !length_map.
    + apply RankFacts.rankTagged_NoDup, RankFacts.tagFrom_increasing.
    + intros i q m Hq Hm. specialize (Hnth i q m Hq Hm).
      apply nth_error_In in Hnth.
      assert (HT : Forall (fun x => nth_error tpls (fst x) = Some (snd x))
                          (tagFrom 0 tpls)).
      { eapply Forall_impl; [|apply (RankFacts.tagFrom_nth tpls 0)].
        simpl. intros x [_ Hx]. now rewrite Nat.sub_0_r in Hx. }
      apply (@RankFacts.rankTagged_Forall lower email
               (fun q t => nth_error tpls q = Some t) n p) in HT.
      rewrite Forall_forall in HT. apply (HT (q, m) Hnth).
    + intros i j q1 q2 a b Hij Hq1 Hq2 Ha Hb Hab.
      pose proof (@RankFacts.rankTagged_stable lower email n p _
                    (RankFacts.tagFrom_increasing tpls 0)) as HS.
      apply (ForallOrdPairs_nth HS Hij (Hnth i q1 a Hq1 Ha) (Hnth j q2 b Hq2 Hb)).
      exact Hab.
Qed.

End Retriever.

(** ** The service *)

Section Service.
Import ZhipuAIService.
Variable host : Host.
Variable prompts : Prompts.
Variable net : Network.

Lemma attemptOnce_spec (svc : t) (request : ZhipuRequest) (w : World) :
  attemptOnce net svc request w
  = (attemptResult net svc request (fetches w),
     {| fetches := S (fetches w);
        trace := trace w ++ attemptTrace net svc request (fetches w) |}).
Proof.
  unfold attemptResult, attemptTrace, attemptOnce, bind, emit, fetch, lift,
    ret, throw. simpl.
  destruct (net (fetches w) request) as [e|r]; simpl.
  - now rewrite <- app_assoc.
  - destruct (ok r); simpl.
    + destruct (body_json r) as [data|e]; simpl.
      * destruct (choices data) as [[|c cs]|]; simpl; now rewrite <- !app_assoc.
      * now rewrite <- !app_assoc.
    + destruct (body_text r); simpl; now rewrite <- !app_assoc.
Qed.

(** An attempt as a function of what the network answers to its request. *)
Lemma attempt_by_answer (svc : t) (request : ZhipuRequest) (i : nat) :
  let authorization := js "Bearer " ++ apiKey svc in
  match net i request with
  | Rejects e =>
    attemptResult net svc request i = Throw e
    /\ attemptTrace net svc request i
       = [EvAbortTimer i 90000; EvFetch authorization request i]
  | Resolves r =>
    attemptTrace net svc request i
    = [EvAbortTimer i 90000; EvFetch authorization request i; EvClearTimer i]
    /\ attemptResult net svc request i
       = if ok r then
           match body_json r with
           | Ok data =>
             match choices data with
             | Some (first :: _) => Ok first
             | _ => Throw (Error (js "No response from Zhipu AI"))
             end
           | Throw e => Throw e
           end
         else
           match body_text r with
           | Ok error =>
             Throw (Error (js "Zhipu AI API error: " ++ decimal (status r)
                           ++ js " - " ++ error))
           | Throw e => Throw e
           end
  end.
Proof.
  unfold attemptResult, attemptTrace, attemptOnce, newAbortController, bind,
    emit, fetch, lift, ret, throw. cbn [fetches trace fst snd app].
  destruct (net i request) as [e|r]; cbn [fetches trace fst snd app];
    [now split|].
  destruct (ok r); cbn [negb].
  - destruct (body_json r) as [data|e]; [|now split].
    destruct (choices data) as [[|c cs]|]; now split.
  - destruct (body_text r); now split.
Qed.

Lemma isTimeout_Error (msg : jsstring) : isTimeout (Error msg) = false.
Proof. reflexivity. Qed.

(** The three iterations of the loop of [chat], spelled out. *)
Lemma chat_unfold (svc : t) (msgs : list ZhipuMessage) (temp : Q) (w : World) :
  let request := {| model := js "glm-4.6"; messages := msgs;
                    temperature := temp; stream := false |} in
  let i := fetches w in
  let after k := {| fetches := i + k;
                    trace := trace w ++ retryTrace net svc request i k |} in
  chat net svc msgs temp defaultRetries w =
  match attemptResult net svc request i with
  | Ok s => (Ok s, after 1%nat)
  | Throw e =>
    if isTimeout e then
      match attemptResult net svc request (S i) with
      | Ok s => (Ok s, after 2%nat)
      | Throw e' =>
        if isTimeout e'
        then (attemptResult net svc request (S (S i)), after 3%nat)
        else (Throw e', after 2%nat)
      end
    else (Throw e, after 1%nat)
  end.
Proof.
  intros request i after. unfold chat, defaultRetries. fold request.
  unfold after, i. cbn [chatLoop]. unfold try_catch at 1.
  rewrite attemptOnce_spec.
  replace (fetches w + 1)%nat with (S (fetches w)) by lia.
  replace (fetches w + 2)%nat with (S (S (fetches w))) by lia.
  replace (fetches w + 3)%nat with (S (S (S (fetches w)))) by lia.
  destruct (attemptResult net svc request (fetches w)) as [s|e]; [reflexivity|].
  cbn [Nat.ltb Nat.leb andb]. destruct (isTimeout e); [|reflexivity].
  unfold bind at 1, emit at 1. unfold try_catch at 1.
  rewrite attemptOnce_spec. cbn [fetches trace].
  destruct (attemptResult net svc request (S (fetches w))) as [s|e'].
  { cbn [retryTrace]. now rewrite <- !app_assoc. }
  destruct (isTimeout e').
  - unfold bind at 1, emit at 1. unfold try_catch at 1.
    rewrite attemptOnce_spec. cbn [fetches trace retryTrace].
    destruct (attemptResult net svc request (S (S (fetches w)))) as [s|e''].
    + now rewrite <- !app_assoc.
    + cbn [Nat.ltb Nat.leb andb]. unfold throw. now rewrite <- !app_assoc.
  - cbn [Nat.ltb Nat.leb andb]. unfold throw. cbn [retryTrace].
    now rewrite <- !app_assoc.
Qed.

Ltac conjs := repeat match goal with |- _ /\ _ => split end.

Ltac attempt_case :=
  conjs; try lia; try assumption; try congruence;
  let j := fresh "j" in
  intros j; intros; destruct j as [|[|[|j]]];
  rewrite ?Nat.add_succ_r, ?Nat.add_0_r in *;
  first [ lia | congruence | (eexists; split; eassumption)
        | (split; [lia | congruence]) ].

(** The attempts of a call with the default two retries. *)
Lemma chat_retry_cases (svc : t) (msgs : list ZhipuMessage) (temp : Q)
    (w : World) :
  let request := {| model := js "glm-4.6"; messages := msgs;
                    temperature := temp; stream := false |} in
  let i := fetches w in
  let res := fst (chat net svc msgs temp defaultRetries w) in
  let w' := snd (chat net svc msgs temp defaultRetries w) in
  exists k : nat,
    (1 <= k <= 3)%nat
    /\ fetches w' = (i + k)%nat
    /\ trace w' = trace w ++ retryTrace net svc request i k
    /\ res = attemptResult net svc request (i + k - 1)
    /\ (forall j, (j < k - 1)%nat ->
          exists e, attemptResult net svc request (i + j) = Throw e
                    /\ isTimeout e = true)
    /\ (forall j e, (j < k)%nat ->
          attemptResult net svc request (i + j) = Throw e ->
          isTimeout e = false -> j = (k - 1)%nat /\ res = Throw e)
    /\ (forall e, res = Throw e -> isTimeout e = true -> k = 3%nat).
Proof.
  intros request i res w'. unfold res, w'. rewrite chat_unfold.
  fold request. fold i.
  destruct (attemptResult net svc request i) as [s|e] eqn:E0.
  { exists 1%nat. cbn [fst snd fetches trace].
    replace (i + 1 - 1)%nat with i by lia. attempt_case. }
  destruct (isTimeout e) eqn:T0.
  2:{ exists 1%nat. cbn [fst snd fetches trace].
      replace (i + 1 - 1)%nat with i by lia. attempt_case. }
  destruct (attemptResult net svc request (S i)) as [s|e'] eqn:E1.
  { exists 2%nat. cbn [fst snd fetches trace].
    replace (i + 2 - 1)%nat with (S i) by lia. attempt_case. }
  destruct (isTimeout e') eqn:T1.
  2:{ exists 2%nat. cbn [fst snd fetches trace].
      replace (i + 2 - 1)%nat with (S i) by lia. attempt_case. }
  exists 3%nat. cbn [fst snd fetches trace].
  replace (i + 3 - 1)%nat with (S (S i)) by lia. attempt_case.
Qed.

(** C9. A chat call makes between one and three attempts. Every attempt
    arms a 90000 ms abort timer on a controller of its own and then makes
    its request with the signal of that controller; the timer is cleared
    only once the request has been answered. An attempt is followed by
    another one, after a 2000 ms pause, exactly when it failed with a timeout
    or abort error and fewer than two retries were made. The call returns
    what its last attempt returned. An answer with a status that is not 2xx
    makes the attempt throw the API error with that status, an answer
    without choices makes it throw [No response from Zhipu AI], and both end
    the call at once, without a retry; an error met while the body of an
    answer is read is the error of the attempt; a timeout error is thrown
    only by the third attempt. *)
Theorem chat_retry_policy (svc : t) (msgs : list ZhipuMessage) (temp : Q)
    (w : World) :
  let request := {| model := js "glm-4.6"; messages := msgs;
                    temperature := temp; stream := false |} in
  let authorization := js "Bearer " ++ apiKey svc in
  let i := fetches w in
  let res := fst (chat net svc msgs temp defaultRetries w) in
  let w' := snd (chat net svc msgs temp defaultRetries w) in
  exists k : nat,
    (1 <= k <= 3)%nat
    /\ fetches w' = (i + k)%nat
    /\ trace w' = trace w ++ retryTrace net svc request i k
    /\ res = attemptResult net svc request (i + k - 1)
    /\ (forall j, (j < k - 1)%nat ->
          exists e, attemptResult net svc request (i + j) = Throw e
                    /\ isTimeout e = true)
    /\ (forall j e, (j < k)%nat ->
          attemptResult net svc request (i + j) = Throw e ->
          isTimeout e = false -> j = (k - 1)%nat /\ res = Throw e)
    /\ (forall e, res = Throw e -> isTimeout e = true -> k = 3%nat)
    /\ (forall e, isTimeout e = true
                  <-> name e = js "AbortError" \/ name e = js "TimeoutError")
    /\ (forall j e, net j request = Rejects e ->
          attemptResult net svc request j = Throw e
          /\ attemptTrace net svc request j
             = [EvAbortTimer j 90000; EvFetch authorization request j])
    /\ (forall j r, net j request = Resolves r ->
          attemptTrace net svc request j
          = [EvAbortTimer j 90000; EvFetch authorization request j;
             EvClearTimer j])
    /\ (forall j r error,
          net j request = Resolves r -> ok r = false ->
          body_text r = Ok error ->
          attemptResult net svc request j
          = Throw (Error (js "Zhipu AI API error: " ++ decimal (status r)
                          ++ js " - " ++ error)))
    /\ (forall j r data,
          net j request = Resolves r -> ok r = true ->
          body_json r = Ok data ->
          attemptResult net svc request j
          = match choices data with
            | Some (first :: _) => Ok first
            | _ => Throw (Error (js "No response from Zhipu AI"))
            end)
    /\ (forall j r e,
          net j request = Resolves r ->
          (ok r = false /\ body_text r = Throw e)
          \/ (ok r = true /\ body_json r = Throw e) ->
          attemptResult net svc request j = Throw e)
    /\ (forall j r,
          (j < k)%nat -> net (i + j)%nat request = Resolves r ->
          (ok r = false /\ exists error, body_text r = Ok error)
          \/ (ok r = true
              /\ exists data, body_json r = Ok data
                              /\ (choices data = None \/ choices data = Some [])) ->
          j = (k - 1)%nat /\ exists msg, res = Throw (Error msg)).
Proof.
  intros request authorization i res w'.
  destruct (chat_retry_cases svc msgs temp w)
    as (k & Hk & Hf & Ht & Hres & Hearlier & Hother & Hlast).
  fold request in Ht, Hres, Hearlier, Hother. fold i in Hf, Ht, Hres, Hearlier, Hother.
  fold res in Hres, Hother, Hlast. fold w' in Hf, Ht.
  assert (Hstatus : forall j r error,
            net j request = Resolves r -> ok r = false ->
            body_text r = Ok error ->
            attemptResult net svc request j
            = Throw (Error (js "Zhipu AI API error: " ++ decimal (status r)
                            ++ js " - " ++ error))).
  { intros j r error Hnet Hok Htext.
    pose proof (attempt_by_answer svc request j) as H. cbv zeta in H.
    rewrite Hnet, Hok, Htext in H. apply H. }
  assert (Hchoices : forall j r data,
            net j request = Resolves r -> ok r = true ->
            body_json r = Ok data ->
            attemptResult net svc request j
            = match choices data with
              | Some (first :: _) => Ok first
              | _ => Throw (Error (js "No response from Zhipu AI"))
              end).
  { intros j r data Hnet Hok Hjson.
    pose proof (attempt_by_answer svc request j) as H. cbv zeta in H.
    rewrite Hnet, Hok, Hjson in H. apply H. }
  exists k. conjs; try assumption; try lia.
  - intros e. unfold isTimeout. now rewrite orb_true_iff, !str_eqb_eq.
  - intros j e Hnet.
    pose proof (attempt_by_answer svc request j) as H. cbv zeta in H.
    rewrite Hnet in H. exact H.
  - intros j r Hnet.
    pose proof (attempt_by_answer svc request j) as H. cbv zeta in H.
    rewrite Hnet in H. apply H.
  - intros j r e Hnet Hbody.
    pose proof (attempt_by_answer svc request j) as H. cbv zeta in H.
    rewrite Hnet in H.
    destruct Hbody as [[Hok Hb] | [Hok Hb]]; rewrite Hok, Hb in H; apply H.
  - intros j r Hj Hnet [[Hok [error Htext]] | [Hok [data [Hjson Hnone]]]].
    + destruct (Hother j _ Hj (Hstatus _ _ _ Hnet Hok Htext)
                  (isTimeout_Error _)) as [E1 E2].
      split; [exact E1 | eexists; exact E2].
    + assert (Hr : attemptResult net svc request (i + j)
                   = Throw (Error (js "No response from Zhipu AI"))).
      { rewrite (Hchoices _ _ _ Hnet Hok Hjson).
        destruct Hnone as [-> | ->]; reflexivity. }
      destruct (Hother j _ Hj Hr (isTimeout_Error _)) as [E1 E2].
      split; [exact E1 | eexists; exact E2].
Qed.

Lemma findBestMatches_head_max (lower : jsstring -> jsstring)
    (r : TemplateRetriever.t) (email : ProcessedEmail) (cat : jsstring)
    (limit : Z) (first : TemplateMatch) (rest : list TemplateMatch) :
  TemplateRetriever.findBestMatches lower r email cat limit = first :: rest ->
  forall m, In m (first :: rest) -> score m <= score first.
Proof.
  unfold TemplateRetriever.findBestMatches. intros E m Hm.
  destruct (slice0_firstn
              (sort TemplateRetriever.byScoreDesc
                 (filter (fun m => (0 <? Qnum (score m))%Z)
                    (map (TemplateRetriever.scoreTemplate lower email)
                       (TemplateRetriever.getCandidates lower r cat)))) limit)
    as [k Hk].
  rewrite Hk in E.
  pose proof (StronglySorted_firstn k (sort_sorted score
    (filter (fun m => (0 <? Qnum (score m))%Z)
       (map (TemplateRetriever.scoreTemplate lower email)
          (TemplateRetriever.getCandidates lower r cat))))) as HS.
  change (byKeyDesc score) with TemplateRetriever.byScoreDesc in HS.
  rewrite E in HS. inversion HS as [|? ? _ HF]; subst.
  destruct Hm as [<- | Hm]; [lra|].
  rewrite Forall_forall in HF. now apply HF.
Qed.



(** C3. When the reply to the analysis request does not parse as JSON once
    a surrounding code fence is removed, [analyzeEmail] returns normally the
    default analysis: important, in the follow-up category, with a reasoning
    text that is not empty. *)
Theorem analyzeEmail_parse_failure (svc : t) (email : ProcessedEmail)
    (w w1 : World) (reply : jsstring) :
  chat net svc (analysisMessages prompts svc email) defaultTemperature
       defaultRetries w = (Ok reply, w1) ->
  JSON_parse host (stripCodeFence (trim reply)) = None ->
  analyzeEmail host prompts net svc email w = (Ok defaultAnalysis, w1)
  /\ Coerce.getProp defaultAnalysis (js "isImportant") = Ok (Some (JBool true))
  /\ Coerce.getProp defaultAnalysis (js "category")
     = Ok (Some (JStr (js "信息收集与跟进")))
  /\ exists reasoning,
       Coerce.getProp defaultAnalysis (js "reasoning") = Ok (Some (JStr reasoning))
       /\ reasoning <> [].
Proof.
  intros Hchat Hparse. conjs.
  - unfold analyzeEmail, bind. rewrite Hchat.
    unfold try_catch, parseJSON. now rewrite Hparse.
  - reflexivity.
  - reflexivity.
  - eexists. split; [reflexivity | discriminate].
Qed.

(** C4. When the reply to the selection request does not parse and there is
    at least one candidate, [selectTemplateWithReasoning] returns the first
    entry of [findBestMatches], whose score no other candidate exceeds, with
    the fixed fallback reasoning; [generateResponse] goes on to personalise
    that template. *)
Theorem selection_parse_failure_falls_back (svc : t) (r : TemplateRetriever.t)
    (email : ProcessedEmail) (a : Analysis.t) (cat : jsstring)
    (first : TemplateMatch) (rest : list TemplateMatch)
    (w w1 : World) (reply : jsstring) :
  templateRetriever svc = Some r ->
  Analysis.category a = Some cat -> cat <> [] ->
  TemplateRetriever.findBestMatches (toLowerCase host) r email cat 10
    = first :: rest ->
  chat net svc
       (selectionMessages prompts email cat (Analysis.intent a)
          (Analysis.keywords a) (Analysis.suggestedTemplate a) (first :: rest))
       (3 # 10) defaultRetries w = (Ok reply, w1) ->
  JSON_parse host (stripCodeFence (trim reply)) = None ->
  let fallback :=
    {| sel_template := template first;
       sel_scenario := scenario (template first);
       sel_score := score first;
       sel_reasoning := Some (JStr fallbackReasoning) |} in
  selectTemplateWithReasoning host prompts net svc r email cat
    (Analysis.intent a) (Analysis.keywords a) (Analysis.suggestedTemplate a) w
  = (Ok (Some fallback), w1)
  /\ (forall m, In m (first :: rest) -> score m <= score first)
  /\ generateResponse host prompts net svc email a true w
     = bind (personalizeTemplate prompts net svc
               (TemplateRetriever.getTemplateContent (template first)
                  (detectedLanguageOf a))
               email (detectedLanguageOf a) (Analysis.intent a)
               (Analysis.keywords a))
            (fun personalizedResponse =>
               ret {| response := personalizedResponse;
                      language := detectedLanguageOf a;
                      matchedTemplates :=
                        Some [{| mt_id := id (template first);
                                 mt_scenario := scenario (template first);
                                 mt_score := score first |}] |})
            w1.
Proof.
  intros Hr Hcat Hne Hall Hchat Hparse fallback.
  assert (Hsel : selectTemplateWithReasoning host prompts net svc r email cat
            (Analysis.intent a) (Analysis.keywords a)
            (Analysis.suggestedTemplate a) w = (Ok (Some fallback), w1)).
  { unfold selectTemplateWithReasoning. rewrite Hall.
    unfold try_catch, bind at 1. rewrite Hchat.
    unfold bind at 1, parseJSON. now rewrite Hparse. }
  conjs.
  - exact Hsel.
  - eapply findBestMatches_head_max. exact Hall.
  - unfold generateResponse. rewrite Hr, Hcat.
    destruct cat as [|c cat']; [contradiction|].
    unfold bind at 1. rewrite Hsel. reflexivity.
Qed.






End Service.

(** ** Worked examples *)

Lemma asciiLower_idempotent (s : jsstring) : asciiLower (asciiLower s) = asciiLower s.
Proof.
  unfold asciiLower. rewrite map_map. apply map_ext. intros c.
  destruct (N.leb 65 c && N.leb c 90) eqn:E; [|now rewrite E].
  apply andb_true_iff in E as [E1 E2]. apply N.leb_le in E1, E2.
  assert (H : N.leb (c + 32) 90 = false) by (apply N.leb_gt; lia).
  now rewrite H, andb_false_r.
Qed.

Section Examples.
Import TemplateRetriever ZhipuAIService.


Lemma refund_keyword_scores_three_witness :
  3 <= score (scoreTemplate asciiLower Demo.email Demo.refundTemplate).
Proof.
  refine (proj2 (proj2 (@refund_keyword_scores_three asciiLower
                   Demo.refundTemplate Demo.email asciiLower_idempotent
                   eq_refl _ _))).
  - simpl. left. reflexivity.
  - vm_compute. right. right. left. reflexivity.
Defined.

Lemma exact_category_takes_precedence_witness :
  getCandidates asciiLower (new asciiLower Demo.corpus) (js "退款相关")
  = [Demo.refundTemplate; Demo.orderTemplate].
Proof.
  refine (eq_trans (proj1 (proj2 (@exact_category_takes_precedence asciiLower
                     Demo.corpus (js "退款相关") _))) _).
  - vm_compute. left. reflexivity.
  - reflexivity.
Defined.

Lemma unmatched_category_uses_whole_corpus_witness :
  getCandidates asciiLower (new asciiLower Demo.corpus) (js "billing")
  = Demo.corpus.
Proof.
  refine (proj1 (@unmatched_category_uses_whole_corpus asciiLower Demo.corpus
                   Demo.email (js "billing") 10 _)).
  intros k Hk. vm_compute in Hk.
  destruct Hk as [<- | [<- | []]]; (split; [discriminate | split; reflexivity]).
Defined.

Lemma analyzeEmail_parse_failure_witness :
  fst (analyzeEmail Demo.host Demo.prompts (Demo.scripted [Demo.replyGarbage])
         Demo.service Demo.email Demo.start)
  = Ok defaultAnalysis.
Proof.
  refine (f_equal fst (proj1 (@analyzeEmail_parse_failure Demo.host Demo.prompts
            (Demo.scripted [Demo.replyGarbage]) Demo.service Demo.email
            Demo.start {| fetches := 1; trace := _ |} Demo.replyGarbage _ _))).
  - vm_compute. reflexivity.
  - reflexivity.
Defined.

Lemma selection_parse_failure_falls_back_witness :
  fst (selectTemplateWithReasoning Demo.host Demo.prompts
         (Demo.scripted [Demo.replyGarbage]) Demo.service Demo.retriever
         Demo.email (js "退款相关") (Analysis.intent Demo.analysis)
         (Analysis.keywords Demo.analysis)
         (Analysis.suggestedTemplate Demo.analysis) Demo.start)
  = Ok (Some {| sel_template := Demo.orderTemplate;
                sel_scenario := scenario Demo.orderTemplate;
                sel_score := score Demo.best;
                sel_reasoning := Some (JStr fallbackReasoning) |}).
Proof.
  refine (f_equal fst (proj1 (@selection_parse_failure_falls_back Demo.host
            Demo.prompts (Demo.scripted [Demo.replyGarbage]) Demo.service
            Demo.retriever Demo.email Demo.analysis (js "退款相关")
            Demo.best [Demo.runnerUp] Demo.start
            {| fetches := 1; trace := _ |} Demo.replyGarbage
            eq_refl eq_refl _ _ _ _))).
  - discriminate.
  - vm_compute. reflexivity.
  - vm_compute. reflexivity.
  - reflexivity.
Defined.





(** The model at work on small inputs. *)

Example split_runs :
  split isWhiteSpace (js " a  bc ") = [js ""; js "a"; js "bc"; js ""].
Proof. reflexivity. Qed.

Example extractKeywords_example :
  extractKeywords asciiLower (js "Help! I want a REFUND, a refund for order_7")
  = [js "help"; js "want"; js "refund"; js "for"; js "order_7"].
Proof. reflexivity. Qed.

Example slice0_negative : slice0 [1; 2; 3]%nat (-1) = [1; 2]%nat.
Proof. reflexivity. Qed.

Example stripCodeFence_json :
  stripCodeFence (js "```json" ++ newline ++ js "{}" ++ newline ++ js "```")
  = js "{}".
Proof. reflexivity. Qed.

Example refund_scores_three :
  score (scoreTemplate asciiLower Demo.email Demo.refundTemplate) == 3.
Proof. reflexivity. Qed.

Example ranking_example :
  map (fun m => id (template m))
      (findBestMatches asciiLower Demo.retriever Demo.email (js "退款相关") 10)
  = [js "T3"; js "T1"].
Proof. reflexivity. Qed.

Example ties_keep_corpus_order :
  map (fun m => id (template m))
      (findBestMatches asciiLower
         (new asciiLower [Demo.refundTwin; Demo.playbackTemplate;
                          Demo.refundTemplate])
         Demo.email (js "退款相关") 3)
  = [js "T4"; js "T1"]
  /\ map (fun m => id (template m))
       (findBestMatches asciiLower
          (new asciiLower [Demo.refundTemplate; Demo.refundTwin])
          Demo.email (js "refunds") 3)
     = [js "T1"; js "T4"].
Proof. split; reflexivity. Qed.

Example chat_retries_timeouts :
  let run := chat (Demo.flaky 2 (js "hello")) Demo.service [] (3 # 10)
               defaultRetries Demo.start in
  fst run = Ok (js "hello")
  /\ fetches (snd run) = 3%nat
  /\ filter (fun ev => match ev with EvSleep _ => true | _ => false end)
            (trace (snd run))
     = [EvSleep 2000; EvSleep 2000].
Proof. repeat split; reflexivity. Qed.

Example chat_gives_up_after_three_timeouts :
  let run := chat (Demo.flaky 5 (js "hello")) Demo.service [] (3 # 10)
               defaultRetries Demo.start in
  fst run = Throw Demo.abortError /\ fetches (snd run) = 3%nat.
Proof. split; reflexivity. Qed.

Example chat_does_not_retry_http_errors :
  let run := chat Demo.failing Demo.service [] (3 # 10) defaultRetries
               Demo.start in
  fst run = Throw (Error (js "Zhipu AI API error: 500 - busy"))
  /\ fetches (snd run) = 1%nat.
Proof. split; reflexivity. Qed.

Example fallback_then_personalised :
  let run := generateResponse Demo.host Demo.prompts
               (Demo.scripted [Demo.replyGarbage; js " Dear user "])
               Demo.service Demo.email Demo.analysis true Demo.start in
  match fst run with
  | Ok res =>
    response res = js "Dear user"
    /\ option_map (map mt_id) (matchedTemplates res) = Some [js "T3"]
  | Throw _ => False
  end.
Proof. split; reflexivity. Qed.

(** Scenario words are compared after lower-casing. *)
Example scenario_words_are_lower_cased :
  score (scoreTemplate asciiLower Demo.email Demo.capitalTemplate) == 1 # 2.
Proof. reflexivity. Qed.

(** The whole corpus can be the candidate set and yet nothing be returned,
    when no template scores above 0. *)
Example whole_corpus_without_match :
  getCandidates asciiLower (new asciiLower [Demo.playbackTemplate]) (js "billing")
  = [Demo.playbackTemplate]
  /\ findBestMatches asciiLower (new asciiLower [Demo.playbackTemplate])
       Demo.email (js "billing") 3 = [].
Proof. split; reflexivity. Qed.

(** A reply that is the JSON value [null] has no property to read: the
    error is caught and the first candidate is used. *)
Example null_reply_falls_back :
  fst (selectTemplateWithReasoning
         {| toLowerCase := asciiLower; JSON_parse := Demo.parseWithNull;
            StringToNumber := fun _ => NaN;
            NumberToString := Demo.numberText |}
         Demo.prompts (Demo.scripted [Demo.replyJsonNull]) Demo.service
         Demo.retriever Demo.email (js "退款相关") None None None Demo.start)
  = Ok (Some {| sel_template := Demo.orderTemplate;
                sel_scenario := scenario Demo.orderTemplate;
                sel_score := score Demo.best;
                sel_reasoning := Some (JStr fallbackReasoning) |}).
Proof. reflexivity. Qed.

(** Without any candidate the oracle is not asked and the outcome is the
    manual-review notice. *)
Example no_candidate_is_manual_review :
  let run := generateResponse Demo.host Demo.prompts (Demo.scripted [])
               {| apiKey := js "key";
                  templateRetriever := Some (new asciiLower [Demo.playbackTemplate]) |}
               Demo.email Demo.analysis true Demo.start in
  fetches (snd run) = 0%nat
  /\ match fst run with
     | Ok res => matchedTemplates res = None
                 /\ startsWith (response res) (js "📝 需要人工审核") = true
     | Throw _ => False
     end.
Proof. repeat split; reflexivity. Qed.

End Examples.

(** * Further properties of the retriever *)

Ltac conjs := repeat match goal with |- _ /\ _ => split end.

Section RetrieverIndexes.
Import TemplateRetriever.
Variable lower : jsstring -> jsstring.

Lemma map_has_keys {V} (m : Map V) (k : jsstring) :
  map_has m k = array_includes (map_keys m) k.
Proof.
  unfold map_has. destruct (map_get m k) eqn:E.
  - symmetry. apply array_includes_In.
    destruct (in_dec (list_eq_dec N.eq_dec) k (map_keys m)) as [H|H];
      [assumption|]. apply map_get_None in H. congruence.
  - symmetry. apply array_includes_false. now apply map_get_None.
Qed.

Lemma categoryFold_keys (tpls : list Template) :
  forall index,
    map_keys (categoryFold index tpls)
    = fold_left
        (fun seen w => if array_includes seen w then seen else seen ++ [w])
        (map category tpls) (map_keys index).
Proof.
  induction tpls as [|tpl tpls IH]; intros index; simpl; [reflexivity|].
  unfold categoryFold in *. simpl. rewrite IH.
  now rewrite IndexFacts.index_push_keys, map_has_keys.
Qed.

(** X1. The categories of a store are the categories of its corpus, each
    listed once, in the order of their first template. *)
Theorem getCategories_first_occurrences (tpls : list Template) :
  getCategories (new lower tpls) = dedupe (map category tpls)
  /\ NoDup (getCategories (new lower tpls))
  /\ forall c, In c (getCategories (new lower tpls))
               <-> exists tpl, In tpl tpls /\ category tpl = c.
Proof.
  assert (E : getCategories (new lower tpls) = dedupe (map category tpls)).
  { unfold getCategories.
    replace (categoryIndex (new lower tpls))
      with (fst (buildIndexes lower tpls))
      by (unfold new; now destruct (buildIndexes lower tpls)).
    rewrite IndexFacts.buildIndexes_fst, categoryFold_keys. reflexivity. }
  split; [exact E|]. split.
  - apply (IndexFacts.new_categoryIndex lower tpls).
  - intros c. rewrite E, dedupe_In, in_map_iff. split.
    + intros (tpl & H1 & H2). now exists tpl.
    + intros (tpl & H1 & H2). now exists tpl.
Qed.

(** X2. [getTemplatesByCategory] returns the templates of the corpus whose
    category is the requested one, in corpus order; for a category no
    template has, that is the empty list. *)
Theorem getTemplatesByCategory_filter (tpls : list Template) (cat : jsstring) :
  getTemplatesByCategory (new lower tpls) cat
  = filter (fun tpl => str_eqb (category tpl) cat) tpls
  /\ (~ In cat (map category tpls) ->
      getTemplatesByCategory (new lower tpls) cat = []).
Proof.
  assert (E : getTemplatesByCategory (new lower tpls) cat
              = filter (inCategory cat) tpls).
  { unfold getTemplatesByCategory. rewrite IndexFacts.categoryIndex_get.
    now destruct (filter (inCategory cat) tpls). }
  split; [exact E|]. intros Hno. rewrite E. clear E.
  induction tpls as [|tpl tpls IH]; simpl; [reflexivity|].
  unfold inCategory at 1. destruct (str_eqb (category tpl) cat) eqn:C.
  - apply str_eqb_eq in C. exfalso. apply Hno. simpl. now left.
  - apply IH. intros H. apply Hno. simpl. now right.
Qed.

Lemma optNonEmpty_snoc {A} (l : list A) (x : A) :
  Some (match optNonEmpty l with Some arr => arr | None => [] end ++ [x])
  = optNonEmpty (l ++ [x]).
Proof. destruct l; reflexivity. Qed.

Lemma keyword_pushes (tpl : Template) (kws : list jsstring) :
  forall (index : Map (list Template)) (base : jsstring -> list Template),
    (forall k, map_get index k = optNonEmpty (base k)) ->
    forall k,
      map_get
        (fold_left (fun kidx keyword => index_push kidx (lower keyword) tpl)
                   kws index) k
      = optNonEmpty
          (base k
           ++ map (fun _ => tpl) (filter (fun kw => str_eqb (lower kw) k) kws)).
Proof.
  induction kws as [|kw kws IH]; intros index base H k; simpl.
  - now rewrite app_nil_r.
  - rewrite (IH _ (fun k => base k ++ if str_eqb (lower kw) k then [tpl] else [])).
    + destruct (str_eqb (lower kw) k); simpl; now rewrite <- app_assoc.
    + intros k'. rewrite IndexFacts.index_push_get.
      destruct (str_eqb (lower kw) k') eqn:E.
      * apply str_eqb_eq in E. subst k'. rewrite H. apply optNonEmpty_snoc.
      * now rewrite app_nil_r.
Qed.

Lemma keywordFold_get (tpls : list Template) :
  forall (index : Map (list Template)) (done : list Template),
    (forall k, map_get index k = optNonEmpty (flat_map (keywordHits lower k) done)) ->
    forall k,
      map_get (keywordFold lower index tpls) k
      = optNonEmpty (flat_map (keywordHits lower k) (done ++ tpls)).
Proof.
  induction tpls as [|tpl tpls IH]; intros index done H k; simpl.
  - now rewrite app_nil_r.
  - replace (done ++ tpl :: tpls) with ((done ++ [tpl]) ++ tpls)
      by now rewrite <- app_assoc.
    unfold keywordFold in *. simpl. apply IH. intros k'.
    rewrite (keyword_pushes tpl (keywords tpl) index
               (fun k => flat_map (keywordHits lower k) done) H).
    rewrite flat_map_app. simpl. now rewrite app_nil_r.
Qed.

Lemma buildIndexes_snd (tpls : list Template) :
  snd (buildIndexes lower tpls) = keywordFold lower [] tpls.
Proof.
  unfold buildIndexes, keywordFold.
  generalize (@nil (jsstring * list Template)) at 2 3.
  generalize (@nil (jsstring * list Template)).
  induction tpls as [|tpl tpls IH]; intros cidx kidx; simpl; [reflexivity|].
  apply IH.
Qed.

(** X3. [searchByKeyword] returns, in corpus order, the templates that have
    a keyword equal to the searched one after lower-casing, once for each
    such keyword; two searches that lower-case alike return the same list. *)
Theorem searchByKeyword_hits (tpls : list Template) (keyword : jsstring) :
  searchByKeyword lower (new lower tpls) keyword
  = flat_map (keywordHits lower (lower keyword)) tpls
  /\ (forall tpl, In tpl (searchByKeyword lower (new lower tpls) keyword)
        <-> In tpl tpls
            /\ exists kw, In kw (keywords tpl) /\ lower kw = lower keyword)
  /\ (forall keyword', lower keyword' = lower keyword ->
        searchByKeyword lower (new lower tpls) keyword'
        = searchByKeyword lower (new lower tpls) keyword).
Proof.
  assert (E : forall kw, searchByKeyword lower (new lower tpls) kw
                         = flat_map (keywordHits lower (lower kw)) tpls).
  { intros kw. unfold searchByKeyword.
    replace (keywordIndex (new lower tpls)) with (snd (buildIndexes lower tpls))
      by (unfold new; now destruct (buildIndexes lower tpls)).
    rewrite buildIndexes_snd.
    rewrite (keywordFold_get tpls [] [] (fun _ => eq_refl)). simpl.
    now destruct (flat_map (keywordHits lower (lower kw)) tpls). }
  split; [apply E|]. split.
  - intros tpl. rewrite E, in_flat_map. unfold keywordHits. split.
    + intros (t0 & Hin & Hhit). apply in_map_iff in Hhit as (kw & <- & Hkw).
      apply filter_In in Hkw as [Hkw Heq]. apply str_eqb_eq in Heq.
      split; [assumption|]. now exists kw.
    + intros (Hin & kw & Hkw & Heq). exists tpl. split; [assumption|].
      apply in_map_iff. exists kw. split; [reflexivity|].
      apply filter_In. split; [assumption|]. now apply str_eqb_eq.
  - intros keyword' Heq. now rewrite !E, Heq.
Qed.

(** X4. [getTemplateById] finds a template of the corpus with the given id,
    or nothing when no template has it; when ids are unique, looking up the
    id of a template of the corpus returns that template. *)
Theorem getTemplateById_lookup (tpls : list Template) :
  (forall i tpl, getTemplateById (new lower tpls) i = Some tpl ->
     In tpl tpls /\ id tpl = i)
  /\ (forall i, getTemplateById (new lower tpls) i = None
               <-> ~ In i (map id tpls))
  /\ (NoDup (map id tpls) ->
      forall tpl, In tpl tpls ->
        getTemplateById (new lower tpls) (id tpl) = Some tpl).
Proof.
  unfold getTemplateById. rewrite IndexFacts.new_templates. conjs.
  - intros i tpl H. apply find_some in H as [H1 H2].
    apply str_eqb_eq in H2. now split.
  - intros i. split.
    + intros H Hin. apply in_map_iff in Hin as (tpl & <- & Hin).
      apply (find_none _ _ H) in Hin. now rewrite str_eqb_refl in Hin.
    + intros H. apply find_none_all. intros tpl Hin.
      apply str_eqb_neq. intros E. apply H. apply in_map_iff. now exists tpl.
  - induction tpls as [|t0 tpls' IH]; intros Hnd tpl Hin; [contradiction|].
    simpl in *. inversion Hnd as [|? ? Hnot Hnd']; subst.
    destruct Hin as [-> | Hin]; [now rewrite str_eqb_refl|].
    destruct (str_eqb (id t0) (id tpl)) eqn:E; [|now apply IH].
    apply str_eqb_eq in E. exfalso. apply Hnot. rewrite E.
    apply in_map. assumption.
Qed.

End RetrieverIndexes.

Section RetrieverCandidates.
Import TemplateRetriever.
Variable lower : jsstring -> jsstring.

Lemma find_first_key {V} (p : jsstring * V -> bool) (l : list (jsstring * V))
    (pre post : list jsstring) (k : jsstring) :
  map fst l = pre ++ k :: post ->
  (forall entry, In (fst entry) pre -> p entry = false) ->
  (forall entry, fst entry = k -> p entry = true) ->
  exists v, find p l = Some (k, v) /\ In (k, v) l.
Proof.
  revert l. induction pre as [|k0 pre IH]; intros l Hl Hpre Hk.
  - destruct l as [|[k1 v1] l]; [discriminate|]. simpl in Hl.
    injection Hl as -> _. exists v1. simpl.
    rewrite (Hk (k, v1) eq_refl). split; [reflexivity | now left].
  - destruct l as [|[k1 v1] l]; [discriminate|]. simpl in Hl.
    injection Hl as -> Hl.
    destruct (IH l Hl) as (v & Hf & Hin).
    + intros entry He. apply Hpre. now right.
    + exact Hk.
    + exists v. simpl. rewrite (Hpre (k0, v1) (or_introl eq_refl)).
      split; [assumption | now right].
Qed.

(** X5. When the requested category is not an indexed category,
    [getCandidates] returns the templates of the first indexed category, in
    the order of [getCategories], that contains it or is contained in it
    after lower-casing. *)
Theorem getCandidates_first_similar (tpls : list Template) (cat k : jsstring)
    (pre post : list jsstring) :
  ~ In cat (getCategories (new lower tpls)) ->
  getCategories (new lower tpls) = pre ++ k :: post ->
  (forall k', In k' pre ->
     includes (lower k') (lower cat) = false
     /\ includes (lower cat) (lower k') = false) ->
  includes (lower k) (lower cat) = true
  \/ includes (lower cat) (lower k) = true ->
  getCandidates lower (new lower tpls) cat
  = filter (fun tpl => str_eqb (category tpl) k) tpls.
Proof.
  intros Hno Hkeys Hpre Hk. unfold getCandidates.
  rewrite (proj2 (map_get_None _ _) Hno).
  destruct (@find_first_key _ (similarCategory lower (lower cat))
              (categoryIndex (new lower tpls)) pre post k Hkeys)
    as (v & Hf & Hin).
  - intros entry He. unfold similarCategory.
    destruct (Hpre _ He) as [-> ->]. reflexivity.
  - intros entry <-. unfold similarCategory.
    destruct Hk as [-> | ->]; [reflexivity | apply orb_true_r].
  - rewrite Hf. now apply IndexFacts.categoryIndex_entry in Hin.
Qed.

(** X6. The candidates are templates of the corpus, and there is always at
    least one candidate unless the corpus is empty. *)
Theorem getCandidates_nonempty (tpls : list Template) (cat : jsstring) :
  (forall tpl, In tpl (getCandidates lower (new lower tpls) cat) -> In tpl tpls)
  /\ (getCandidates lower (new lower tpls) cat = [] <-> tpls = []).
Proof.
  split.
  - destruct (IndexFacts.getCandidates_filter lower tpls cat) as [p ->].
    intros tpl H. now apply filter_In in H.
  - split.
    + unfold getCandidates. rewrite IndexFacts.categoryIndex_get.
      destruct (filter (inCategory cat) tpls) as [|t0 l0] eqn:E; [|discriminate].
      destruct (find _ _) as [[k l]|] eqn:F.
      * apply find_some in F as [F _]. intros ->.
        destruct (IndexFacts.new_categoryIndex lower tpls) as [Hnd Hget].
        apply (@map_get_In _ _ _ _ Hnd) in F. rewrite Hget in F.
        destruct (filter (inCategory k) tpls); discriminate.
      * now rewrite IndexFacts.new_templates.
    + intros ->. reflexivity.
Qed.

Lemma dedupe_NoDup (words : list jsstring) : NoDup (dedupe words).
Proof.
  unfold dedupe.
  enough (G : forall seen, NoDup seen ->
            NoDup (fold_left
                     (fun seen w => if array_includes seen w then seen
                                    else seen ++ [w]) words seen)).
  { apply G. constructor. }
  induction words as [|w words IH]; intros seen H; simpl; [assumption|].
  apply IH. destruct (array_includes seen w) eqn:E; [assumption|].
  apply IndexFacts.NoDup_snoc; [assumption|].
  intros Hin. apply array_includes_In in Hin. congruence.
Qed.

Lemma includes_In (s w : jsstring) (c : N) :
  includes s w = true -> In c w -> In c s.
Proof.
  intros H Hc. apply includes_app in H as (pre & post & ->).
  rewrite !in_app_iff. tauto.
Qed.

(** X7. [extractKeywords] returns pairwise distinct tokens; each is longer
    than two code units, is made of word characters and CJK ideographs only,
    and occurs in the lower-cased text. *)
Theorem extractKeywords_tokens (txt : jsstring) :
  NoDup (extractKeywords lower txt)
  /\ forall w, In w (extractKeywords lower txt) ->
       (2 < length w)%nat
       /\ Forall (fun c => isTokenChar c = true) w
       /\ includes (lower txt) w = true.
Proof.
  split; [apply dedupe_NoDup|].
  intros w Hw. split; [|split].
  - unfold extractKeywords in Hw. apply dedupe_In, filter_In in Hw as [_ Hw].
    now apply Nat.ltb_lt.
  - unfold extractKeywords in Hw. apply dedupe_In, filter_In in Hw as [Hw _].
    apply split_In in Hw as [Hinc Hws].
    rewrite Forall_forall in *. intros c Hc.
    pose proof (Hws c Hc) as Hnws.
    pose proof (includes_In _ _ c Hinc Hc) as Hmap.
    apply in_map_iff in Hmap as (c0 & Hc0 & _).
    destruct (isSpecial c0) eqn:S0; [subst c; discriminate|]. subst c0.
    unfold isSpecial in S0. apply negb_false_iff in S0.
    unfold isTokenChar. rewrite Hnws in S0.
    now rewrite orb_false_r in S0.
  - now apply ScoreFacts.extractKeywords_includes.
Qed.

Lemma keywordStep_matched (ek : list jsstring) (et : jsstring)
    (st : Q * list jsstring) (k0 k : jsstring) :
  In k (snd (keywordStep lower ek et st k0))
  <-> In k (snd st)
      \/ (k = k0 /\ (array_includes ek (lower k0) = true
                      \/ includes et (lower k0) = true)).
Proof.
  unfold keywordStep.
  destruct (array_includes ek (lower k0)) eqn:E1,
           (includes et (lower k0)) eqn:E2; simpl.
  - destruct (array_includes (snd st ++ [k0]) k0) eqn:E3.
    + rewrite in_app_iff. simpl. intuition.
    + exfalso. assert (H : In k0 (snd st ++ [k0]))
        by (rewrite in_app_iff; simpl; tauto).
      apply array_includes_In in H. congruence.
  - rewrite in_app_iff. simpl. intuition; congruence.
  - destruct (array_includes (snd st) k0) eqn:E3.
    + apply array_includes_In in E3. intuition; subst; assumption.
    + rewrite in_app_iff. simpl. intuition.
  - intuition; congruence.
Qed.

Lemma fold_keywordStep_matched (ek : list jsstring) (et : jsstring)
    (ks : list jsstring) (k : jsstring) :
  forall st,
    In k (snd (fold_left (keywordStep lower ek et) ks st))
    <-> In k (snd st)
        \/ (In k ks /\ (array_includes ek (lower k) = true
                         \/ includes et (lower k) = true)).
Proof.
  induction ks as [|k0 ks IH]; intros st; simpl; [tauto|].
  rewrite IH, keywordStep_matched. split.
  - intros [[H | [-> H]] | [H1 H2]]; tauto.
  - intros [H | [[<- | H1] H2]]; tauto.
Qed.

(** X8. The matched keywords of a scored template are exactly those of its
    keywords that lower-case to a token of the email or to a substring of
    its text. *)
Theorem matchedKeywords_exact (tpl : Template) (email : ProcessedEmail)
    (k : jsstring) :
  let emailText := emailTextOf lower email in
  In k (matchedKeywords (scoreTemplate lower email tpl))
  <-> In k (keywords tpl)
      /\ (In (lower k) (extractKeywords lower emailText)
          \/ includes emailText (lower k) = true).
Proof.
  intros emailText. unfold scoreTemplate, calculateScore. cbn [matchedKeywords snd].
  rewrite fold_keywordStep_matched. cbn [snd]. fold emailText.
  rewrite array_includes_In. simpl. tauto.
Qed.

End RetrieverCandidates.

Section RetrieverScores.
Import TemplateRetriever.
Variable lower : jsstring -> jsstring.

Lemma inject_nat_succ (n : nat) :
  inject_Z (Z.of_nat (S n)) == inject_Z (Z.of_nat n) + 1.
Proof. rewrite Nat2Z.inj_succ, <- Z.add_1_r, inject_Z_plus. reflexivity. Qed.

Lemma keywordBonus_le (ek : list jsstring) (et k : jsstring) :
  keywordBonus lower ek et k <= 3.
Proof.
  unfold keywordBonus.
  destruct (array_includes ek (lower k)), (includes et (lower k)); lra.
Qed.

Lemma fold_keywordStep_le (ek : list jsstring) (et : jsstring)
    (ks : list jsstring) :
  forall st, fst (fold_left (keywordStep lower ek et) ks st)
             <= fst st + 3 * inject_Z (Z.of_nat (length ks)).
Proof.
  induction ks as [|k ks IH]; intros st; cbn [fold_left length].
  - change (inject_Z (Z.of_nat 0)) with 0. lra.
  - specialize (IH (keywordStep lower ek et st k)).
    pose proof (ScoreFacts.keywordStep_fst lower ek et st k).
    pose proof (keywordBonus_le ek et k).
    pose proof (inject_nat_succ (length ks)). lra.
Qed.

Lemma fold_scenarioStep_le (et : jsstring) (ws : list jsstring) :
  forall sc, fold_left (scenarioStep et) ws sc
             <= sc + (1 # 2) * inject_Z (Z.of_nat (length ws)).
Proof.
  induction ws as [|w ws IH]; intros sc; cbn [fold_left length].
  - change (inject_Z (Z.of_nat 0)) with 0. lra.
  - specialize (IH (scenarioStep et sc w)).
    assert (H : scenarioStep et sc w <= sc + (1 # 2)).
    { unfold scenarioStep.
      destruct ((2 <? length w)%nat && includes et w); lra. }
    pose proof (inject_nat_succ (length ws)). lra.
Qed.

(** Sums of halves. *)
Lemma halves_plus (n k : nat) :
  (Z.of_nat n # 2) + (Z.of_nat k # 2) == Z.of_nat (n + k) # 2.
Proof. unfold Qeq, Qplus. simpl. lia. Qed.

Lemma fold_keywordStep_halves (ek : list jsstring) (et : jsstring)
    (ks : list jsstring) :
  forall st, (exists n : nat, fst st == Z.of_nat n # 2) ->
    exists n : nat,
      fst (fold_left (keywordStep lower ek et) ks st) == Z.of_nat n # 2.
Proof.
  induction ks as [|k ks IH]; intros st H; simpl; [assumption|].
  apply IH. destruct H as [n Hn].
  pose proof (ScoreFacts.keywordStep_fst lower ek et st k) as E.
  unfold keywordBonus in E.
  destruct (array_includes ek (lower k)), (includes et (lower k)).
  - exists (n + 6)%nat. rewrite E, Hn, <- halves_plus. unfold Qeq. simpl. lia.
  - exists (n + 4)%nat. rewrite E, Hn, <- halves_plus. unfold Qeq. simpl. lia.
  - exists (n + 2)%nat. rewrite E, Hn, <- halves_plus. unfold Qeq. simpl. lia.
  - exists n. rewrite E, Hn. unfold Qeq. simpl. lia.
Qed.

Lemma fold_scenarioStep_halves (et : jsstring) (ws : list jsstring) :
  forall sc, (exists n : nat, sc == Z.of_nat n # 2) ->
    exists n : nat, fold_left (scenarioStep et) ws sc == Z.of_nat n # 2.
Proof.
  induction ws as [|w ws IH]; intros sc H; simpl; [assumption|].
  apply IH. destruct H as [n Hn]. unfold scenarioStep.
  destruct ((2 <? length w)%nat && includes et w).
  - exists (n + 1)%nat. rewrite Hn, <- halves_plus. unfold Qeq. simpl. lia.
  - now exists n.
Qed.

(** X9. A score is a whole number of halves, and it is at most three per
    keyword of the template plus one half per word of its scenario. *)
Theorem score_bounded (tpl : Template) (email : ProcessedEmail) :
  let m := scoreTemplate lower email tpl in
  (exists n : nat, score m == Z.of_nat n # 2)
  /\ score m
     <= 3 * inject_Z (Z.of_nat (length (keywords tpl)))
        + (1 # 2) * inject_Z (Z.of_nat (length (split isScenarioSep
                                                  (lower (scenario tpl))))).
Proof.
  intros m. unfold m, scoreTemplate, calculateScore. cbn [score fst]. split.
  - apply fold_scenarioStep_halves, fold_keywordStep_halves.
    exists 0%nat. reflexivity.
  - set (ek := extractKeywords lower (emailTextOf lower email)).
    set (et := emailTextOf lower email).
    pose proof (fold_scenarioStep_le et
                  (split isScenarioSep (lower (scenario tpl)))
                  (fst (fold_left (keywordStep lower ek et) (keywords tpl)
                          (0, [])))) as H1.
    pose proof (fold_keywordStep_le ek et (keywords tpl) (0, [])) as H2.
    cbn [fst] in H2. lra.
Qed.

(** X10. The matches for a smaller limit are the first entries of the
    matches for a larger one. *)
Theorem findBestMatches_prefix (r : TemplateRetriever.t)
    (email : ProcessedEmail) (cat : jsstring) (n m : nat) :
  (n <= m)%nat ->
  findBestMatches lower r email cat (Z.of_nat n)
  = firstn n (findBestMatches lower r email cat (Z.of_nat m)).
Proof.
  intros H. unfold findBestMatches.
  rewrite !slice0_of_nat, firstn_firstn. now rewrite Nat.min_l.
Qed.

(** X11. Every match returned is a template of the corpus together with
    the score and the matched keywords computed for it, and its score is
    positive; and with a limit that is at least the size of the corpus,
    every candidate that scores above 0 is returned. *)
Theorem findBestMatches_entries (tpls : list Template) (email : ProcessedEmail)
    (cat : jsstring) :
  (forall limit m,
     In m (findBestMatches lower (new lower tpls) email cat limit) ->
     In (template m) tpls
     /\ m = scoreTemplate lower email (template m)
     /\ 0 < score m)
  /\ (forall n tpl,
       (length tpls <= n)%nat ->
       In tpl (getCandidates lower (new lower tpls) cat) ->
       0 < score (scoreTemplate lower email tpl) ->
       In (scoreTemplate lower email tpl)
          (findBestMatches lower (new lower tpls) email cat (Z.of_nat n))).
Proof.
  destruct (IndexFacts.getCandidates_filter lower tpls cat) as [p Hp].
  split.
  - intros limit m Hm. unfold findBestMatches in Hm. rewrite Hp in Hm.
    destruct (slice0_firstn
                (sort byScoreDesc
                   (filter (fun m => (0 <? Qnum (score m))%Z)
                      (map (scoreTemplate lower email) (filter p tpls))))
                limit) as [k Hk].
    rewrite Hk in Hm. apply In_firstn in Hm.
    change byScoreDesc with (byKeyDesc score) in Hm.
    apply sort_In, filter_In in Hm as [Hm Hpos].
    apply in_map_iff in Hm as (tpl & <- & Htpl).
    apply filter_In in Htpl as [Htpl _]. cbn [template].
    split; [assumption|]. split; [reflexivity | now apply Qnum_pos].
  - intros n tpl Hn Hin Hpos. unfold findBestMatches.
    rewrite slice0_of_nat, firstn_all2.
    + change byScoreDesc with (byKeyDesc score).
      apply sort_In, filter_In. split; [now apply in_map | now apply Qnum_pos].
    + change byScoreDesc with (byKeyDesc score).
      rewrite sort_length.
      etransitivity; [apply filter_length_le|]. rewrite length_map, Hp.
      etransitivity; [apply filter_length_le | exact Hn].
Qed.

End RetrieverScores.

(** * Further properties of the service *)

Section ServiceChat.
Import ZhipuAIService.
Variable net : Network.

Lemma retryTrace_succ (svc : t) (request : ZhipuRequest) (i k : nat) :
  (1 <= k)%nat ->
  retryTrace net svc request i (S k)
  = attemptTrace net svc request i ++ [EvSleep 2000]
    ++ retryTrace net svc request (S i) k.
Proof. destruct k; [lia | reflexivity]. Qed.

Lemma chatLoop_attempts (svc : t) (request : ZhipuRequest) (retries : nat)
    (remaining : nat) :
  forall attempt w,
    (attempt + remaining = S retries)%nat -> (1 <= remaining)%nat ->
    let run := chatLoop net svc request retries attempt remaining w in
    exists k : nat,
      (1 <= k <= remaining)%nat
      /\ fetches (snd run) = (fetches w + k)%nat
      /\ trace (snd run) = trace w ++ retryTrace net svc request (fetches w) k
      /\ fst run = attemptResult net svc request (fetches w + k - 1)
      /\ (forall j, (j < k - 1)%nat ->
            exists e, attemptResult net svc request (fetches w + j) = Throw e
                      /\ isTimeout e = true)
      /\ (forall e, fst run = Throw e -> isTimeout e = true -> k = remaining).
Proof.
  induction remaining as [|remaining IH]; intros attempt w Hsum Hpos; [lia|].
  cbv zeta. cbn [chatLoop]. unfold try_catch. rewrite attemptOnce_spec.
  destruct (attemptResult net svc request (fetches w)) as [s|e] eqn:E0.
  { exists 1%nat. cbn [fst snd fetches trace retryTrace].
    replace (fetches w + 1 - 1)%nat with (fetches w) by lia.
    conjs; try lia; try reflexivity; try assumption;
      first [ symmetry; assumption | intros; lia | intros; congruence ]. }
  destruct ((attempt <? retries)%nat && isTimeout e) eqn:G.
  - apply andb_true_iff in G as [G1 G2]. apply Nat.ltb_lt in G1.
    unfold bind, emit. cbn [fetches trace].
    set (w1 := {| fetches := S (fetches w);
                  trace := (trace w ++ attemptTrace net svc request (fetches w))
                           ++ [EvSleep 2000] |}).
    destruct (IH (S attempt) w1) as (k & Hk & Hf & Ht & Hr & Hpre & Hlast);
      [lia | lia |].
    exists (S k). unfold w1 in *. cbn [fetches trace] in *.
    conjs; try lia.
    + rewrite Ht, retryTrace_succ by lia. now rewrite <- !app_assoc.
    + rewrite Hr. f_equal. lia.
    + intros j Hj. destruct j as [|j].
      * rewrite Nat.add_0_r. now exists e.
      * destruct (Hpre j) as (e' & He' & Ht'); [lia|].
        exists e'. split; [|assumption]. rewrite <- He'. f_equal. lia.
    + intros e' He' Ht'. f_equal. now apply (Hlast e').
  - exists 1%nat. unfold throw. cbn [fst snd fetches trace retryTrace].
    replace (fetches w + 1 - 1)%nat with (fetches w) by lia.
    conjs; try lia; try reflexivity; try assumption;
      try (symmetry; assumption); try (intros; lia).
    intros e' He' Ht'. injection He' as <-. rewrite Ht' in G.
    rewrite andb_true_r in G. apply Nat.ltb_ge in G. lia.
Qed.

(** X12. Whatever the number of retries allowed, [chat] makes at least one
    and at most that number plus one requests; every request but the last
    failed with a timeout; the result of the call is the result of its last
    request, and it is a timeout error only when every allowed request was
    made. *)
Theorem chat_attempts_bounded (svc : t) (msgs : list ZhipuMessage) (temp : Q)
    (retries : nat) (w : World) :
  let request := {| model := js "glm-4.6"; messages := msgs;
                    temperature := temp; stream := false |} in
  let run := chat net svc msgs temp retries w in
  exists k : nat,
    (1 <= k <= S retries)%nat
    /\ fetches (snd run) = (fetches w + k)%nat
    /\ trace (snd run) = trace w ++ retryTrace net svc request (fetches w) k
    /\ fst run = attemptResult net svc request (fetches w + k - 1)
    /\ (forall j, (j < k - 1)%nat ->
          exists e, attemptResult net svc request (fetches w + j) = Throw e
                    /\ isTimeout e = true)
    /\ (forall e, fst run = Throw e -> isTimeout e = true -> k = S retries).
Proof.
  intros request run. unfold run, chat. fold request.
  apply (@chatLoop_attempts svc request retries (S retries) 0%nat w); lia.
Qed.

End ServiceChat.

Section ServiceSelection.
Import ZhipuAIService.
Variable host : Host.
Variable prompts : Prompts.
Variable net : Network.

Lemma Qred_inject_Z (z : Z) : Qred (inject_Z z) = inject_Z z.
Proof.
  unfold Qred, inject_Z.
  pose proof (Z.ggcd_gcd z 1) as Hg.
  pose proof (Z.ggcd_correct_divisors z 1) as Hd.
  destruct (Z.ggcd z 1) as [g [aa bb]]. simpl in *.
  rewrite Z.gcd_1_r in Hg. subst g. destruct Hd as [Ha Hb].
  rewrite Z.mul_1_l in Ha, Hb. now subst aa bb.
Qed.

Lemma at_In {A} (arr : list A) (v : JSValue) (x : A) :
  Coerce.at_ host arr v = Ok (Some x) -> In x arr.
Proof.
  unfold Coerce.at_.
  destruct (Coerce.arrayIndex host v) as [[i|]|e]; try discriminate.
  intros H. injection H as H. now apply nth_error_In in H.
Qed.

Lemma indexInRange_number (q : Q) (len : nat) :
  indexInRange host (Some (JNum (Finite q))) len
  = Ok (Qle_bool 0 q && negb (Qle_bool (inject_Z (Z.of_nat len)) q)).
Proof.
  unfold indexInRange.
  cbn [Coerce.notNull Coerce.ToNumber Coerce.ge0 Coerce.ltLength].
  now destruct (Qle_bool 0 q).
Qed.

(** X13. [selectTemplateWithReasoning] never throws, and a template it
    selects is always one of the candidates of [findBestMatches], returned
    with that candidate's score; without candidates it returns [null]
    without any request. *)
Theorem selection_is_a_candidate (svc : t) (r : TemplateRetriever.t)
    (email : ProcessedEmail) (cat : jsstring) (intent : option jsstring)
    (keywords : option (list jsstring)) (suggested : option jsstring)
    (w : World) :
  let allMatches :=
    TemplateRetriever.findBestMatches (toLowerCase host) r email cat 10 in
  let run := selectTemplateWithReasoning host prompts net svc r email cat
               intent keywords suggested w in
  exists res,
    fst run = Ok res
    /\ (forall selected, res = Some selected ->
          exists m, In m allMatches
                    /\ sel_template selected = template m
                    /\ sel_scenario selected = scenario (template m)
                    /\ sel_score selected = score m)
    /\ (allMatches = [] -> res = None /\ snd run = w).
Proof.
  intros allMatches run. unfold run, selectTemplateWithReasoning.
  fold allMatches. destruct allMatches as [|first rest] eqn:E.
  { exists None. conjs; [reflexivity | discriminate | intros _; now split]. }
  assert (Hfirst : forall selected,
            Some {| sel_template := template first;
                    sel_scenario := scenario (template first);
                    sel_score := score first;
                    sel_reasoning := Some (JStr fallbackReasoning) |}
            = Some selected ->
            exists m, In m (first :: rest)
                      /\ sel_template selected = template m
                      /\ sel_scenario selected = scenario (template m)
                      /\ sel_score selected = score m).
  { intros selected H. injection H as <-. exists first. simpl. tauto. }
  unfold try_catch, bind at 1.
  destruct (chat net svc _ (3 # 10) defaultRetries w) as [[reply|e] w1];
    [|eexists; conjs; [reflexivity | exact Hfirst | discriminate]].
  unfold bind at 1, parseJSON.
  destruct (JSON_parse host (stripCodeFence (trim reply))) as [decision|];
    [|eexists; conjs; [reflexivity | exact Hfirst | discriminate]].
  unfold ret at 1, bind at 1, lift at 1.
  destruct (Coerce.getProp decision (js "selectedIndex")) as [selectedIndex|e];
    [|eexists; conjs; [reflexivity | exact Hfirst | discriminate]].
  unfold bind at 1, lift at 1.
  destruct (indexInRange host selectedIndex (length (first :: rest)))
    as [[|]|e];
    [| |eexists; conjs; [reflexivity | exact Hfirst | discriminate]].
  - unfold bind at 1, lift at 1.
    destruct (Coerce.at_ host (first :: rest) selectedIndex) as [[m|]|e] eqn:A;
      try (eexists; conjs; [reflexivity | exact Hfirst | discriminate]).
    unfold bind, lift.
    destruct (Coerce.getProp decision (js "reasoning")) as [reasoning|e];
      [|eexists; conjs; [reflexivity | exact Hfirst | discriminate]].
    eexists. conjs; [reflexivity | | discriminate].
    intros selected H. injection H as <-. exists m. simpl.
    split; [now apply at_In in A | tauto].
  - unfold bind at 1, lift at 1.
    destruct (Coerce.getProp decision (js "reasoning")) as [reasoning|e];
      [|eexists; conjs; [reflexivity | exact Hfirst | discriminate]].
    unfold bind, lift.
    destruct (Coerce.ToString host reasoning);
      [|eexists; conjs; [reflexivity | exact Hfirst | discriminate]].
    exists None. conjs; [reflexivity | discriminate | discriminate].
Qed.

(** X14. When the parsed reply is an object whose [selectedIndex] is a whole
    number that is an index of the candidate list, the candidate at that
    index is selected, with the reasoning the reply gives. *)
Theorem valid_index_selects_candidate (svc : t) (r : TemplateRetriever.t)
    (email : ProcessedEmail) (cat : jsstring) (intent : option jsstring)
    (keywords : option (list jsstring)) (suggested : option jsstring)
    (w w1 : World) (reply : jsstring) (fields : list (jsstring * JSON))
    (q : Q) (i : nat) (m : TemplateMatch) :
  let allMatches :=
    TemplateRetriever.findBestMatches (toLowerCase host) r email cat 10 in
  chat net svc
       (selectionMessages prompts email cat intent keywords suggested allMatches)
       (3 # 10) defaultRetries w = (Ok reply, w1) ->
  JSON_parse host (stripCodeFence (trim reply)) = Some (JObj fields) ->
  map_get fields (js "selectedIndex") = Some (JNum (Finite q)) ->
  q == inject_Z (Z.of_nat i) ->
  nth_error allMatches i = Some m ->
  selectTemplateWithReasoning host prompts net svc r email cat intent keywords
    suggested w
  = (Ok (Some {| sel_template := template m;
                 sel_scenario := scenario (template m);
                 sel_score := score m;
                 sel_reasoning := map_get fields (js "reasoning") |}), w1).
Proof.
  intros allMatches Hchat Hparse Hidx Hq Hnth.
  assert (Hlt : (i < length allMatches)%nat).
  { apply nth_error_Some. congruence. }
  unfold selectTemplateWithReasoning. fold allMatches.
  destruct allMatches as [|first rest] eqn:E; [simpl in Hlt; lia|].
  unfold try_catch, bind at 1. rewrite Hchat.
  unfold bind at 1, parseJSON. rewrite Hparse.
  unfold ret at 1, bind at 1, lift at 1. cbn [Coerce.getProp]. rewrite Hidx.
  assert (Hguard : indexInRange host (Some (JNum (Finite q)))
                     (length (first :: rest)) = Ok true).
  { rewrite indexInRange_number.
    assert (H0 : 0 <= q).
    { rewrite Hq. change 0 with (inject_Z 0). rewrite <- Zle_Qle. lia. }
    rewrite (proj2 (Qle_bool_iff _ _) H0). cbn [andb].
    destruct (Qle_bool (inject_Z (Z.of_nat (length (first :: rest)))) q) eqn:L;
      [|reflexivity].
    apply Qle_bool_iff in L. rewrite Hq, <- Zle_Qle in L. lia. }
  unfold bind at 1, lift at 1. rewrite Hguard.
  assert (Hat : Coerce.at_ host (first :: rest) (Some (JNum (Finite q)))
                = Ok (Some m)).
  { unfold Coerce.at_, Coerce.arrayIndex.
    rewrite (Qred_complete _ _ Hq), Qred_inject_Z. cbn [inject_Z Qden Qnum].
    rewrite Pos.eqb_refl.
    rewrite (proj2 (Z.leb_le _ _) (Nat2Z.is_nonneg i)). cbn [andb].
    now rewrite Nat2Z.id, Hnth. }
  unfold bind at 1, lift at 1. rewrite Hat. reflexivity.
Qed.

(** X15. An index inside the range that is not a whole number names no
    element: the error that follows is caught and the first candidate is
    selected with the fallback reasoning. *)
Theorem fractional_index_falls_back (svc : t) (r : TemplateRetriever.t)
    (email : ProcessedEmail) (cat : jsstring) (intent : option jsstring)
    (keywords : option (list jsstring)) (suggested : option jsstring)
    (w w1 : World) (reply : jsstring) (fields : list (jsstring * JSON))
    (q : Q) (first : TemplateMatch) (rest : list TemplateMatch) :
  TemplateRetriever.findBestMatches (toLowerCase host) r email cat 10
    = first :: rest ->
  chat net svc
       (selectionMessages prompts email cat intent keywords suggested
          (first :: rest))
       (3 # 10) defaultRetries w = (Ok reply, w1) ->
  JSON_parse host (stripCodeFence (trim reply)) = Some (JObj fields) ->
  map_get fields (js "selectedIndex") = Some (JNum (Finite q)) ->
  0 <= q -> q < inject_Z (Z.of_nat (length (first :: rest))) ->
  Qden (Qred q) <> 1%positive ->
  selectTemplateWithReasoning host prompts net svc r email cat intent keywords
    suggested w
  = (Ok (Some {| sel_template := template first;
                 sel_scenario := scenario (template first);
                 sel_score := score first;
                 sel_reasoning := Some (JStr fallbackReasoning) |}), w1).
Proof.
  intros Hall Hchat Hparse Hidx H0 Hlt Hfrac.
  unfold selectTemplateWithReasoning. rewrite Hall.
  unfold try_catch, bind at 1. rewrite Hchat.
  unfold bind at 1, parseJSON. rewrite Hparse.
  unfold ret at 1, bind at 1, lift at 1. cbn [Coerce.getProp]. rewrite Hidx.
  assert (Hguard : indexInRange host (Some (JNum (Finite q)))
                     (length (first :: rest)) = Ok true).
  { rewrite indexInRange_number.
    rewrite (proj2 (Qle_bool_iff _ _) H0). cbn [andb].
    destruct (Qle_bool (inject_Z (Z.of_nat (length (first :: rest)))) q) eqn:L;
      [|reflexivity].
    apply Qle_bool_iff in L. lra. }
  unfold bind at 1, lift at 1. rewrite Hguard.
  assert (Hat : Coerce.at_ host (first :: rest) (Some (JNum (Finite q)))
                = Ok None).
  { unfold Coerce.at_, Coerce.arrayIndex.
    destruct (Pos.eqb (Qden (Qred q)) 1) eqn:P; [|reflexivity].
    apply Pos.eqb_eq in P. contradiction. }
  unfold bind at 1, lift at 1. rewrite Hat. reflexivity.
Qed.

End ServiceSelection.

Section ServiceResponses.
Import ZhipuAIService.
Variable host : Host.
Variable prompts : Prompts.
Variable net : Network.

Lemma findBestMatches_positive (lower : jsstring -> jsstring)
    (r : TemplateRetriever.t) (email : ProcessedEmail) (cat : jsstring)
    (limit : Z) (m : TemplateMatch) :
  In m (TemplateRetriever.findBestMatches lower r email cat limit) ->
  exists tpl, In tpl (TemplateRetriever.getCandidates lower r cat)
              /\ m = TemplateRetriever.scoreTemplate lower email tpl
              /\ 0 < score m.
Proof.
  unfold TemplateRetriever.findBestMatches. intros Hm.
  destruct (slice0_firstn
              (sort TemplateRetriever.byScoreDesc
                 (filter (fun m => (0 <? Qnum (score m))%Z)
                    (map (TemplateRetriever.scoreTemplate lower email)
                       (TemplateRetriever.getCandidates lower r cat))))
              limit) as [k Hk].
  rewrite Hk in Hm. apply In_firstn in Hm.
  change TemplateRetriever.byScoreDesc with (byKeyDesc score) in Hm.
  apply sort_In, filter_In in Hm as [Hm Hpos].
  apply in_map_iff in Hm as (tpl & <- & Htpl).
  exists tpl. split; [assumption|]. split; [reflexivity | now apply Qnum_pos].
Qed.

(** X16. With templates enabled, a template store and a non-empty category,
    an email for which no candidate scores above 0 gets the manual-review
    notice, and no request is made. *)
Theorem unmatched_email_needs_no_request (svc : t) (r : TemplateRetriever.t)
    (email : ProcessedEmail) (a : Analysis.t) (cat : jsstring) (w : World) :
  templateRetriever svc = Some r ->
  Analysis.category a = Some cat -> cat <> [] ->
  (forall tpl,
     In tpl (TemplateRetriever.getCandidates (toLowerCase host) r cat) ->
     score (TemplateRetriever.scoreTemplate (toLowerCase host) email tpl) <= 0) ->
  generateResponse host prompts net svc email a true w
  = (Ok {| response := manualReviewMessage email cat (Analysis.intent a)
                                            (Analysis.keywords a);
           language := detectedLanguageOf a;
           matchedTemplates := None |}, w).
Proof.
  intros Hr Hcat Hne Hscore. unfold generateResponse. rewrite Hr, Hcat.
  destruct cat as [|c cat']; [contradiction|].
  unfold bind at 1, selectTemplateWithReasoning.
  destruct (TemplateRetriever.findBestMatches (toLowerCase host) r email
              (c :: cat') 10) as [|first rest] eqn:E; [reflexivity|].
  exfalso.
  destruct (@findBestMatches_positive (toLowerCase host) r email (c :: cat') 10
              first) as (tpl & Hin & -> & Hpos).
  { rewrite E. now left. }
  specialize (Hscore tpl Hin). lra.
Qed.

(** X17. Without templates in use (they are switched off, no store is
    configured, or the analysis names no category) [generateResponse] makes
    the one conversation of a system and a user message: its reply is the
    response as it is, no template is reported, and an error of the
    conversation is the error of [generateResponse]. *)
Theorem free_form_response (svc : t) (email : ProcessedEmail) (a : Analysis.t)
    (useTemplates : bool) (w : World) :
  useTemplates = false \/ templateRetriever svc = None
  \/ Analysis.category a = None \/ Analysis.category a = Some [] ->
  let call :=
    chat net svc
      [ {| role := system; content := systemPrompt prompts |};
        {| role := user;
           content := userPrompt prompts email (detectedLanguageOf a) |} ]
      defaultTemperature defaultRetries w in
  let run := generateResponse host prompts net svc email a useTemplates w in
  snd run = snd call
  /\ fst run = match fst call with
               | Ok reply => Ok {| response := reply;
                                   language := detectedLanguageOf a;
                                   matchedTemplates := None |}
               | Throw e => Throw e
               end.
Proof.
  intros H call run.
  assert (Hfree : run = bind (fun _ => call)
                          (fun reply =>
                             ret {| response := reply;
                                    language := detectedLanguageOf a;
                                    matchedTemplates := None |}) w).
  { unfold run, generateResponse, call, bind.
    destruct useTemplates; [|reflexivity].
    destruct (templateRetriever svc) as [r|]; [|reflexivity].
    destruct (Analysis.category a) as [[|c cat']|]; try reflexivity.
    exfalso. destruct H as [H|[H|[H|H]]]; discriminate. }
  rewrite Hfree. unfold bind, ret. destruct call as [[reply|e] w1]; now split.
Qed.

(** X18. Whatever path [generateResponse] takes, the language of a result is
    the language of the analysis, or English when the analysis has none; it
    is never the empty string. *)
Theorem response_language (svc : t) (email : ProcessedEmail) (a : Analysis.t)
    (useTemplates : bool) (w w' : World) (res : ResponseResult) :
  generateResponse host prompts net svc email a useTemplates w = (Ok res, w') ->
  language res = detectedLanguageOf a
  /\ language res <> []
  /\ (forall l, Analysis.language a = Some l -> l <> [] -> language res = l)
  /\ (Analysis.language a = None \/ Analysis.language a = Some [] ->
      language res = js "en").
Proof.
  intros Hgen.
  assert (Hlang : language res = detectedLanguageOf a).
  { assert (Hfree : forall m : M ResponseResult,
              m = bind (chat net svc
                          [ {| role := system; content := systemPrompt prompts |};
                            {| role := user;
                               content := userPrompt prompts email
                                            (detectedLanguageOf a) |} ]
                          defaultTemperature defaultRetries)
                       (fun response =>
                          ret {| response := response;
                                 language := detectedLanguageOf a;
                                 matchedTemplates := None |}) ->
              m w = (Ok res, w') -> language res = detectedLanguageOf a).
    { intros m -> Hm. unfold bind in Hm.
      destruct (chat net svc _ defaultTemperature defaultRetries w) as [[s|e] w2];
        [|discriminate].
      unfold ret in Hm. now injection Hm as <- _. }
    unfold generateResponse in Hgen.
    destruct useTemplates; [|eapply Hfree; [reflexivity | exact Hgen]].
    destruct (templateRetriever svc) as [r|] eqn:Hr;
      [|eapply Hfree; [reflexivity | exact Hgen]].
    destruct (Analysis.category a) as [[|c cat']|] eqn:Hcat;
      try (eapply Hfree; [reflexivity | exact Hgen]).
    unfold bind at 1 in Hgen.
    destruct (selectTemplateWithReasoning host prompts net svc r email
                (c :: cat') (Analysis.intent a) (Analysis.keywords a)
                (Analysis.suggestedTemplate a) w) as [[[selected|]|e] w1].
    - unfold bind at 1, lift at 1 in Hgen.
      destruct (Coerce.ToString host (sel_reasoning selected)); [|discriminate].
      unfold bind at 1 in Hgen.
      destruct (personalizeTemplate prompts net svc _ email _ _ _ w1)
        as [[txt|e] w2]; [|discriminate].
      unfold ret in Hgen. now injection Hgen as <- _.
    - unfold ret in Hgen. now injection Hgen as <- _.
    - discriminate. }
  rewrite Hlang. unfold detectedLanguageOf.
  conjs; try reflexivity.
  - destruct (Analysis.language a) as [[|c l]|]; discriminate.
  - intros l -> Hl. destruct l; [contradiction | reflexivity].
  - intros [->| ->]; reflexivity.
Qed.

(** X19. [analyzeEmail] makes the one conversation and nothing else: an
    error of the conversation is its error; a reply is answered with the
    value parsed from it, whatever its fields, and with the default
    analysis when it does not parse. *)
Theorem analyzeEmail_outcomes (svc : t) (email : ProcessedEmail) (w : World) :
  let call := chat net svc (analysisMessages prompts svc email)
                   defaultTemperature defaultRetries w in
  let run := analyzeEmail host prompts net svc email w in
  snd run = snd call
  /\ fst run = match fst call with
               | Throw e => Throw e
               | Ok reply =>
                 Ok match JSON_parse host (stripCodeFence (trim reply)) with
                    | Some v => v
                    | None => defaultAnalysis
                    end
               end.
Proof.
  intros call run. unfold run, analyzeEmail, bind. fold call.
  destruct call as [[reply|e] w1]; [|now split].
  cbn [fst snd]. unfold try_catch, parseJSON.
  destruct (JSON_parse host (stripCodeFence (trim reply))); now split.
Qed.

(** X20. [translateToChinese] never throws: it returns the reply of its one
    conversation, and the text [[Translation failed]] when the conversation
    fails. *)
Theorem translateToChinese_never_throws (svc : t) (txt : jsstring) (w : World) :
  let call := chat net svc (translationMessages txt) (3 # 10) defaultRetries w in
  let run := translateToChinese net svc txt w in
  snd run = snd call
  /\ fst run = Ok match fst call with
                  | Ok reply => reply
                  | Throw _ => js "[Translation failed]"
                  end.
Proof.
  intros call run. unfold run, translateToChinese, try_catch. fold call.
  destruct call as [[reply|e] w1]; now split.
Qed.

Lemma inRanges_lower (c : N) :
  inRanges [(97, 122)%N] c = true -> (97 <= c <= 122)%N.
Proof.
  unfold inRanges. cbn [existsb fst snd]. rewrite orb_false_r.
  intros H. apply andb_prop in H as [H1 H2].
  apply N.leb_le in H1, H2. now split.
Qed.

(** X21. The language code is always two small letters a to z: it is the
    first two characters of the trimmed, lower-cased reply exactly when both
    are such letters, and [en] for every other reply; [detectLanguage]
    returns the code of the reply of its one conversation. *)
Theorem languageCode_two_letters :
  (forall reply,
     let code := languageCodeOf host reply in
     let lowered := toLowerCase host (trim reply) in
     length code = 2%nat
     /\ Forall (fun c => (97 <= c <= 122)%N) code
     /\ (forall a b rest,
           lowered = a :: b :: rest ->
           (97 <= a <= 122)%N -> (97 <= b <= 122)%N -> code = [a; b])
     /\ (forall a b rest,
           lowered = a :: b :: rest ->
           ~ ((97 <= a <= 122)%N /\ (97 <= b <= 122)%N) -> code = js "en")
     /\ ((length lowered < 2)%nat -> code = js "en"))
  /\ (forall svc email w,
        let call := chat net svc (languageMessages email) (1 # 10)
                      defaultRetries w in
        let run := detectLanguage host net svc email w in
        snd run = snd call
        /\ fst run = match fst call with
                     | Ok reply => Ok (languageCodeOf host reply)
                     | Throw e => Throw e
                     end).
Proof.
  assert (Hen : length (js "en") = 2%nat
                /\ Forall (fun c => (97 <= c <= 122)%N) (js "en")).
  { split; [reflexivity|]. repeat constructor; discriminate. }
  assert (Hin : forall c, inRanges [(97, 122)%N] c = true
                          <-> (97 <= c <= 122)%N).
  { intros c. split; [apply inRanges_lower|].
    intros [H1 H2]. unfold inRanges. cbn [existsb fst snd].
    apply N.leb_le in H1, H2. now rewrite H1, H2. }
  split.
  - intros reply code lowered. unfold code, languageCodeOf. fold lowered.
    destruct lowered as [|c1 [|c2 rest]].
    + conjs; try apply Hen; try discriminate. reflexivity.
    + conjs; try apply Hen; try discriminate. reflexivity.
    + destruct (inRanges [(97, 122)%N] c1) eqn:H1;
        destruct (inRanges [(97, 122)%N] c2) eqn:H2; cbn [andb].
      * apply Hin in H1, H2. conjs.
        -- reflexivity.
        -- now repeat constructor.
        -- intros a b rest' E _ _. now injection E as <- <- _.
        -- intros a b rest' E Hnot. injection E as <- <- _.
           now contradiction Hnot.
        -- cbn [length]. lia.
      * conjs; try apply Hen.
        -- intros a b rest' E _ Hb. injection E as <- <- _.
           apply Hin in Hb. congruence.
        -- reflexivity.
        -- reflexivity.
      * conjs; try apply Hen.
        -- intros a b rest' E Ha _. injection E as <- <- _.
           apply Hin in Ha. congruence.
        -- reflexivity.
        -- reflexivity.
      * conjs; try apply Hen.
        -- intros a b rest' E Ha _. injection E as <- <- _.
           apply Hin in Ha. congruence.
        -- reflexivity.
        -- reflexivity.
  - intros svc email w call run. unfold run, detectLanguage, bind. fold call.
    destruct call as [[reply|e] w1]; now split.
Qed.

Lemma trimStart_length (s : jsstring) : (length (trimStart s) <= length s)%nat.
Proof.
  induction s as [|c s IH]; [apply Nat.le_refl|].
  cbn [trimStart]. destruct (isWhiteSpace c); cbn [length]; lia.
Qed.

Lemma trimStart_fixed (c : N) (s : jsstring) :
  trimStart (c :: s) = c :: s -> isWhiteSpace c = false.
Proof.
  cbn [trimStart]. destruct (isWhiteSpace c); [|reflexivity].
  intros H. pose proof (trimStart_length s) as L. rewrite H in L.
  cbn [length] in L. lia.
Qed.

Lemma trimStart_app (s x : jsstring) :
  trimStart s = s -> s <> [] -> trimStart (s ++ x) = s ++ x.
Proof.
  destruct s as [|c s]; [contradiction|]. intros H _.
  apply trimStart_fixed in H. cbn [app trimStart]. now rewrite H.
Qed.

Lemma trimStart_idempotent (s : jsstring) : trimStart (trimStart s) = trimStart s.
Proof.
  induction s as [|c s IH]; [reflexivity|].
  cbn [trimStart]. destruct (isWhiteSpace c) eqn:E; [exact IH|].
  cbn [trimStart]. now rewrite E.
Qed.

Lemma stripClosingFence_closing (payload : jsstring) :
  trimEnd payload = payload ->
  stripClosingFence (payload ++ newline ++ fence) = payload.
Proof.
  intros H. unfold stripClosingFence.
  rewrite rev_app_distr.
  change (rev (newline ++ fence)) with ([96; 96; 96; 10]%N : jsstring).
  cbn [app]. change (startsWith (96 :: 96 :: 96 :: 10 :: rev payload)%N fence)
    with true. cbn iota. cbn [skipn trimStart].
  change (isWhiteSpace 10) with true. cbn iota.
  unfold trimEnd in H. exact H.
Qed.

(** X22. Fencing and unfencing are inverse: a trimmed text wrapped in a
    markdown fence, with or without the [json] tag, comes back as it was;
    and a text that does not start with a fence is left alone. *)
Theorem stripCodeFence_unwraps (payload : jsstring) :
  trimStart payload = payload -> trimEnd payload = payload ->
  stripCodeFence (fenceJson ++ newline ++ payload ++ newline ++ fence) = payload
  /\ stripCodeFence (fence ++ newline ++ payload ++ newline ++ fence) = payload
  /\ (startsWith payload fence = false -> stripCodeFence payload = payload).
Proof.
  intros Hs He.
  assert (Hbody : stripClosingFence (trimStart (newline ++ payload ++ newline ++ fence))
                  = payload).
  { change (trimStart (newline ++ payload ++ newline ++ fence))
      with (trimStart (payload ++ newline ++ fence)).
    destruct payload as [|c p]; [reflexivity|].
    rewrite trimStart_app by (assumption || discriminate).
    now apply stripClosingFence_closing. }
  conjs.
  - exact Hbody.
  - exact Hbody.
  - intros Hf. unfold stripCodeFence. rewrite Hf.
    destruct (startsWith payload fenceJson) eqn:Hj; [|reflexivity].
    exfalso. apply startsWith_app in Hj as [post Hj].
    assert (Ht : startsWith payload fence = true).
    { apply startsWith_app. exists (js "json" ++ post). exact Hj. }
    congruence.
Qed.

Lemma trim_trimmed (s : jsstring) :
  trimStart (trim s) = trim s /\ trimEnd (trim s) = trim s.
Proof.
  unfold trim, trimEnd. split.
  - remember (trimStart s) as u eqn:Hu.
    assert (Hfix : trimStart u = u) by (subst u; apply trimStart_idempotent).
    clear Hu s.
    destruct (trimStart (rev u)) as [|c v] eqn:E; [reflexivity|].
    assert (Hsuffix : exists pre, rev u = pre ++ c :: v).
    { clear Hfix. revert E. generalize (rev u) as x.
      induction x as [|d x IH]; [discriminate|].
      cbn [trimStart]. destruct (isWhiteSpace d).
      - intros E. destruct (IH E) as [pre Hp]. exists (d :: pre).
        now rewrite Hp.
      - intros E. exists []. now rewrite E. }
    destruct Hsuffix as [pre Hp].
    apply (f_equal (@rev N)) in Hp. rewrite rev_involutive, rev_app_distr in Hp.
    destruct (rev (c :: v)) as [|d y] eqn:R.
    + apply (f_equal (@length N)) in R. rewrite length_rev in R. discriminate.
    + rewrite Hp in Hfix. cbn [app] in Hfix.
      apply trimStart_fixed in Hfix. cbn [trimStart]. now rewrite Hfix.
  - rewrite rev_involutive, trimStart_idempotent. reflexivity.
Qed.

(** X23. The personalised text is returned trimmed: it has no white space at
    either end, so trimming it again changes nothing. *)
Theorem personalizeTemplate_trimmed (svc : t) (templateContent : Content)
    (email : ProcessedEmail) (lang : jsstring) (intent : option jsstring)
    (keywords : option (list jsstring)) (w w' : World) (txt : jsstring) :
  personalizeTemplate prompts net svc templateContent email lang intent
    keywords w = (Ok txt, w') ->
  trim txt = txt
  /\ (forall c rest, txt = c :: rest -> isWhiteSpace c = false)
  /\ (forall c rest, txt = rest ++ [c] -> isWhiteSpace c = false).
Proof.
  intros H. unfold personalizeTemplate, bind in H.
  destruct (chat net svc _ (3 # 10) defaultRetries w) as [[reply|e] w1];
    [|discriminate].
  unfold ret in H. injection H as <- _.
  destruct (trim_trimmed reply) as [Hs He].
  conjs.
  - unfold trim at 1. rewrite Hs. exact He.
  - intros c rest E. rewrite E in Hs. now apply trimStart_fixed in Hs.
  - intros c rest E. rewrite E in He. unfold trimEnd in He.
    apply (f_equal (@rev N)) in He. rewrite rev_involutive in He.
    rewrite rev_app_distr in He. cbn [rev app] in He.
    now apply trimStart_fixed in He.
Qed.

Lemma selection_from_candidates (svc : t) (r : TemplateRetriever.t)
    (email : ProcessedEmail) (cat : jsstring) (intent : option jsstring)
    (keywords : option (list jsstring)) (suggested : option jsstring)
    (w w1 : World) (selected : Selection) :
  selectTemplateWithReasoning host prompts net svc r email cat intent keywords
    suggested w = (Ok (Some selected), w1) ->
  exists m,
    In m (TemplateRetriever.findBestMatches (toLowerCase host) r email cat 10)
    /\ sel_template selected = template m
    /\ sel_score selected = score m.
Proof.
  unfold selectTemplateWithReasoning.
  destruct (TemplateRetriever.findBestMatches (toLowerCase host) r email cat 10)
    as [|first rest]; [discriminate|].
  assert (Hfirst : forall w2,
            (Ok (Some {| sel_template := template first;
                         sel_scenario := scenario (template first);
                         sel_score := score first;
                         sel_reasoning := Some (JStr fallbackReasoning) |}), w2)
            = (Ok (Some selected), w1) ->
            exists m, In m (first :: rest)
                      /\ sel_template selected = template m
                      /\ sel_score selected = score m).
  { intros w2 H. injection H as <- _. exists first. simpl. tauto. }
  unfold try_catch, bind at 1.
  destruct (chat net svc _ (3 # 10) defaultRetries w) as [[reply|e] w2];
    [|apply Hfirst].
  unfold bind at 1, parseJSON.
  destruct (JSON_parse host (stripCodeFence (trim reply))) as [decision|];
    [|apply Hfirst].
  unfold ret at 1, bind at 1, lift at 1.
  destruct (Coerce.getProp decision (js "selectedIndex")) as [selectedIndex|e];
    [|apply Hfirst].
  unfold bind at 1, lift at 1.
  destruct (indexInRange host selectedIndex (length (first :: rest)))
    as [[|]|e]; [| |apply Hfirst].
  - unfold bind at 1, lift at 1.
    destruct (Coerce.at_ host (first :: rest) selectedIndex) as [[m|]|e] eqn:A;
      try apply Hfirst.
    unfold bind, lift.
    destruct (Coerce.getProp decision (js "reasoning")) as [reasoning|e];
      [|apply Hfirst].
    intros H. injection H as <- _. exists m. simpl.
    split; [now apply at_In in A | tauto].
  - unfold bind at 1, lift at 1.
    destruct (Coerce.getProp decision (js "reasoning")) as [reasoning|e];
      [|apply Hfirst].
    unfold bind, lift.
    destruct (Coerce.ToString host reasoning); [discriminate | apply Hfirst].
Qed.

(** X30. Whenever [generateResponse] reports a matched template, it reports
    exactly one: a candidate of the category of the analysis, returned by
    [findBestMatches] with the score reported, which is above 0; and the
    response is a trimmed text. *)
Theorem reported_template_is_a_candidate (svc : t) (email : ProcessedEmail)
    (a : Analysis.t) (useTemplates : bool) (w w' : World)
    (res : ResponseResult) (reported : list MatchedTemplate) :
  generateResponse host prompts net svc email a useTemplates w = (Ok res, w') ->
  matchedTemplates res = Some reported ->
  exists r cat m,
    templateRetriever svc = Some r
    /\ Analysis.category a = Some cat
    /\ In m (TemplateRetriever.findBestMatches (toLowerCase host) r email cat 10)
    /\ In (template m) (TemplateRetriever.getCandidates (toLowerCase host) r cat)
    /\ reported = [{| mt_id := id (template m);
                      mt_scenario := scenario (template m);
                      mt_score := score m |}]
    /\ 0 < score m
    /\ trim (response res) = response res.
Proof.
  intros Hgen Hmt.
  assert (Hfree : forall m : M ResponseResult,
            m = bind (chat net svc
                        [ {| role := system; content := systemPrompt prompts |};
                          {| role := user;
                             content := userPrompt prompts email
                                          (detectedLanguageOf a) |} ]
                        defaultTemperature defaultRetries)
                     (fun response =>
                        ret {| response := response;
                               language := detectedLanguageOf a;
                               matchedTemplates := None |}) ->
            m w = (Ok res, w') -> False).
  { intros m -> Hm. unfold bind in Hm.
    destruct (chat net svc _ defaultTemperature defaultRetries w) as [[s|e] w2];
      [|discriminate].
    unfold ret in Hm. injection Hm as <- _. discriminate. }
  unfold generateResponse in Hgen.
  destruct useTemplates; [|exfalso; eapply Hfree; [reflexivity | exact Hgen]].
  destruct (templateRetriever svc) as [r|] eqn:Hr;
    [|exfalso; eapply Hfree; [reflexivity | exact Hgen]].
  destruct (Analysis.category a) as [[|c cat']|] eqn:Hcat;
    try (exfalso; eapply Hfree; [reflexivity | exact Hgen]).
  unfold bind at 1 in Hgen.
  destruct (selectTemplateWithReasoning host prompts net svc r email
              (c :: cat') (Analysis.intent a) (Analysis.keywords a)
              (Analysis.suggestedTemplate a) w) as [[[selected|]|e] w1] eqn:Hsel.
  - destruct (selection_from_candidates _ _ _ _ _ _ _ _ Hsel)
      as (m & Hin & Ht & Hs).
    destruct (findBestMatches_positive _ _ _ _ _ _ Hin) as (tpl & Hc & Hm & Hpos).
    unfold bind at 1, lift at 1 in Hgen.
    destruct (Coerce.ToString host (sel_reasoning selected)); [|discriminate].
    unfold bind at 1, personalizeTemplate, bind at 1 in Hgen.
    destruct (chat net svc _ (3 # 10) defaultRetries w1) as [[reply|e] w2];
      [|discriminate].
    unfold ret in Hgen. injection Hgen as <- _. cbn [matchedTemplates] in Hmt.
    injection Hmt as <-. exists r, (c :: cat'), m. cbn [response app].
    rewrite Ht, Hs. conjs; try reflexivity; try assumption.
    + rewrite Hm. exact Hc.
    + destruct (trim_trimmed reply) as [E1 E2]. unfold trim at 1.
      rewrite E1. exact E2.
  - unfold ret in Hgen. injection Hgen as <- _. discriminate.
  - discriminate.
Qed.

End ServiceResponses.

(** * Further properties of the language heuristic *)

Section RetrieverLanguage.
Import TemplateRetriever.
Variable lower : jsstring -> jsstring.

Lemma testWords_app (s : jsstring) :
  forall prev ws1 ws2,
    testWords prev s (ws1 ++ ws2)
    = testWords prev s ws1 || testWords prev s ws2.
Proof.
  induction s as [|c s IH]; intros prev ws1 ws2; cbn [testWords];
    rewrite existsb_app.
  - now rewrite !orb_false_r.
  - rewrite IH.
    destruct (existsb (wholeWordHere prev (c :: s)) ws1),
             (existsb (wholeWordHere prev (c :: s)) ws2),
             (testWords (Some c) s ws1), (testWords (Some c) s ws2);
      reflexivity.
Qed.

Lemma testWords_In (s : jsstring) (ws : list jsstring) (w : jsstring) :
  forall prev, In w ws -> testWords prev s [w] = true ->
               testWords prev s ws = true.
Proof.
  intros prev Hin Hw. apply in_split in Hin as (l1 & l2 & ->).
  change (w :: l2) with ([w] ++ l2).
  rewrite !testWords_app, Hw. now rewrite orb_true_r.
Qed.

Lemma testWords_exists (ws : list jsstring) :
  forall s prev, testWords prev s ws = true ->
                 exists w, In w ws /\ testWords prev s [w] = true.
Proof.
  induction ws as [|w ws IH]; intros s prev H.
  - exfalso. revert prev H. induction s as [|c s IHs]; intros prev H;
      cbn [testWords existsb orb] in H; [discriminate | eauto].
  - change (w :: ws) with ([w] ++ ws) in H. rewrite testWords_app in H.
    apply orb_true_iff in H as [H|H].
    + exists w. split; [now left | assumption].
    + destruct (IH s prev H) as (w' & Hin & Hw'). exists w'.
      split; [now right | assumption].
Qed.

Lemma testWords_own (prev : option N) (s : jsstring)
    (ws earlier own : list jsstring) :
  forallb (fun w => array_includes earlier w || array_includes own w) ws = true ->
  testWords prev s earlier = false ->
  testWords prev s ws = true ->
  exists w, In w own /\ testWords prev s [w] = true.
Proof.
  intros Hcover Hearlier Hws.
  destruct (testWords_exists ws s prev Hws) as (w & Hin & Hw).
  rewrite forallb_forall in Hcover. specialize (Hcover w Hin).
  apply orb_true_iff in Hcover as [Hc|Hc]; apply array_includes_In in Hc.
  - rewrite (testWords_In s earlier w prev Hc Hw) in Hearlier. discriminate.
  - exists w. now split.
Qed.

(** X24. A stop-word that an earlier rule also lists never decides the
    language: a text detected as French, Spanish, Portuguese, Italian or
    Dutch holds, as a whole word, a stop-word of that rule that no earlier
    rule lists; and a text holding the word [de] is German unless a script
    rule applies. *)
Theorem shared_stop_words_never_decide (email : ProcessedEmail) :
  let lowerText := lower (subject email ++ [32%N] ++ text email) in
  let found := fun w => testWords None lowerText [w] = true in
  let code := detectLanguage lower email in
  (code = js "fr" ->
   exists w, In w [js "le"; js "la"; js "les"; js "un"; js "une"; js "est";
                   js "pas"] /\ found w)
  /\ (code = js "es" ->
      exists w, In w [js "el"; js "los"; js "las"; js "una"; js "es"; js "no"]
                /\ found w)
  /\ (code = js "pt" ->
      exists w, In w [js "o"; js "a"; js "os"; js "as"; js "um"; js "uma";
                      js "não"] /\ found w)
  /\ (code = js "it" ->
      exists w, In w [js "il"; js "lo"; js "non"; js "di"] /\ found w)
  /\ (code = js "nl" ->
      exists w, In w [js "het"; js "een"; js "is"; js "niet"; js "van"]
                /\ found w)
  /\ (found (js "de") ->
      In code [js "zh"; js "ar"; js "th"; js "ja"; js "ko"; js "de"]).
Proof.
  intros lowerText found code. unfold code, detectLanguage.
  destruct (testClass [(19968, 40869)%N] _);
    [conjs; try (intros H; vm_compute in H; discriminate);
     intros _; cbn [In]; tauto|].
  destruct (testClass [(1536, 1791)%N] _);
    [conjs; try (intros H; vm_compute in H; discriminate);
     intros _; cbn [In]; tauto|].
  destruct (testClass [(3584, 3711)%N] _);
    [conjs; try (intros H; vm_compute in H; discriminate);
     intros _; cbn [In]; tauto|].
  destruct (testClass [(12352, 12447)%N; (12448, 12543)%N] _);
    [conjs; try (intros H; vm_compute in H; discriminate);
     intros _; cbn [In]; tauto|].
  destruct (testClass [(44032, 55215)%N] _);
    [conjs; try (intros H; vm_compute in H; discriminate);
     intros _; cbn [In]; tauto|].
  fold lowerText.
  destruct (testWords None lowerText germanWords) eqn:G;
    [conjs; try (intros H; vm_compute in H; discriminate);
     intros _; cbn [In]; tauto|].
  assert (Hde : found (js "de") -> False).
  { intros H. unfold found in H.
    rewrite (testWords_In lowerText germanWords (js "de") None) in G;
      [discriminate | now left | exact H]. }
  destruct (testWords None lowerText frenchWords) eqn:F.
  { conjs; try (intros H; vm_compute in H; discriminate);
      try (intros H; contradiction (Hde H)).
    intros _. now apply (@testWords_own None lowerText frenchWords germanWords). }
  assert (GF : testWords None lowerText (germanWords ++ frenchWords) = false).
  { now rewrite testWords_app, G, F. }
  destruct (testWords None lowerText spanishWords) eqn:S.
  { conjs; try (intros H; vm_compute in H; discriminate);
      try (intros H; contradiction (Hde H)).
    intros _.
    now apply (@testWords_own None lowerText spanishWords
                 (germanWords ++ frenchWords)). }
  assert (GFS : testWords None lowerText
                  ((germanWords ++ frenchWords) ++ spanishWords) = false).
  { now rewrite testWords_app, GF, S. }
  destruct (testWords None lowerText portugueseWords) eqn:P.
  { conjs; try (intros H; vm_compute in H; discriminate);
      try (intros H; contradiction (Hde H)).
    intros _.
    now apply (@testWords_own None lowerText portugueseWords
                 ((germanWords ++ frenchWords) ++ spanishWords)). }
  assert (GFSP : testWords None lowerText
                   (((germanWords ++ frenchWords) ++ spanishWords)
                    ++ portugueseWords) = false).
  { now rewrite testWords_app, GFS, P. }
  destruct (testWords None lowerText italianWords) eqn:I.
  { conjs; try (intros H; vm_compute in H; discriminate);
      try (intros H; contradiction (Hde H)).
    intros _.
    now apply (@testWords_own None lowerText italianWords
                 (((germanWords ++ frenchWords) ++ spanishWords)
                  ++ portugueseWords)). }
  assert (GFSPI : testWords None lowerText
                    ((((germanWords ++ frenchWords) ++ spanishWords)
                      ++ portugueseWords) ++ italianWords) = false).
  { now rewrite testWords_app, GFSP, I. }
  destruct (testWords None lowerText dutchWords) eqn:D.
  { conjs; try (intros H; vm_compute in H; discriminate);
      try (intros H; contradiction (Hde H)).
    intros _.
    now apply (@testWords_own None lowerText dutchWords
                 ((((germanWords ++ frenchWords) ++ spanishWords)
                   ++ portugueseWords) ++ italianWords)). }
  conjs; try (intros H; vm_compute in H; discriminate).
  intros H; contradiction (Hde H).
Qed.

End RetrieverLanguage.

(** * Properties of the batch driver *)

Section DriverReplies.
Import Driver.
Variable lower : jsstring -> jsstring.

(** X25. Given that lower-casing a text that starts with [Re: ] gives a
    text that starts with [re: ], the subject of a reply always starts with
    [re:] whatever the case, and a reply to a reply keeps its subject: the
    prefix is never stacked. *)
Theorem replySubject_never_stacks (subj : jsstring) :
  (forall s, lower (js "Re: " ++ s) = js "re: " ++ lower s) ->
  startsWith (lower (replySubject lower subj)) (js "re:") = true
  /\ replySubject lower (replySubject lower subj) = replySubject lower subj
  /\ (replySubject lower subj = subj
      \/ replySubject lower subj = js "Re: " ++ subj).
Proof.
  intros Hlower.
  assert (H1 : startsWith (lower (replySubject lower subj)) (js "re:") = true).
  { unfold replySubject.
    destruct (startsWith (lower subj) (js "re:")) eqn:E; [exact E|].
    rewrite Hlower. apply startsWith_app. exists (32%N :: lower subj).
    reflexivity. }
  conjs.
  - exact H1.
  - unfold replySubject at 1. now rewrite H1.
  - unfold replySubject. destruct (startsWith (lower subj) (js "re:")); tauto.
Qed.

(** X26. The references of a reply are the references of the email, in
    their order, followed by the message id of the email when it has one
    that they do not hold yet: the id is there, and it is never added
    twice. *)
Theorem replyReferences_adds_once (headers : list (jsstring * HeaderValue))
    (messageId : jsstring) :
  let received := replyReferences lower headers [] in
  let sent := replyReferences lower headers messageId in
  (messageId <> [] -> In messageId sent)
  /\ (messageId = [] \/ In messageId received -> sent = received)
  /\ (messageId <> [] -> ~ In messageId received ->
      sent = received ++ [messageId]).
Proof.
  intros received sent. unfold sent, received, replyReferences.
  set (references :=
         match find (fun entry => str_eqb (lower (fst entry)) (js "references"))
                    headers with
         | Some (_, Many vs) => vs
         | Some (_, One ((_ :: _) as v)) => [v]
         | _ => []
         end).
  destruct messageId as [|c mid].
  - conjs; tauto.
  - destruct (array_includes references (c :: mid)) eqn:E.
    + apply array_includes_In in E. conjs; tauto.
    + assert (Hnot : ~ In (c :: mid) references).
      { intros H. apply array_includes_In in H. congruence. }
      conjs.
      * intros _. apply in_or_app. right. now left.
      * intros [H|H]; [discriminate | contradiction].
      * reflexivity.
Qed.

End DriverReplies.

Section DriverBatches.
Import Driver.

Lemma splitOn_cons (sep : N) (s : jsstring) :
  exists w ws, splitOn sep s = w :: ws.
Proof.
  induction s as [|c s IH]; cbn [splitOn]; [now exists [], []|].
  destruct (N.eqb c sep); [now exists [], (splitOn sep s)|].
  destruct IH as (w & ws & ->). now exists (c :: w), ws.
Qed.

Lemma splitOn_prefix (sep : N) (pre rest : jsstring) :
  ~ In sep pre ->
  splitOn sep (pre ++ sep :: rest) = pre :: splitOn sep rest.
Proof.
  induction pre as [|c pre IH]; intros H; cbn [app splitOn].
  - now rewrite N.eqb_refl.
  - destruct (N.eqb c sep) eqn:E.
    + apply N.eqb_eq in E. subst c. exfalso. apply H. now left.
    + rewrite IH; [reflexivity|]. intros Hin. apply H. now right.
Qed.

Lemma splitOn_none (sep : N) (s : jsstring) :
  ~ In sep s -> splitOn sep s = [s].
Proof.
  induction s as [|c s IH]; intros H; cbn [splitOn]; [reflexivity|].
  destruct (N.eqb c sep) eqn:E.
  - apply N.eqb_eq in E. subst c. exfalso. apply H. now left.
  - rewrite IH; [reflexivity|]. intros Hin. apply H. now right.
Qed.

(** X27. With redaction on, the address in the log shows at most the first
    two characters of the local part, then [***@] and the domain up to a
    second [@], if any; an address without [@] or with nothing behind it
    is shown as [***]. With redaction off the address is shown as it is. *)
Theorem maskEmail_hides_local_part :
  (forall addr, maskEmail false addr = addr)
  /\ (forall addr, ~ In 64%N addr -> maskEmail true addr = js "***")
  /\ (forall localPart, ~ In 64%N localPart ->
        maskEmail true (localPart ++ js "@") = js "***")
  /\ (forall localPart domain,
        ~ In 64%N localPart -> ~ In 64%N domain -> domain <> [] ->
        maskEmail true (localPart ++ js "@" ++ domain)
        = firstn 2 localPart ++ js "***@" ++ domain)
  /\ (forall localPart domain rest,
        ~ In 64%N localPart -> ~ In 64%N domain -> domain <> [] ->
        maskEmail true (localPart ++ js "@" ++ domain ++ js "@" ++ rest)
        = firstn 2 localPart ++ js "***@" ++ domain).
Proof.
  conjs.
  - reflexivity.
  - intros addr H. unfold maskEmail. cbn [negb].
    now rewrite splitOn_none.
  - intros localPart H. unfold maskEmail. cbn [negb].
    change (js "@") with [64%N]. now rewrite splitOn_prefix.
  - intros localPart domain Hl Hd Hne. unfold maskEmail. cbn [negb].
    change (js "@" ++ domain) with (64%N :: domain).
    rewrite splitOn_prefix by assumption. rewrite splitOn_none by assumption.
    destruct domain; [contradiction | reflexivity].
  - intros localPart domain rest Hl Hd Hne. unfold maskEmail. cbn [negb].
    change (js "@" ++ domain ++ js "@" ++ rest)
      with (64%N :: domain ++ 64%N :: rest).
    rewrite splitOn_prefix by assumption.
    rewrite splitOn_prefix by assumption.
    destruct domain; [contradiction | reflexivity].
Qed.

Lemma batchLoop_done {A} (emails : list A) (rounds i : nat) :
  (length emails <= i)%nat -> batchLoop rounds i emails = [].
Proof.
  intros H. destruct rounds; [reflexivity|]. cbn [batchLoop].
  now rewrite (proj2 (Nat.ltb_ge _ _) H).
Qed.

Lemma batch_count (len i : nat) :
  (i < len)%nat ->
  S ((len - (i + 3) + 2) / 3) = ((len - i + 2) / 3)%nat.
Proof.
  intros H.
  destruct (Nat.lt_ge_cases (len - i) 3) as [D|D].
  - replace (len - (i + 3))%nat with 0%nat by lia.
    assert (len - i = 1 \/ len - i = 2)%nat as [E|E] by lia;
      rewrite E; reflexivity.
  - replace (len - i + 2)%nat with ((len - (i + 3) + 2) + 1 * 3)%nat by lia.
    rewrite Nat.div_add by discriminate. lia.
Qed.

Lemma batchLoop_spec {A} (emails : list A) :
  forall rounds i,
    (length emails - i <= rounds)%nat ->
    let bs := batchLoop rounds i emails in
    concat (map fst bs) = skipn i emails
    /\ Forall (fun b => (1 <= length (fst b) <= CONCURRENCY_LIMIT)%nat
                        /\ (snd b = true ->
                            length (fst b) = CONCURRENCY_LIMIT)) bs
    /\ map snd bs
       = repeat true (length bs - 1)
         ++ (if (i <? length emails)%nat then [false] else [])
    /\ length bs = ((length emails - i + 2) / 3)%nat.
Proof.
  unfold CONCURRENCY_LIMIT.
  induction rounds as [|rounds IH]; intros i Hr; cbv zeta in *.
  - assert (Hle : (length emails <= i)%nat) by lia.
    cbn [batchLoop map concat length repeat app].
    rewrite (proj2 (Nat.ltb_ge _ _) Hle).
    replace (length emails - i)%nat with 0%nat by lia.
    conjs; try reflexivity; [now rewrite skipn_all2 | constructor].
  - cbn [batchLoop]. unfold CONCURRENCY_LIMIT.
    destruct (i <? length emails)%nat eqn:L.
    + apply Nat.ltb_lt in L.
      destruct (IH (i + 3)%nat ltac:(lia)) as (H1 & H2 & H3 & H4).
      cbn [map concat fst snd length].
      conjs.
      * rewrite H1. unfold slice.
        replace (i + 3 - i)%nat with 3%nat by lia.
        rewrite Nat.add_comm, <- skipn_skipn. apply firstn_skipn.
      * constructor; [|exact H2]. cbn [fst snd]. unfold slice.
        replace (i + 3 - i)%nat with 3%nat by lia.
        rewrite length_firstn, length_skipn. split; [lia|].
        intros Hflag. apply Nat.ltb_lt in Hflag. lia.
      * rewrite H3.
        replace (S (length (batchLoop rounds (i + 3) emails)) - 1)%nat
          with (length (batchLoop rounds (i + 3) emails)) by lia.
        destruct (i + 3 <? length emails)%nat eqn:L3.
        -- apply Nat.ltb_lt in L3.
           assert (Hpos : (1 <= length (batchLoop rounds (i + 3) emails))%nat).
           { rewrite H4. apply (Nat.div_le_lower_bound _ 3 1); lia. }
           destruct (length (batchLoop rounds (i + 3) emails)) as [|n];
             [lia|].
           replace (S n - 1)%nat with n by lia. reflexivity.
        -- apply Nat.ltb_ge in L3.
           rewrite batchLoop_done by assumption. reflexivity.
      * rewrite H4. now apply batch_count.
    + apply Nat.ltb_ge in L.
      replace (length emails - i)%nat with 0%nat by lia.
      cbn [map concat length repeat app].
      conjs; try reflexivity; [now rewrite skipn_all2 | constructor].
Qed.

(** X28. The batches hold the emails in their order, each email once; a
    batch has one to three emails; the pause follows every batch but the
    last, and a batch followed by a pause is full; their number is the
    number of emails divided by three, rounded up. *)
Theorem batches_partition {A} (emails : list A) :
  let bs := batches emails in
  concat (map fst bs) = emails
  /\ Forall (fun b => (1 <= length (fst b) <= CONCURRENCY_LIMIT)%nat
                      /\ (snd b = true -> length (fst b) = CONCURRENCY_LIMIT))
            bs
  /\ map snd bs
     = repeat true (length bs - 1)
       ++ match emails with [] => [] | _ => [false] end
  /\ length bs = ((length emails + 2) / 3)%nat.
Proof.
  intros bs.
  destruct (@batchLoop_spec A emails (length emails) 0%nat ltac:(lia))
    as (H1 & H2 & H3 & H4).
  fold (batches emails) in H1, H2, H3, H4. fold bs in H1, H2, H3, H4.
  rewrite Nat.sub_0_r in H4. cbn [skipn] in H1.
  conjs; try assumption.
  rewrite H3. destruct emails; reflexivity.
Qed.

Lemma fold_tallyStep (results : list Outcome) :
  forall tl,
    let out := fold_left tallyStep results tl in
    processedCount out
    = (processedCount tl + length (filter isProcessed results))%nat
    /\ draftsSaved out = (draftsSaved tl + length (filter hasDraft results))%nat
    /\ skippedCount out
       = (skippedCount tl + length (filter isSkipped results))%nat
    /\ uidsToMarkAsRead out
       = uidsToMarkAsRead tl ++ map uidOf (filter isMarked results).
Proof.
  induction results as [|r results IH]; intros tl out.
  - unfold out. cbn [fold_left filter length map]. rewrite app_nil_r.
    conjs; lia || reflexivity.
  - unfold out. cbn [fold_left].
    destruct (IH (tallyStep tl r)) as (H1 & H2 & H3 & H4).
    rewrite H1, H2, H3, H4.
    destruct r as [u|u [[|c mid]|]|u];
      cbn [tallyStep filter isProcessed hasDraft isSkipped isMarked length map
           uidOf processedCount draftsSaved skippedCount uidsToMarkAsRead];
      rewrite <- ?app_assoc; cbn [app]; conjs; lia || reflexivity.
Qed.

Lemma filter_length_sub {A} (p q : A -> bool) (l : list A) :
  (forall x, p x = true -> q x = true) ->
  (length (filter p l) <= length (filter q l))%nat.
Proof.
  intros H. induction l as [|x l IH]; [apply Nat.le_refl|].
  cbn [filter]. destruct (p x) eqn:P.
  - rewrite (H x P). cbn [length]. lia.
  - destruct (q x); cbn [length]; lia.
Qed.

(** X29. After the run, the emails marked as read are those of the skipped
    and the processed outcomes, in the order of the results, and none of an
    outcome that is an error; their number is the sum of the two counters,
    and no more drafts are counted than emails processed. *)
Theorem tally_marks_all_but_errors (results : list Outcome) :
  let out := tally results in
  uidsToMarkAsRead out = map uidOf (filter isMarked results)
  /\ length (uidsToMarkAsRead out) = (processedCount out + skippedCount out)%nat
  /\ (draftsSaved out <= processedCount out)%nat
  /\ (processedCount out + skippedCount out
      + length (filter (fun r => negb (isMarked r)) results)
      = length results)%nat
  /\ (forall u, In u (uidsToMarkAsRead out) ->
                exists r, In r results /\ uidOf r = u /\ isMarked r = true).
Proof.
  intros out.
  destruct (fold_tallyStep results
              {| processedCount := 0; draftsSaved := 0; skippedCount := 0;
                 uidsToMarkAsRead := [] |}) as (H1 & H2 & H3 & H4).
  fold (tally results) in H1, H2, H3, H4. fold out in H1, H2, H3, H4.
  cbn [processedCount draftsSaved skippedCount uidsToMarkAsRead app Nat.add]
    in H1, H2, H3, H4.
  assert (Hcount : (length (filter isMarked results)
                    = length (filter isProcessed results)
                      + length (filter isSkipped results)
                    /\ length (filter isMarked results)
                       + length (filter (fun r => negb (isMarked r)) results)
                       = length results)%nat).
  { clear. induction results as [|r results [IH1 IH2]]; [now split|].
    destruct r; cbn [filter isMarked isProcessed isSkipped negb length];
      split; lia. }
  destruct Hcount as [Hc1 Hc2].
  conjs.
  - exact H4.
  - rewrite H4, length_map, H1, H3. exact Hc1.
  - rewrite H1, H2. apply filter_length_sub.
    intros [u|u [[|c mid]|]|u]; cbn; congruence.
  - rewrite H1, H3, <- Hc1. exact Hc2.
  - intros u Hu. rewrite H4 in Hu. apply in_map_iff in Hu as (r & Hr & Hin).
    apply filter_In in Hin as [Hin Hm]. now exists r.
Qed.

End DriverBatches.

(** * The further properties at work *)

Section FurtherExamples.
Import TemplateRetriever ZhipuAIService Driver.

Lemma getCandidates_first_similar_witness :
  getCandidates asciiLower (new asciiLower Demo.corpus) (js "退款")
  = [Demo.refundTemplate; Demo.orderTemplate].
Proof.
  refine (eq_trans (@getCandidates_first_similar asciiLower Demo.corpus
                      (js "退款") (js "退款相关") [] [js "技术问题"] _ _ _ _) _).
  - vm_compute. intuition discriminate.
  - reflexivity.
  - intros k' [].
  - left. reflexivity.
  - reflexivity.
Defined.

Lemma findBestMatches_prefix_witness :
  findBestMatches asciiLower Demo.retriever Demo.email (js "退款相关")
    (Z.of_nat 1)
  = firstn 1 (findBestMatches asciiLower Demo.retriever Demo.email
                (js "退款相关") (Z.of_nat 2)).
Proof.
  apply (@findBestMatches_prefix asciiLower Demo.retriever Demo.email
           (js "退款相关") 1 2).
  apply le_S, le_n.
Defined.

Lemma valid_index_selects_candidate_witness :
  selectTemplateWithReasoning Demo.hostIndex Demo.prompts
    (Demo.scripted [Demo.replyOne]) Demo.service Demo.retriever Demo.email
    (js "退款相关") None None None Demo.start
  = (Ok (Some {| sel_template := Demo.refundTemplate;
                 sel_scenario := scenario Demo.refundTemplate;
                 sel_score := score Demo.runnerUp;
                 sel_reasoning := Some (JStr (js "asks for a refund")) |}),
     snd (selectTemplateWithReasoning Demo.hostIndex Demo.prompts
            (Demo.scripted [Demo.replyOne]) Demo.service Demo.retriever
            Demo.email (js "退款相关") None None None Demo.start)).
Proof.
  refine (eq_trans (@valid_index_selects_candidate Demo.hostIndex Demo.prompts
                      (Demo.scripted [Demo.replyOne]) Demo.service
                      Demo.retriever Demo.email (js "退款相关") None None None
                      Demo.start {| fetches := 1; trace := _ |} Demo.replyOne
                      [(js "selectedIndex", JNum (Finite 1));
                       (js "reasoning", JStr (js "asks for a refund"))]
                      1 1%nat Demo.runnerUp _ _ _ _ _) _).
  - vm_compute. reflexivity.
  - reflexivity.
  - reflexivity.
  - reflexivity.
  - vm_compute. reflexivity.
  - vm_compute. reflexivity.
Defined.

Lemma fractional_index_falls_back_witness :
  fst (selectTemplateWithReasoning Demo.hostIndex Demo.prompts
         (Demo.scripted [Demo.replyHalf]) Demo.service Demo.retriever
         Demo.email (js "退款相关") None None None Demo.start)
  = Ok (Some {| sel_template := Demo.orderTemplate;
                sel_scenario := scenario Demo.orderTemplate;
                sel_score := score Demo.best;
                sel_reasoning := Some (JStr fallbackReasoning) |}).
Proof.
  refine (f_equal fst (@fractional_index_falls_back Demo.hostIndex Demo.prompts
            (Demo.scripted [Demo.replyHalf]) Demo.service Demo.retriever
            Demo.email (js "退款相关") None None None Demo.start
            {| fetches := 1; trace := _ |} Demo.replyHalf
            [(js "selectedIndex", JNum (Finite (1 # 2)))] (1 # 2)
            Demo.best [Demo.runnerUp] _ _ _ _ _ _ _)).
  - vm_compute. reflexivity.
  - vm_compute. reflexivity.
  - reflexivity.
  - reflexivity.
  - vm_compute. discriminate.
  - vm_compute. reflexivity.
  - vm_compute. discriminate.
Defined.

Lemma unmatched_email_needs_no_request_witness :
  snd (generateResponse Demo.host Demo.prompts (Demo.scripted [])
         Demo.playbackService Demo.email Demo.analysis true Demo.start)
  = Demo.start.
Proof.
  refine (f_equal snd (@unmatched_email_needs_no_request Demo.host Demo.prompts
            (Demo.scripted []) Demo.playbackService
            (new asciiLower [Demo.playbackTemplate]) Demo.email Demo.analysis
            (js "退款相关") Demo.start eq_refl eq_refl _ _)).
  - discriminate.
  - intros tpl H. vm_compute in H. destruct H as [<- | []].
    vm_compute. discriminate.
Defined.

Lemma free_form_response_witness :
  fst (generateResponse Demo.host Demo.prompts (Demo.scripted [js "Hello"])
         Demo.service Demo.email Demo.analysis false Demo.start)
  = Ok {| response := js "Hello"; language := js "en";
          matchedTemplates := None |}.
Proof.
  refine (eq_trans (proj2 (@free_form_response Demo.host Demo.prompts
                             (Demo.scripted [js "Hello"]) Demo.service
                             Demo.email Demo.analysis false Demo.start _)) _).
  - left. reflexivity.
  - vm_compute. reflexivity.
Defined.

Lemma response_language_witness :
  language {| response := js "Hello"; language := js "en";
              matchedTemplates := None |}
  = detectedLanguageOf Demo.analysis.
Proof.
  refine (proj1 (@response_language Demo.host Demo.prompts
                   (Demo.scripted [js "Hello"]) Demo.service Demo.email
                   Demo.analysis false Demo.start {| fetches := 1; trace := _ |}
                   {| response := js "Hello"; language := js "en";
                      matchedTemplates := None |} _)).
  vm_compute. reflexivity.
Defined.

Lemma stripCodeFence_unwraps_witness :
  stripCodeFence (fenceJson ++ newline ++ js "{}" ++ newline ++ fence)
  = js "{}".
Proof.
  refine (proj1 (@stripCodeFence_unwraps (js "{}") _ _)); reflexivity.
Defined.

Lemma personalizeTemplate_trimmed_witness :
  trim (js "Dear user") = js "Dear user".
Proof.
  refine (proj1 (@personalizeTemplate_trimmed Demo.prompts
                   (Demo.scripted [js " Dear user "]) Demo.service
                   (Text (js "Please update the app.")) Demo.email (js "en")
                   None None
                   Demo.start {| fetches := 1; trace := _ |} (js "Dear user") _)).
  vm_compute. reflexivity.
Defined.

Lemma replySubject_never_stacks_witness :
  replySubject asciiLower (replySubject asciiLower (js "Help"))
  = replySubject asciiLower (js "Help").
Proof.
  refine (proj1 (proj2 (@replySubject_never_stacks asciiLower (js "Help") _))).
  intros s. reflexivity.
Defined.

Lemma reported_template_is_a_candidate_witness :
  exists r cat m,
    templateRetriever Demo.service = Some r
    /\ Analysis.category Demo.analysis = Some cat
    /\ In m (findBestMatches asciiLower r Demo.email cat 10)
    /\ In (template m) (getCandidates asciiLower r cat)
    /\ [{| mt_id := js "T3"; mt_scenario := scenario Demo.orderTemplate;
           mt_score := score Demo.best |}]
       = [{| mt_id := id (template m); mt_scenario := scenario (template m);
             mt_score := score m |}]
    /\ 0 < score m
    /\ trim (js "Dear user") = js "Dear user".
Proof.
  refine (@reported_template_is_a_candidate Demo.host Demo.prompts
            (Demo.scripted [Demo.replyGarbage; js " Dear user "]) Demo.service
            Demo.email Demo.analysis true Demo.start
            {| fetches := 2; trace := _ |}
            {| response := js "Dear user"; language := js "en";
               matchedTemplates :=
                 Some [{| mt_id := js "T3";
                          mt_scenario := scenario Demo.orderTemplate;
                          mt_score := score Demo.best |}] |}
            _ _ eq_refl).
  vm_compute. reflexivity.
Defined.

(** The heuristic takes every text with the word [a] that no earlier rule
    catches for Portuguese, and a text with [is] for Dutch. *)
Example detectLanguage_examples :
  map (fun txt =>
         TemplateRetriever.detectLanguage asciiLower
           {| uid := 1; from_address := []; subject := []; text := txt;
              deviceInfo := None; appVersion := None; orderId := None;
              userId := None |})
      [js "I cannot play videos"; js "This is a test";
       js "The model is new"; js "Das Video ist kaputt";
       js "日本語のメール"; js "ありがとう"]
  = [js "en"; js "pt"; js "nl"; js "de"; js "zh"; js "ja"].
Proof. vm_compute. reflexivity. Qed.

(** Conversions of parsed values: an array is joined, an object with a
    [toString] field of its own cannot be converted. *)
Example conversions_of_parsed_values :
  Coerce.ToString Demo.host
    (Some (JArr [JNum (Finite 1); JNull; JStr (js "a")])) = Ok (js "1,,a")
  /\ Coerce.ToString Demo.host (Some (JObj [(js "reasoning", JNull)]))
     = Ok (js "[object Object]")
  /\ Coerce.ToString Demo.host (Some (JObj [(js "toString", JNull)]))
     = Throw Coerce.notPrimitive
  /\ Coerce.ToNumber Demo.host (Some (JArr [JObj [(js "toString", JNull)]]))
     = Throw Coerce.notPrimitive
  /\ Coerce.at_ Demo.host [10; 20; 30]%nat (Some (JStr (js "2")))
     = Ok (Some 30%nat)
  /\ Coerce.at_ Demo.host [10; 20; 30]%nat (Some (JArr [JNum (Finite 1)]))
     = Ok (Some 20%nat).
Proof. vm_compute. repeat split; reflexivity. Qed.

(** A language named like a member of [Object.prototype] finds that member,
    not the English text. *)
Example getTemplateContent_examples :
  getTemplateContent Demo.refundTemplate (js "en")
  = Text (js "We have received your refund request.")
  /\ getTemplateContent Demo.refundTemplate (js "fr")
     = Text (js "We have received your refund request.")
  /\ getTemplateContent Demo.refundTemplate (js "constructor")
     = Inherited (js "constructor")
  /\ getTemplateContent Demo.capitalTemplate (js "en") = Text [].
Proof. vm_compute. repeat split; reflexivity. Qed.

(** A selected reasoning that cannot be converted to a string makes
    [generateResponse] itself throw, in its log line. *)
Example unprintable_reasoning_throws :
  fst (generateResponse
         {| toLowerCase := asciiLower;
            JSON_parse := fun _ =>
              Some (JObj [(js "selectedIndex", JNum (Finite 0));
                          (js "reasoning", JObj [(js "toString", JNull)])]);
            StringToNumber := fun _ => NaN;
            NumberToString := Demo.numberText |}
         Demo.prompts (Demo.scripted [js "{}"; js "Dear user"]) Demo.service
         Demo.email Demo.analysis true Demo.start)
  = Throw Coerce.notPrimitive.
Proof. vm_compute. reflexivity. Qed.

Example batches_of_seven :
  batches [1; 2; 3; 4; 5; 6; 7]%nat
  = [([1; 2; 3], true); ([4; 5; 6], true); ([7], false)]%nat.
Proof. reflexivity. Qed.

(** A second [@] cuts the domain that is logged. *)
Example maskEmail_examples :
  map (maskEmail true)
      [js "alice@example.com"; js "a@b@c"; js "alice"; js "alice@"]
  = [js "al***@example.com"; js "a***@b"; js "***"; js "***"].
Proof. vm_compute. reflexivity. Qed.

Example tally_example :
  tally [processed 1 (Some (js "<id>")); error 2; skipped 3; processed 4 None]
  = {| processedCount := 2; draftsSaved := 1; skippedCount := 1;
       uidsToMarkAsRead := [1; 3; 4]%N |}.
Proof. reflexivity. Qed.

End FurtherExamples.
